(** * keras-image-models (kimm): model registry, fuzzy name matcher and the
    MobileNetV3 configuration-to-graph compiler.

    A shallow embedding of
    - [kimm/_src/utils/model_registry.py]
    - [kimm/_src/blocks/depthwise_separation.py], [inverted_residual.py]
    - [kimm/_src/models/mobilenet_v3.py] and the earlier
      [kimm/models/mobilenet_v3.py]
    together with the properties stated about them.

    Conventions.  Python [str] values are modelled by [string] (sequences of
    8-bit characters; [str.lower] is the per-character ASCII map on them).
    Python [int] is [Z], indices produced by [enumerate]/[range] are [nat],
    and a Python [float] is modelled by the rational number it denotes
    ([Q]), with exact arithmetic.  Where the code takes [floor] or [ceil] of a
    product of an integer and a float, the exact product gives the same
    integer as its correctly rounded float (rounding to nearest is monotone
    and integers of this size are floats); the decimal literals of the
    configuration tables and the round limit [0.9] are read as the decimal
    fractions they spell. *)

From Stdlib Require Import Ascii String QArith Qround Lqa.
From stdpp Require Import gmap strings list sorting pretty.

Close Scope Q_scope.
#[local] Set Warnings "-clear-no-such-hyp".
Local Open Scope string_scope.
Local Open Scope Z_scope.
Local Open Scope list_scope.

(** ** Python string primitives *)

Module PyString.

(** [c.lower()] on one character of an ASCII string: the letters [A]-[Z]
    move up by 32.  Characters outside ASCII are left as they are, where
    Python follows Unicode; the properties below that speak of all strings
    use of [lower] only that it is the same function wherever it occurs,
    that lowering twice is lowering once, and that it keeps the three
    separators. *)
Definition lower_ascii (c : ascii) : ascii :=
  let n := N_of_ascii c in
  if ((65 <=? n) && (n <=? 90))%N then ascii_of_N (n + 32) else c.

(** [s.lower()] *)
Fixpoint lower (s : string) : string :=
  match s with
  | EmptyString => EmptyString
  | String c s' => String (lower_ascii c) (lower s')
  end.

(** [s.replace(old, new)] for a one-character [old]. *)
Fixpoint replace (old : ascii) (new : string) (s : string) : string :=
  match s with
  | EmptyString => EmptyString
  | String c s' =>
      if Ascii.eqb c old then new +:+ replace old new s'
      else String c (replace old new s')
  end.

(** [enumerate(s)] *)
Fixpoint enumerate_from (i : nat) (s : string) : list (nat * ascii) :=
  match s with
  | EmptyString => []
  | String c s' => (i, c) :: enumerate_from (S i) s'
  end.

Definition enumerate (s : string) : list (nat * ascii) := enumerate_from 0 s.

(** Iterating over the characters of a string. *)
Fixpoint chars (s : string) : list ascii :=
  match s with
  | EmptyString => []
  | String c s' => c :: chars s'
  end.

End PyString.

(** ** [kimm/_src/utils/model_registry.py]: the fuzzy name matcher *)

(** The inner [for idx, t_char in enumerate(target)] loop of [_match_string],
    threading the two variables it assigns, [matched_idx] and [matched]. *)
Fixpoint match_inner (q_char : ascii) (target : list (nat * ascii))
    (matched_idx : Z) (matched : bool) : Z * bool :=
  match target with
  | [] => (matched_idx, matched)
  | (idx, t_char) :: rest =>
      if matched then (matched_idx, matched) (* break *)
      else if Ascii.eqb q_char t_char && (matched_idx <? Z.of_nat idx)
      then match_inner q_char rest (Z.of_nat idx) true
      else match_inner q_char rest matched_idx matched
  end.

(** The outer [for q_char in query] loop with its early [return False]. *)
Fixpoint match_outer (query : list ascii) (target : list (nat * ascii))
    (matched_idx : Z) : bool :=
  match query with
  | [] => true
  | q_char :: query' =>
      let '(matched_idx', matched) := match_inner q_char target matched_idx false in
      if negb matched then false
      else match_outer query' target matched_idx'
  end.

Definition _match_string (query target : string) : bool :=
  let query :=
    PyString.replace "." "" (PyString.replace "_" "" (PyString.replace " " "" (PyString.lower query))) in
  let target := PyString.lower target in
  match_outer (PyString.chars query) (PyString.enumerate target) (-1).

(** The specification's reading of the matcher. *)

(** The normalised query: lowercased, then spaces, underscores and dots
    dropped. *)
Definition is_separator (c : ascii) : bool :=
  Ascii.eqb c " " || Ascii.eqb c "_" || Ascii.eqb c ".".

Fixpoint drop_separators (s : string) : string :=
  match s with
  | EmptyString => EmptyString
  | String c s' =>
      if is_separator c then drop_separators s' else String c (drop_separators s')
  end.

Definition normalized_query (query : string) : string :=
  drop_separators (PyString.lower query).

(** [query] is an ordered subsequence of [target]: there are positions in
    [target], one per character of [query], carrying that character, each
    strictly greater than the previous one. *)
Definition ordered_subsequence (query target : string) : Prop :=
  ∃ ps : list nat,
    Forall2 (λ c p, String.get p target = Some c) (PyString.chars query) ps
    ∧ Sorted lt ps.

(** Positions increasing from an exclusive lower bound: the loop invariant of
    the matcher, with [matched_idx] as the bound. *)
Fixpoint increasing_after (m : Z) (ps : list nat) : Prop :=
  match ps with
  | [] => True
  | p :: ps' => m < Z.of_nat p ∧ increasing_after (Z.of_nat p) ps'
  end.

(** A query made of separators only. *)
Definition separator_only (query : string) : bool :=
  forallb is_separator (PyString.chars query).

(** ** Python values, exceptions and outcomes *)

(** The values that can reach a [weights] parameter: the annotation says
    [None], [bool] or [str], and the code checks with [isinstance], so any
    other object has to be representable too. *)
Inductive pyvalue :=
| VNone
| VBool (b : bool)
| VStr (s : string)
| VInt (z : Z).

(** [str(v)], as an f-string renders it. *)
Definition py_str (v : pyvalue) : string :=
  match v with
  | VNone => "None"
  | VBool true => "True"
  | VBool false => "False"
  | VStr s => s
  | VInt z => pretty z
  end.

Inductive exception :=
| ValueError (msg : string)
| UnboundLocalError (var : string).

(** A call either returns or raises. *)
Inductive outcome (A : Type) :=
| Return (a : A)
| Raise (e : exception).
Arguments Return {A} a.
Arguments Raise {A} e.

#[global] Instance outcome_ret : MRet outcome := @Return.
#[global] Instance outcome_bind : MBind outcome := λ A B f m,
  match m with
  | Return a => f a
  | Raise e => Raise e
  end.

Definition returns {A} (m : outcome A) : bool :=
  match m with Return _ => true | Raise _ => false end.

(** A [for] loop whose body may raise. *)
Fixpoint for_each {A S} (body : A → S → outcome S) (l : list A) (st : S) : outcome S :=
  match l with
  | [] => Return st
  | a :: l' => st' ← body a st; for_each body l' st'
  end.

(** ** [kimm/_src/utils/model_registry.py]: the registry *)

(** One dictionary of [MODEL_REGISTRY]. *)
Record model_info := {
  info_name : string;
  info_feature_extractor : bool;
  info_feature_keys : list string;
  info_weights : option string;
}.

(** What [add_model_to_registry] reads of a model class: [__name__],
    [__module__], [issubclass(model_cls, BaseModel)] and
    [available_feature_keys]. *)
Record model_class := {
  cls_name : string;
  cls_module : string;
  cls_is_base_model : bool;
  cls_available_feature_keys : list string;
}.

(** The process-wide state the registry functions touch: the registry list,
    the [__all__] attribute of every loaded module (no binding: the module has
    no such attribute) and the warnings issued so far. *)
Record py_state := {
  MODEL_REGISTRY : list model_info;
  module_all : gmap string (list string);
  warnings : list string;
}.

Definition clear_registry (st : py_state) : py_state :=
  {| MODEL_REGISTRY := [];
     module_all := module_all st;
     warnings := warnings st |}.

(** [for info in MODEL_REGISTRY: if info["name"] == name: warnings.warn(...)] *)
Definition warn_duplicates (name : string) (registry : list model_info)
    (ws : list string) : list string :=
  fold_left
    (λ ws info,
       if String.eqb (info_name info) name
       then (ws ++ ["MODEL_REGISTRY already contains name=" +:+ name +:+ "!"])%list
       else ws)
    registry ws.

Definition add_model_to_registry (model_cls : model_class) (weights : pyvalue)
    (st : py_state) : outcome unit * py_state :=
  (* Deal with __all__ *)
  let model_name := cls_name model_cls in
  let all' :=
    match module_all st !! cls_module model_cls with
    | Some l => <[cls_module model_cls := (l ++ [model_name])%list]> (module_all st)
    | None => <[cls_module model_cls := [model_name]]> (module_all st)
    end in
  (* Add model information *)
  let feature_extractor := false in
  let feature_keys := [] in
  let '(feature_extractor, feature_keys) :=
    if cls_is_base_model model_cls
    then (true, cls_available_feature_keys model_cls)
    else (feature_extractor, feature_keys) in
  let ws := warn_duplicates (cls_name model_cls) (MODEL_REGISTRY st) (warnings st) in
  let checked : outcome (option string) :=
    match weights with
    | VNone => Return None
    | VStr w => Return (Some (PyString.lower w))
    | _ =>
        Raise (ValueError
          ("`weights` must be one of (None, str). Recieved: weight=" +:+ py_str weights))
    end in
  match checked with
  | Raise e =>
      (Raise e, {| MODEL_REGISTRY := MODEL_REGISTRY st; module_all := all'; warnings := ws |})
  | Return weights =>
      (Return tt,
       {| MODEL_REGISTRY :=
            (MODEL_REGISTRY st ++
               [ {| info_name := cls_name model_cls;
                    info_feature_extractor := feature_extractor;
                    info_feature_keys := feature_keys;
                    info_weights := weights |} ])%list;
          module_all := all';
          warnings := ws |})
  end.

(** [info["weights"] != weights] *)
Definition weights_ne (info_w : option string) (weights : pyvalue) : bool :=
  match info_w, weights with
  | None, VNone => false
  | Some a, VStr b => negb (String.eqb a b)
  | _, _ => true
  end.

(** [weights.lower() != info["weights"]] for a [str] [weights]. *)
Definition lower_ne (weights : string) (info_w : option string) : bool :=
  match info_w with
  | Some a => negb (String.eqb (PyString.lower weights) a)
  | None => true
  end.

(** [weights is True], [weights is False], [info["weights"] is not None] *)
Definition is_True (v : pyvalue) : bool :=
  match v with VBool true => true | _ => false end.

Definition is_False (v : pyvalue) : bool :=
  match v with VBool false => true | _ => false end.

Definition is_Some_b {A} (o : option A) : bool :=
  match o with Some _ => true | None => false end.

(** The body of the [for info in MODEL_REGISTRY] loop of [list_models]. *)
Definition list_models_body (name : option string) (feature_extractor : option bool)
    (weights : pyvalue) (result_names : gset string) (info : model_info) : gset string :=
  (* Add by default *)
  let result_names := result_names ∪ {[ info_name info ]} in
  let need_remove := false in
  (* Match string (simple implementation) *)
  let need_remove :=
    match name with
    | Some name => negb (_match_string name (info_name info))
    | None => need_remove
    end in
  (* Filter by feature_extractor and weights *)
  let need_remove :=
    match feature_extractor with
    | Some fe => if negb (Bool.eqb (info_feature_extractor info) fe) then true else need_remove
    | None => need_remove
    end in
  let need_remove :=
    match weights with
    | VNone => need_remove
    | _ =>
        if weights_ne (info_weights info) weights then
          if is_True weights && negb (is_Some_b (info_weights info)) then true
          else if is_False weights && is_Some_b (info_weights info) then true
          else
            match weights with
            | VStr w => if lower_ne w (info_weights info) then true else need_remove
            | _ => need_remove
            end
        else need_remove
    end in
  if need_remove then result_names ∖ {[ info_name info ]} else result_names.

(** [sorted(result_names)]: the elements in increasing string order. *)
Definition sorted (names : gset string) : list string :=
  merge_sort String.le (elements names).

Definition list_models (name : option string) (feature_extractor : option bool)
    (weights : pyvalue) (st : py_state) : list string :=
  let result_names := fold_left (list_models_body name feature_extractor weights)
                        (MODEL_REGISTRY st) ∅ in
  sorted result_names.

(** The specification's reading of the registry. *)

(** [weights] is [None] or a [str]: what registration accepts. *)
Definition valid_weights (weights : pyvalue) : bool :=
  match weights with
  | VNone | VStr _ => true
  | _ => false
  end.

(** The invariant registration establishes on an entry: its weight tag is
    [None] or a lowercase string. *)
Definition lowercase_weights (info : model_info) : Prop :=
  ∀ t, info_weights info = Some t → PyString.lower t = t.

(** Equality of strings up to case. *)
Definition eq_ignoring_case (a b : string) : bool :=
  String.eqb (PyString.lower a) (PyString.lower b).

(** The three filters of [list_models], as the specification words them. *)
Definition name_keeps (name : option string) (info : model_info) : bool :=
  match name with
  | Some name => _match_string name (info_name info)
  | None => true
  end.

Definition feature_extractor_keeps (feature_extractor : option bool)
    (info : model_info) : bool :=
  match feature_extractor with
  | Some fe => Bool.eqb (info_feature_extractor info) fe
  | None => true
  end.

Definition weights_keeps (weights : pyvalue) (info : model_info) : bool :=
  match weights with
  | VBool true => is_Some_b (info_weights info)
  | VBool false => negb (is_Some_b (info_weights info))
  | VStr w =>
      match info_weights info with
      | Some t => eq_ignoring_case w t
      | None => false
      end
  | _ => true
  end.

Definition keeps (name : option string) (feature_extractor : option bool)
    (weights : pyvalue) (info : model_info) : bool :=
  name_keeps name info && feature_extractor_keeps feature_extractor info
  && weights_keeps weights info.

(** The entry registered last under a name. *)
Definition last_named (n : string) (registry : list model_info) : option model_info :=
  last (filter (λ info, info_name info = n) registry).

(** The warning text of a duplicate registration. *)
Definition duplicate_warning (name : string) : string :=
  "MODEL_REGISTRY already contains name=" +:+ name +:+ "!".

(** The entry a successful registration appends. *)
Definition registered_entry (model_cls : model_class) (weights : pyvalue) : model_info :=
  {| info_name := cls_name model_cls;
     info_feature_extractor := cls_is_base_model model_cls;
     info_feature_keys :=
       if cls_is_base_model model_cls then cls_available_feature_keys model_cls else [];
     info_weights :=
       match weights with
       | VStr w => Some (PyString.lower w)
       | _ => None
       end |}.

(** Sample classes and states used in the examples below. *)
Definition class_Foo : model_class :=
  {| cls_name := "Foo"; cls_module := "kimm.models.foo"; cls_is_base_model := true;
     cls_available_feature_keys := ["A"] |}.

Definition class_Bar : model_class :=
  {| cls_name := "Bar"; cls_module := "kimm.models.foo"; cls_is_base_model := false;
     cls_available_feature_keys := [] |}.

Definition empty_state : py_state :=
  {| MODEL_REGISTRY := []; module_all := ∅; warnings := [] |}.

(** After [add_model_to_registry(Foo, "imagenet")]. *)
Definition state_Foo : py_state :=
  snd (add_model_to_registry class_Foo (VStr "imagenet") empty_state).

(** After registering [Foo] a second time, without weights. *)
Definition state_Foo_twice : py_state :=
  snd (add_model_to_registry class_Foo VNone state_Foo).

(** ** Channel rounding *)

Definition Qltb (a b : Q) : bool := (Qnum a * QDen b <? Qnum b * QDen a)%Z.

(** Modelled from the spec: [kimm/_src/utils/make_divisble.py] is imported by
    the compiler and by the inverted-residual block but is not among the
    sources.  The specification gives its contract
    [make_divisible(value, divisor=8, min_value=None, round_limit=0.9)] and its
    algorithm: [rounded = max(min_value or divisor,
    floor(value + divisor/2) // divisor * divisor)], bumped by [divisor] when
    [rounded < round_limit * value]. *)
Definition make_divisible (value : Q) (divisor : Z) (min_value : option Z)
    (round_limit : Q) : Z :=
  let min_value :=
    match min_value with
    | Some m => if m =? 0 then divisor else m
    | None => divisor
    end in
  let rounded :=
    Z.max min_value (Qfloor (value + inject_Z divisor / 2)%Q / divisor * divisor) in
  if Qltb (inject_Z rounded) (round_limit * value)%Q then rounded + divisor
  else rounded.

(** A call that leaves every keyword argument at its default. *)
Definition make_divisible_default (value : Q) : Z :=
  make_divisible value 8 None (9 # 10).

(** ** Symbolic Keras tensors *)

(** Layers of the framework that the code instantiates directly. *)
Inductive keras_layer :=
| GlobalAveragePooling2D (name : string) (keepdims : bool)
| GlobalMaxPooling2D (name : string)
| Conv2D (filters kernel_size strides : Z) (use_bias : bool) (name : string)
| Activation (activation : string) (name : string)
| Flatten
| Dropout (rate : Q) (name : string)
| Dense (units : Z) (activation : string) (name : string).

(** Arguments of [apply_conv2d_block]; [None] stands for an argument the call
    site leaves at the callee's default. *)
Record conv2d_args := {
  cv_filters : option Z;
  cv_kernel_size : Z;
  cv_strides : Z;
  cv_activation : option string;
  cv_use_depthwise : bool;
  cv_bn_epsilon : option Q;
  cv_padding : option string;
  cv_name : string;
}.

(** Arguments of [apply_se_block]. *)
Record se_args := {
  se_ratio_arg : Q;
  se_activation_arg : option string;
  se_gate_activation_arg : option string;
  se_input_channels_arg : option Z;
  se_make_divisible_number_arg : option Z;
  se_name : string;
}.

(** A tensor of the functional graph under construction is the expression
    that built it. *)
Inductive tensor :=
| Input (channels : Z)
| Layer (l : keras_layer) (x : tensor)
| Add (x y : tensor)
| Conv2dBlock (a : conv2d_args) (x : tensor)
| SEBlock (a : se_args) (x : tensor).

(** [x.shape[channels_axis]] *)
Fixpoint channels (x : tensor) : Z :=
  match x with
  | Input c => c
  | Layer (Conv2D filters _ _ _ _) _ => filters
  | Layer (Dense units _ _) _ => units
  | Layer _ x => channels x
  | Add x _ => channels x
  | Conv2dBlock a x =>
      match cv_filters a with
      | Some filters => filters
      | None => channels x
      end
  | SEBlock _ x => channels x
  end.

(** Modelled from the spec: [kimm/_src/blocks/conv2d.py] is not among the
    sources; the specification treats a layer application as an opaque
    operation with a known shape transform.  The call is recorded with its
    arguments; a depthwise call without [filters] keeps the channel count. *)
Definition apply_conv2d_block (inputs : tensor) (filters : option Z)
    (kernel_size strides : Z) (activation : option string) (use_depthwise : bool)
    (bn_epsilon : option Q) (padding : option string) (name : string) : tensor :=
  Conv2dBlock
    {| cv_filters := filters; cv_kernel_size := kernel_size; cv_strides := strides;
       cv_activation := activation; cv_use_depthwise := use_depthwise;
       cv_bn_epsilon := bn_epsilon; cv_padding := padding; cv_name := name |}
    inputs.

(** Modelled from the spec: [kimm/_src/blocks/squeeze_and_excitation.py] is
    not among the sources; an opaque, shape-preserving operation. *)
Definition apply_se_block (inputs : tensor) (se_ratio : Q)
    (activation gate_activation : option string) (se_input_channels : option Z)
    (make_divisible_number : option Z) (name : string) : tensor :=
  SEBlock
    {| se_ratio_arg := se_ratio; se_activation_arg := activation;
       se_gate_activation_arg := gate_activation;
       se_input_channels_arg := se_input_channels;
       se_make_divisible_number_arg := make_divisible_number; se_name := name |}
    inputs.

(** [y] is [layers.Add()([_, x])]: the block's input was added to its output. *)
Definition adds_input (x y : tensor) : Prop := ∃ body, y = Add body x.

(** [a or b] on optional strings. *)
Definition or_else (a : option string) (b : string) : string :=
  match a with
  | Some v => if String.eqb v "" then b else v
  | None => b
  end.

(** ** The closing [super().__init__] *)

(** The name a layer is created with; [Flatten] is created without one and
    gets a fresh name from Keras. *)
Definition keras_layer_name (l : keras_layer) : list string :=
  match l with
  | GlobalAveragePooling2D name _ => [name]
  | GlobalMaxPooling2D name => [name]
  | Conv2D _ _ _ _ name => [name]
  | Activation _ name => [name]
  | Flatten => []
  | Dropout _ name => [name]
  | Dense _ _ name => [name]
  end.

(** The names given to the layers of the graph that ends in [x], inputs
    first.  A call of [apply_conv2d_block] or [apply_se_block] stands for the
    layers it creates, which it names after its [name] argument.
    [layers.Add()] is created without a name; its second operand is the
    input of the block that ends in it, whose layers are reached through the
    first operand. *)
Fixpoint layer_names (x : tensor) : list string :=
  match x with
  | Input _ => []
  | Layer l x => layer_names x ++ keras_layer_name l
  | Add x _ => layer_names x
  | Conv2dBlock a x => layer_names x ++ [cv_name a]
  | SEBlock a x => layer_names x ++ [se_name a]
  end.

(** [all_names.count(name)] *)
Definition count_name (name : string) (all_names : list string) : nat :=
  length (filter (λ n, n = name) all_names).

(** The first name that is not used exactly once. *)
Definition first_repeated (all_names : list string) : option string :=
  head (filter (λ name, count_name name all_names ≠ 1%nat) all_names).

Definition double_quote : string := String (ascii_of_nat 34) "".

(** The constructors end in
    [super().__init__(inputs=inputs, outputs=x, features=features, **kwargs)].
    The base classes ([kimm/_src/models/base_model.py],
    [kimm/models/feature_extractor.py]) are not among the sources; they hand
    the graph to the functional-model constructor of Keras, which refuses a
    graph in which a layer name is used more than once.  This check is what
    is kept of the call.  [preprocessed] is the tensor the constructor
    started from: the layers below it (the input and the preprocessing) are
    created by the base class under names of Keras's own choice and are left
    out; the message names the repeated block where Keras names the first
    repeated layer inside it. *)
Definition functional_model_init (preprocessed outputs : tensor) : outcome unit :=
  let all_names := drop (length (layer_names preprocessed)) (layer_names outputs) in
  match first_repeated all_names with
  | Some name =>
      Raise (ValueError
        ("The name " +:+ double_quote +:+ name +:+ double_quote +:+ " is used "
         +:+ pretty (count_name name all_names)
         +:+ " times in the model. All operation names should be unique."))
  | None => Return tt
  end.

(** ** [kimm/_src/blocks/depthwise_separation.py] *)

Definition apply_depthwise_separation_block (inputs : tensor) (filters : Z)
    (depthwise_kernel_size pointwise_kernel_size strides : Z) (se_ratio : Q)
    (activation se_activation se_gate_activation : option string)
    (se_make_divisible_number : option Z) (pw_activation : option string)
    (has_skip : bool) (bn_epsilon : Q) (padding : option string) (name : string)
    : outcome tensor :=
  let input_filters := channels inputs in
  if has_skip && (negb (strides =? 1) || negb (input_filters =? filters)) then
    Raise (ValueError
      ("If `has_skip=True`, strides must be 1 and `filters` must be the "
       +:+ "same as input_filters. "
       +:+ "Received: strides=" +:+ pretty strides +:+ ", filters=" +:+ pretty filters
       +:+ ", input_filters=" +:+ pretty input_filters))
  else
    let x := inputs in
    let x := apply_conv2d_block x None depthwise_kernel_size strides activation true
               (Some bn_epsilon) padding (name +:+ "_conv_dw") in
    let x :=
      if Qltb 0 se_ratio then
        apply_se_block x se_ratio se_activation se_gate_activation None
          se_make_divisible_number (name +:+ "_se")
      else x in
    let x := apply_conv2d_block x (Some filters) pointwise_kernel_size 1 pw_activation
               false (Some bn_epsilon) padding (name +:+ "_conv_pw") in
    let x := if has_skip then Add x inputs else x in
    Return x.

(** ** [kimm/_src/blocks/inverted_residual.py] *)

Definition apply_inverted_residual_block (inputs : tensor) (filters : Z)
    (depthwise_kernel_size expansion_kernel_size pointwise_kernel_size strides : Z)
    (expansion_ratio se_ratio : Q) (activation : string) (se_channels : option Z)
    (se_activation se_gate_activation : option string)
    (se_make_divisible_number : option Z) (bn_epsilon : Q) (padding : option string)
    (name : string) : outcome tensor :=
  let input_channels := channels inputs in
  let hidden_channels :=
    make_divisible_default (inject_Z input_channels * expansion_ratio)%Q in
  let has_skip := (strides =? 1) && (input_channels =? filters) in
  let x := inputs in
  (* Point-wise expansion *)
  let x := apply_conv2d_block x (Some hidden_channels) expansion_kernel_size 1
             (Some activation) false (Some bn_epsilon) padding (name +:+ "_conv_pw") in
  (* Depth-wise convolution *)
  let x := apply_conv2d_block x None depthwise_kernel_size strides (Some activation) true
             (Some bn_epsilon) padding (name +:+ "_conv_dw") in
  (* Squeeze-and-excitation *)
  let x :=
    if Qltb 0 se_ratio then
      apply_se_block x se_ratio (Some (or_else se_activation activation))
        se_gate_activation se_channels se_make_divisible_number (name +:+ "_se")
    else x in
  (* Point-wise linear projection *)
  let x := apply_conv2d_block x (Some filters) pointwise_kernel_size 1 None false
             (Some bn_epsilon) padding (name +:+ "_conv_pwl") in
  let x := if has_skip then Add x inputs else x in
  Return x.

(** ** Stage configurations *)

(** One row [[type, repeat, kernel_size, strides, expansion_ratio, channels,
    se_ratio, activation]] of a configuration table. *)
Record BlockSpec := {
  b_type : string;
  b_r : Z;
  b_k : Z;
  b_s : Z;
  b_e : Q;
  b_c : Z;
  b_se : Q;
  b_act : string;
}.

Definition row (type : string) (r k s : Z) (e : Q) (c : Z) (se : Q) (act : string)
    : BlockSpec :=
  {| b_type := type; b_r := r; b_k := k; b_s := s; b_e := e; b_c := c;
     b_se := se; b_act := act |}.

Definition DEFAULT_SMALL_CONFIG : list (list BlockSpec) :=
  [ (* stage0 *)
    [ row "ds" 1 3 2 1 16 (1 # 4) "relu" ];
    (* stage1 *)
    [ row "ir" 1 3 2 (9 # 2) 24 0 "relu";
      row "ir" 1 3 1 (367 # 100) 24 0 "relu" ];
    (* stage2 *)
    [ row "ir" 1 5 2 4 40 (1 # 4) "hard_swish";
      row "ir" 2 5 1 6 40 (1 # 4) "hard_swish" ];
    (* stage3 *)
    [ row "ir" 2 5 1 3 48 (1 # 4) "hard_swish" ];
    (* stage4 *)
    [ row "ir" 3 5 2 6 96 (1 # 4) "hard_swish" ];
    (* stage5 *)
    [ row "cn" 1 1 1 1 576 0 "hard_swish" ] ].

Definition DEFAULT_LARGE_CONFIG : list (list BlockSpec) :=
  [ (* stage0 *)
    [ row "ds" 1 3 1 1 16 0 "relu" ];
    (* stage1 *)
    [ row "ir" 1 3 2 4 24 0 "relu";
      row "ir" 1 3 1 3 24 0 "relu" ];
    (* stage2 *)
    [ row "ir" 3 5 2 3 40 (1 # 4) "relu" ];
    (* stage3 *)
    [ row "ir" 1 3 2 6 80 0 "hard_swish";
      row "ir" 1 3 1 (5 # 2) 80 0 "hard_swish";
      row "ir" 2 3 1 (23 # 10) 80 0 "hard_swish" ];
    (* stage4 *)
    [ row "ir" 2 3 1 6 112 (1 # 4) "hard_swish" ];
    (* stage5 *)
    [ row "ir" 3 5 2 6 160 (1 # 4) "hard_swish" ];
    (* stage6 *)
    [ row "cn" 1 1 1 1 960 0 "hard_swish" ] ].

Definition DEFAULT_LCNET_CONFIG : list (list BlockSpec) :=
  [ (* stage0 *)
    [ row "dsa" 1 3 1 1 32 0 "hard_swish" ];
    (* stage1 *)
    [ row "dsa" 2 3 2 1 64 0 "hard_swish" ];
    (* stage2 *)
    [ row "dsa" 2 3 2 1 128 0 "hard_swish" ];
    (* stage3 *)
    [ row "dsa" 1 3 2 1 256 0 "hard_swish";
      row "dsa" 1 5 1 1 256 0 "hard_swish" ];
    (* stage4 *)
    [ row "dsa" 4 5 1 1 256 0 "hard_swish" ];
    (* stage5 *)
    [ row "dsa" 2 5 2 1 512 (1 # 4) "hard_swish" ] ].

(** ** The compiler's loop state *)

(** [enumerate(l)] *)
Fixpoint enumerate_from {A} (i : nat) (l : list A) : list (nat * A) :=
  match l with
  | [] => []
  | a :: l' => (i, a) :: enumerate_from (S i) l'
  end.

Definition enumerate {A} (l : list A) : list (nat * A) := enumerate_from 0 l.

(** [d[k] = v] on an insertion-ordered dictionary. *)
Fixpoint dict_set {V} (k : string) (v : V) (d : list (string * V)) : list (string * V) :=
  match d with
  | [] => [(k, v)]
  | (k', v') :: d' =>
      if String.eqb k' k then (k', v) :: d' else (k', v') :: dict_set k v d'
  end.

(** [list(d.keys())] *)
Definition keys {V} (d : list (string * V)) : list string := map fst d.

(** What one iteration of the innermost [for current_layer_idx in range(r)]
    loop works with: the indices and the values of [block_type], [c], [k],
    [s], [e], [se], [act] and [name] in force when the builder is chosen. *)
Record layer_record := {
  lr_stage : nat;
  lr_block : nat;
  lr_layer : nat;
  lr_type : string;
  lr_c : Z;
  lr_k : Z;
  lr_s : Z;
  lr_e : Q;
  lr_se : Q;
  lr_act : string;
  lr_name : string;
}.

(** The variables the block loops assign: [x], [current_stride], [features],
    and a log of the iterations of the innermost loop, kept for
    observation only. *)
Record build_state := {
  st_x : tensor;
  st_current_stride : Z;
  st_features : list (string * tensor);
  st_trace : list layer_record;
}.

(** What a constructed model exposes. *)
Record model := {
  outputs : tensor;
  features : list (string * tensor);
  trace : list layer_record;
}.

(** The [BaseModel] properties that [__init__] reads back from [self]. *)
Record base_props := {
  include_top : bool;
  classes : Z;
  classifier_activation : string;
  dropout_rate : Q;
  pooling : option string;
}.

(** ** [kimm/_src/models/mobilenet_v3.py] *)

(** One iteration of [for current_layer_idx in range(r)]; [s] is reassigned
    inside the loop and therefore carried along with the state. *)
Definition layer_step (bn_epsilon : Q) (padding : option string)
    (current_stage_idx current_block_idx : nat) (block_type : string) (c k : Z)
    (e se : Q) (act : string) (current_layer_idx : nat) (carried : build_state * Z)
    : outcome (build_state * Z) :=
  let '(st, s) := carried in
  let x := st_x st in
  let s := if (current_layer_idx =? 0)%nat then s else 1 in
  let name :=
    "blocks_" +:+ pretty current_stage_idx +:+ "_"
      +:+ pretty (current_block_idx + current_layer_idx)%nat in
  x ←
    (if String.eqb block_type "ds" || String.eqb block_type "dsa" then
       let has_skip :=
         if String.eqb block_type "dsa" then false
         else (channels x =? c) && (s =? 1) in
       apply_depthwise_separation_block x c k 1 s se (Some act) (Some "relu")
         (Some "hard_sigmoid") (Some 8)
         (if String.eqb block_type "dsa" then Some act else None)
         has_skip bn_epsilon padding name
     else if String.eqb block_type "ir" then
       apply_inverted_residual_block x c k 1 1 s e se act None (Some "relu")
         (Some "hard_sigmoid") (Some 8) bn_epsilon padding name
     else if String.eqb block_type "cn" then
       Return (apply_conv2d_block x (Some c) k s (Some act) false (Some bn_epsilon)
                 padding name)
     else Return x);
  Return
    ({| st_x := x;
        st_current_stride := st_current_stride st * s;
        st_features := st_features st;
        st_trace :=
          (st_trace st ++
             [ {| lr_stage := current_stage_idx; lr_block := current_block_idx;
                  lr_layer := current_layer_idx; lr_type := block_type;
                  lr_c := c; lr_k := k; lr_s := s; lr_e := e; lr_se := se;
                  lr_act := act; lr_name := name |} ])%list |},
     s).

(** [current_block_idx not in (0, len(_config) - 1)] *)
Definition depth_scaled (current_block_idx : nat) (len_config : nat) : bool :=
  negb ((Z.of_nat current_block_idx =? 0)
        || (Z.of_nat current_block_idx =? Z.of_nat len_config - 1)).

(** The body of [for current_block_idx, sub_cfg in enumerate(cfg)]. *)
Definition block_step (width depth : Q) (force_activation : option string)
    (force_kernel_size : option Z) (no_se : bool) (bn_epsilon : Q)
    (padding : option string) (len_config : nat) (current_stage_idx : nat)
    (indexed : nat * BlockSpec) (st : build_state) : outcome build_state :=
  let '(current_block_idx, sub_cfg) := indexed in
  let '(block_type, r, k, s, e, c, se, act) :=
    (b_type sub_cfg, b_r sub_cfg, b_k sub_cfg, b_s sub_cfg, b_e sub_cfg,
     b_c sub_cfg, b_se sub_cfg, b_act sub_cfg) in
  (* override default config *)
  let act := match force_activation with Some a => a | None => act end in
  let k :=
    match force_kernel_size with
    | Some force_kernel_size => if force_kernel_size <? k then force_kernel_size else k
    | None => k
    end in
  let se := if no_se then 0%Q else se in
  let c := make_divisible_default (inject_Z c * width)%Q in
  (* no depth multiplier at first and last block *)
  let r :=
    if depth_scaled current_block_idx len_config
    then Qceiling (inject_Z r * depth)%Q
    else r in
  carried ←
    for_each
      (layer_step bn_epsilon padding current_stage_idx current_block_idx
         block_type c k e se act)
      (seq 0 (Z.to_nat r)) (st, s);
  Return (fst carried).

(** The body of [for current_stage_idx, cfg in enumerate(_config)]. *)
Definition stage_step (width depth : Q) (force_activation : option string)
    (force_kernel_size : option Z) (no_se : bool) (bn_epsilon : Q)
    (padding : option string) (len_config : nat) (indexed : nat * list BlockSpec)
    (st : build_state) : outcome build_state :=
  let '(current_stage_idx, cfg) := indexed in
  st ←
    for_each
      (block_step width depth force_activation force_kernel_size no_se bn_epsilon
         padding len_config current_stage_idx)
      (enumerate cfg) st;
  Return
    {| st_x := st_x st;
       st_current_stride := st_current_stride st;
       st_features :=
         dict_set
           ("BLOCK" +:+ pretty current_stage_idx +:+ "_S" +:+ pretty (st_current_stride st))
           (st_x st) (st_features st);
       st_trace := st_trace st |}.

(** The stem and the block loops over a configuration table [_config]:
    from [features = {}] to the end of the stage loop. *)
Definition build_blocks (width depth : Q) (fix_stem_and_head_channels : bool)
    (_config : list (list BlockSpec)) (force_activation : option string)
    (force_kernel_size : option Z) (no_se : bool) (bn_epsilon : Q)
    (padding : option string) (x : tensor) : outcome build_state :=
  (* Prepare feature extraction *)
  let features := [] in
  (* stem *)
  let stem_channel :=
    if fix_stem_and_head_channels then 16 else make_divisible_default (16 * width)%Q in
  let x := apply_conv2d_block x (Some stem_channel) 3 2
             (Some (or_else force_activation "hard_swish")) false (Some bn_epsilon)
             padding "conv_stem" in
  let features := dict_set "STEM_S2" x features in
  (* blocks *)
  let current_stride := 2 in
  for_each
    (stage_step width depth force_activation force_kernel_size no_se bn_epsilon
       padding (length _config))
    (enumerate _config)
    {| st_x := x; st_current_stride := current_stride; st_features := features;
       st_trace := [] |}.

Definition build_top (inputs : tensor) (classes : Z) (classifier_activation : string)
    (dropout_rate : Q) (conv_head_channels : Z) (head_activation : string) : tensor :=
  let x := Layer (GlobalAveragePooling2D "avg_pool" true) inputs in
  let x := Layer (Conv2D conv_head_channels 1 1 true "conv_head") x in
  let x := Layer (Activation head_activation "act2") x in
  let x := Layer Flatten x in
  let x := Layer (Dropout dropout_rate "conv_head_dropout") x in
  let x := Layer (Dense classes classifier_activation "classifier") x in
  x.

(** The [if config == ...] chain at the head of [__init__]: the table and
    the head width of a built-in name, [ValueError] for any other. *)
Definition select_config (config : string) : outcome (list (list BlockSpec) * Z) :=
  if String.eqb config "small" then Return (DEFAULT_SMALL_CONFIG, 1024)
  else if String.eqb config "large" then Return (DEFAULT_LARGE_CONFIG, 1280)
  else if String.eqb config "lcnet" then Return (DEFAULT_LCNET_CONFIG, 1280)
  else
    Raise (ValueError
      ("config must be one of ['small', 'large', 'lcnet'] using string. "
       +:+ "Received: config=" +:+ config)).

(** The [if minimal] statement: [force_activation], [force_kernel_size] and
    [no_se]. *)
Definition minimal_settings (minimal : bool) : option string * option Z * bool :=
  if minimal then (Some "relu", Some 3, true) else (None, None, false).

(** [MobileNetV3.__init__].  [bn_epsilon] and [padding] are the two entries
    it pops from [kwargs]; [props] are the properties [set_properties] stored
    on [self]; [x] is the tensor that [determine_input_tensor] and
    [build_preprocessing] produced.  The construction ends in the closing
    [super().__init__], which raises when two layers got the same name. *)
Definition MobileNetV3_init (width depth : Q) (fix_stem_and_head_channels : bool)
    (config : string) (minimal : bool) (bn_epsilon : Q) (padding : option string)
    (props : base_props) (x : tensor) : outcome model :=
  selected ← select_config config;
  let '(_config, conv_head_channels) := selected in
  let force_activation := fst (fst (minimal_settings minimal)) in
  let force_kernel_size := snd (fst (minimal_settings minimal)) in
  let no_se := snd (minimal_settings minimal) in
  let preprocessed := x in
  st ← build_blocks width depth fix_stem_and_head_channels _config force_activation
         force_kernel_size no_se bn_epsilon padding x;
  let x := st_x st in
  (* Head *)
  let x :=
    if include_top props then
      let conv_head_channels :=
        if fix_stem_and_head_channels then conv_head_channels
        else Z.max conv_head_channels
               (make_divisible_default (inject_Z conv_head_channels * width)%Q) in
      let head_activation := or_else force_activation "hard_swish" in
      build_top x (classes props) (classifier_activation props) (dropout_rate props)
        conv_head_channels head_activation
    else
      match pooling props with
      | Some "avg" => Layer (GlobalAveragePooling2D "avg_pool" false) x
      | Some "max" => Layer (GlobalMaxPooling2D "max_pool") x
      | _ => x
      end in
  _ ← functional_model_init preprocessed x;
  Return {| outputs := x; features := st_features st; trace := st_trace st |}.

(** ** [kimm/models/mobilenet_v3.py]: the earlier, self-contained module *)

Module Legacy.

(** The [config] argument: the name of a built-in table or a table. *)
Inductive config_arg :=
| ConfigName (name : string)
| ConfigTable (table : list (list BlockSpec)).

Definition apply_depthwise_separation_block (inputs : tensor) (output_channels : Z)
    (depthwise_kernel_size pointwise_kernel_size strides : Z) (se_ratio : Q)
    (activation : string) (name : string) : tensor :=
  let input_channels := channels inputs in
  let has_skip := (strides =? 1) && (input_channels =? output_channels) in
  let x := inputs in
  let x := apply_conv2d_block x None depthwise_kernel_size strides (Some activation)
             true None None (name +:+ "_conv_dw") in
  let x :=
    if Qltb 0 se_ratio then
      apply_se_block x se_ratio (Some "relu") (Some "hard_sigmoid") None (Some 8)
        (name +:+ "_se")
    else x in
  let x := apply_conv2d_block x (Some output_channels) pointwise_kernel_size 1 None
             false None None (name +:+ "_conv_pw") in
  let x := if has_skip then Add x inputs else x in
  x.

Definition apply_inverted_residual_block (inputs : tensor) (output_channels : Z)
    (depthwise_kernel_size expansion_kernel_size pointwise_kernel_size strides : Z)
    (expansion_ratio se_ratio : Q) (activation : string) (name : string) : tensor :=
  let input_channels := channels inputs in
  let hidden_channels :=
    make_divisible_default (inject_Z input_channels * expansion_ratio)%Q in
  let has_skip := (strides =? 1) && (input_channels =? output_channels) in
  let x := inputs in
  (* Point-wise expansion *)
  let x := apply_conv2d_block x (Some hidden_channels) expansion_kernel_size 1
             (Some activation) false None None (name +:+ "_conv_pw") in
  (* Depth-wise convolution *)
  let x := apply_conv2d_block x None depthwise_kernel_size strides (Some activation)
             true None None (name +:+ "_conv_dw") in
  (* Squeeze-and-excitation *)
  let x :=
    if Qltb 0 se_ratio then
      apply_se_block x se_ratio (Some "relu") (Some "hard_sigmoid") None (Some 8)
        (name +:+ "_se")
    else x in
  (* Point-wise linear projection *)
  let x := apply_conv2d_block x (Some output_channels) pointwise_kernel_size 1 None
             false None None (name +:+ "_conv_pwl") in
  let x := if has_skip then Add x inputs else x in
  x.

(** One iteration of [for current_layer_idx in range(r)]. *)
Definition layer_step (current_stage_idx current_block_idx : nat)
    (block_type : string) (c k : Z) (e se : Q) (act : string)
    (current_layer_idx : nat) (carried : build_state * Z) : build_state * Z :=
  let '(st, s) := carried in
  let x := st_x st in
  let s := if (current_layer_idx =? 0)%nat then s else 1 in
  let name :=
    "blocks_" +:+ pretty current_stage_idx +:+ "_"
      +:+ pretty (current_block_idx + current_layer_idx)%nat in
  let x :=
    if String.eqb block_type "ds" then
      apply_depthwise_separation_block x c k 1 s se act name
    else if String.eqb block_type "ir" then
      apply_inverted_residual_block x c k 1 1 s e se act name
    else if String.eqb block_type "cn" then
      apply_conv2d_block x (Some c) k s (Some act) false None None name
    else x in
  ({| st_x := x;
      st_current_stride := st_current_stride st * s;
      st_features := st_features st;
      st_trace :=
        (st_trace st ++
           [ {| lr_stage := current_stage_idx; lr_block := current_block_idx;
                lr_layer := current_layer_idx; lr_type := block_type;
                lr_c := c; lr_k := k; lr_s := s; lr_e := e; lr_se := se;
                lr_act := act; lr_name := name |} ])%list |},
   s).

(** The body of [for current_block_idx, sub_cfg in enumerate(cfg)]. *)
Definition block_step (width depth : Q) (force_activation : option string)
    (force_kernel_size : option Z) (no_se : bool) (len_config : nat)
    (current_stage_idx : nat) (st : build_state) (indexed : nat * BlockSpec)
    : build_state :=
  let '(current_block_idx, sub_cfg) := indexed in
  let '(block_type, r, k, s, e, c, se, act) :=
    (b_type sub_cfg, b_r sub_cfg, b_k sub_cfg, b_s sub_cfg, b_e sub_cfg,
     b_c sub_cfg, b_se sub_cfg, b_act sub_cfg) in
  (* override default config *)
  let act := match force_activation with Some a => a | None => act end in
  let k :=
    match force_kernel_size with
    | Some force_kernel_size => if force_kernel_size <? k then force_kernel_size else k
    | None => k
    end in
  let se := if no_se then 0%Q else se in
  let c := make_divisible_default (inject_Z c * width)%Q in
  (* no depth multiplier at first and last block *)
  let r :=
    if depth_scaled current_block_idx len_config
    then Qceiling (inject_Z r * depth)%Q
    else r in
  fst
    (fold_left
       (λ carried current_layer_idx,
          layer_step current_stage_idx current_block_idx block_type c k e se act
            current_layer_idx carried)
       (seq 0 (Z.to_nat r)) (st, s)).

(** The body of [for current_stage_idx, cfg in enumerate(config)]. *)
Definition stage_step (width depth : Q) (force_activation : option string)
    (force_kernel_size : option Z) (no_se : bool) (len_config : nat)
    (st : build_state) (indexed : nat * list BlockSpec) : build_state :=
  let '(current_stage_idx, cfg) := indexed in
  let st :=
    fold_left
      (block_step width depth force_activation force_kernel_size no_se len_config
         current_stage_idx)
      (enumerate cfg) st in
  {| st_x := st_x st;
     st_current_stride := st_current_stride st;
     st_features :=
       dict_set
         ("BLOCK" +:+ pretty current_stage_idx +:+ "_S" +:+ pretty (st_current_stride st))
         (st_x st) (st_features st);
     st_trace := st_trace st |}.

(** [MobileNetV3.__init__]; [x] is the tensor after input handling and
    preprocessing.  [conv_head_channels] is bound only by the two built-in
    names.  A [config] string other than those is iterated character by
    character and fails at the first unpacking.  The construction ends in the
    closing [super().__init__], which raises when two layers got the same
    name. *)
Definition MobileNetV3_init (width depth : Q) (fix_stem_and_head_channels : bool)
    (props : base_props) (config : config_arg) (minimal : bool) (x : tensor)
    : outcome model :=
  let '(config, conv_head_channels) :=
    match config with
    | ConfigName "small" => (ConfigTable DEFAULT_SMALL_CONFIG, Some 1024)
    | ConfigName "large" => (ConfigTable DEFAULT_LARGE_CONFIG, Some 1280)
    | _ => (config, None)
    end in
  let '(force_activation, force_kernel_size, no_se) :=
    if minimal then (Some "relu", Some 3, true) else (None, None, false) in
  (* Prepare feature extraction *)
  let features := [] in
  let preprocessed := x in
  (* stem *)
  let stem_channel :=
    if fix_stem_and_head_channels then 16 else make_divisible_default (16 * width)%Q in
  let x := apply_conv2d_block x (Some stem_channel) 3 2
             (Some (or_else force_activation "hard_swish")) false None None
             "conv_stem" in
  let features := dict_set "STEM_S2" x features in
  (* blocks *)
  let current_stride := 2 in
  let st0 :=
    {| st_x := x; st_current_stride := current_stride; st_features := features;
       st_trace := [] |} in
  st ←
    match config with
    | ConfigTable table =>
        Return
          (fold_left
             (stage_step width depth force_activation force_kernel_size no_se
                (length table))
             (enumerate table) st0)
    | ConfigName "" => Return st0
    | ConfigName _ =>
        Raise (ValueError "not enough values to unpack (expected 8, got 1)")
    end;
  let x := st_x st in
  x ←
    (if include_top props then
       let x := Layer (GlobalAveragePooling2D "avg_pool" true) x in
       match conv_head_channels with
       | None => Raise (UnboundLocalError "conv_head_channels")
       | Some conv_head_channels =>
           let conv_head_channels :=
             if fix_stem_and_head_channels then conv_head_channels
             else Z.max conv_head_channels
                    (make_divisible_default (inject_Z conv_head_channels * width)%Q) in
           let x := Layer (Conv2D conv_head_channels 1 1 true "conv_head") x in
           let x := Layer (Activation (or_else force_activation "hard_swish") "act2") x in
           let x := Layer Flatten x in
           let x := Layer (Dropout (dropout_rate props) "conv_head_dropout") x in
           let x := Layer (Dense (classes props) (classifier_activation props)
                             "classifier") x in
           Return x
       end
     else
       match pooling props with
       | Some "avg" => Return (Layer (GlobalAveragePooling2D "avg_pool" false) x)
       | Some "max" => Return (Layer (GlobalMaxPooling2D "max_pool") x)
       | _ => Return x
       end);
  _ ← functional_model_init preprocessed x;
  Return {| outputs := x; features := st_features st; trace := st_trace st |}.

End Legacy.

(** ** The expansion of a table, in closed form *)

Section Expansion.

Context (width depth : Q).
Context (force_activation : option string) (force_kernel_size : option Z) (no_se : bool).
Context (len_config : nat).

(** The values a row is run with, after the overrides, the channel rounding
    and the depth scaling of [block_step]. *)
Definition effective_act (b : BlockSpec) : string :=
  match force_activation with Some a => a | None => b_act b end.

Definition effective_k (b : BlockSpec) : Z :=
  match force_kernel_size with
  | Some force_kernel_size =>
      if force_kernel_size <? b_k b then force_kernel_size else b_k b
  | None => b_k b
  end.

Definition effective_se (b : BlockSpec) : Q :=
  if no_se then 0%Q else b_se b.

Definition effective_c (b : BlockSpec) : Z :=
  make_divisible_default (inject_Z (b_c b) * width)%Q.

Definition effective_r (current_block_idx : nat) (b : BlockSpec) : Z :=
  if depth_scaled current_block_idx len_config
  then Qceiling (inject_Z (b_r b) * depth)%Q
  else b_r b.

Definition block_name (stage block layer : nat) : string :=
  "blocks_" +:+ pretty stage +:+ "_" +:+ pretty (block + layer)%nat.

(** The record of repetition [layer] of the row [b] at [(stage, block)]: the
    row's stride applies to repetition 0 only. *)
Definition record_of (stage block : nat) (b : BlockSpec) (layer : nat) : layer_record :=
  {| lr_stage := stage; lr_block := block; lr_layer := layer; lr_type := b_type b;
     lr_c := effective_c b; lr_k := effective_k b;
     lr_s := if (layer =? 0)%nat then b_s b else 1;
     lr_e := b_e b; lr_se := effective_se b; lr_act := effective_act b;
     lr_name := block_name stage block layer |}.

Definition block_records (stage : nat) (indexed : nat * BlockSpec) : list layer_record :=
  map (record_of stage (fst indexed) (snd indexed))
    (seq 0 (Z.to_nat (effective_r (fst indexed) (snd indexed)))).

Definition stage_records (indexed : nat * list BlockSpec) : list layer_record :=
  flat_map (block_records (fst indexed)) (enumerate (snd indexed)).

Definition table_records (table : list (list BlockSpec)) : list layer_record :=
  flat_map stage_records (enumerate table).

End Expansion.

(** The product of the strides applied by a run of iterations. *)
Definition strides_product (records : list layer_record) : Z :=
  foldr Z.mul 1 (lr_s <$> records).

(** The cumulative stride after stage [j]: the stem's 2 times every stride
    applied in the stages up to [j]. *)
Definition stride_after (j : nat) (records : list layer_record) : Z :=
  2 * strides_product (filter (λ r, (lr_stage r ≤ j)%nat) records).

Definition tap_key (stage : nat) (stride : Z) : string :=
  "BLOCK" +:+ pretty stage +:+ "_S" +:+ pretty stride.

(** The state [st'] continues [st] by the iterations [news]: the log grows by
    them, the running stride is multiplied by theirs, and no tap is
    recorded. *)
Definition extends (st st' : build_state) (news : list layer_record) : Prop :=
  st_trace st' = st_trace st ++ news
  ∧ st_current_stride st' = st_current_stride st * strides_product news
  ∧ st_features st' = st_features st.

(** The invariant of the stage loop before stage [i]. *)
Definition stage_invariant (i : nat) (st : build_state) : Prop :=
  Forall (λ r, (lr_stage r < i)%nat) (st_trace st)
  ∧ st_current_stride st = 2 * strides_product (st_trace st)
  ∧ keys (st_features st)
    = "STEM_S2" :: map (λ j, tap_key j (stride_after j (st_trace st))) (seq 0 i).

(** The block kinds the dispatch of [layer_step] knows. *)
Definition recognized (block_type : string) : bool :=
  String.eqb block_type "ds" || String.eqb block_type "dsa"
  || String.eqb block_type "ir" || String.eqb block_type "cn".

(** The number of iterations logged for the row at [(stage, block)]. *)
Definition block_count (records : list layer_record) (stage block : nat) : nat :=
  length (filter (λ r, lr_stage r = stage ∧ lr_block r = block) records).

(** The block counts of a table, row by row. *)
Definition block_counts (records : list layer_record) (table : list (list BlockSpec))
    : list (list nat) :=
  map (λ icfg : nat * list BlockSpec,
         map (λ jb : nat * BlockSpec, block_count records (fst icfg) (fst jb))
           (enumerate (snd icfg)))
    (enumerate table).

(** The counts the depth-scaling rule of the specification gives: a row that is
    neither the first nor the last of its own stage is scaled to
    [ceil(r * depth)], the others keep [r]. *)
Definition boundary_exempt_counts (depth : Q) (table : list (list BlockSpec))
    : list (list nat) :=
  map (λ cfg : list BlockSpec,
         map (λ jb : nat * BlockSpec,
                Z.to_nat
                  (if ((fst jb =? 0)%nat || (fst jb =? length cfg - 1)%nat)
                   then b_r (snd jb)
                   else Qceiling (inject_Z (b_r (snd jb)) * depth)%Q))
           (enumerate cfg))
    table.

(** The row of the table an iteration belongs to. *)
Definition row_of (table : list (list BlockSpec)) (r : layer_record) : option BlockSpec :=
  cfg ← table !! lr_stage r; cfg !! lr_block r.

(** The stride an iteration applies: its row's stride at repetition 0 and 1
    at every later repetition. *)
Definition applied_stride_ok (table : list (list BlockSpec)) (r : layer_record) : Prop :=
  ∃ b, row_of table r = Some b
       ∧ lr_s r = if (lr_layer r =? 0)%nat then b_s b else 1.


(** The built-in tables by name. *)
Definition builtin_configs : list (string * list (list BlockSpec)) :=
  [ ("small", DEFAULT_SMALL_CONFIG); ("large", DEFAULT_LARGE_CONFIG);
    ("lcnet", DEFAULT_LCNET_CONFIG) ].

(** Observations of a construction that may have raised. *)
Definition trace_of (m : outcome model) : list layer_record :=
  match m with Return m => trace m | Raise _ => [] end.

Definition feature_keys_of (m : outcome model) : list string :=
  match m with Return m => keys (features m) | Raise _ => [] end.

Definition state_keys_of (st : outcome build_state) : list string :=
  match st with Return st => keys (st_features st) | Raise _ => [] end.

Definition state_trace_of (st : outcome build_state) : list layer_record :=
  match st with Return st => st_trace st | Raise _ => [] end.

(** [x] contains a squeeze-and-excitation block. *)
Fixpoint has_se_block (x : tensor) : bool :=
  match x with
  | Input _ => false
  | Layer _ x => has_se_block x
  | Add x y => has_se_block x || has_se_block y
  | Conv2dBlock _ x => has_se_block x
  | SEBlock _ _ => true
  end.

(** Sample arguments used in the examples below. *)
Definition headless : base_props :=
  {| include_top := false; classes := 1000; classifier_activation := "softmax";
     dropout_rate := 0; pooling := None |}.

Definition with_head : base_props :=
  {| include_top := true; classes := 1000; classifier_activation := "softmax";
     dropout_rate := 0; pooling := None |}.

(** Two stages whose rows have strides [2, 1] and [2, 1, 1], one repetition
    each. *)
Definition strides_by_row : list (list BlockSpec) :=
  [ [ row "ir" 1 3 2 4 24 0 "relu"; row "ir" 1 3 1 3 24 0 "relu" ];
    [ row "ir" 1 3 2 3 40 0 "relu"; row "ir" 1 3 1 3 40 0 "relu";
      row "ir" 1 3 1 3 40 0 "relu" ] ].

(** Two stages of one row each, of stride 2, repeated twice and three times:
    the applied strides are [2, 1] and [2, 1, 1]. *)
Definition strides_by_repetition : list (list BlockSpec) :=
  [ [ row "ir" 2 3 2 4 24 0 "relu" ]; [ row "ir" 3 3 2 3 40 0 "relu" ] ].

(** One stage of three rows with repeats [1, 2, 1]. *)
Definition one_stage_121 : list (list BlockSpec) :=
  [ [ row "ir" 1 3 2 4 24 0 "relu"; row "ir" 2 3 1 3 24 0 "relu";
      row "ir" 1 3 1 3 24 0 "relu" ] ].

(** A table with a row of an unknown kind. *)
Definition unknown_kind_table : list (list BlockSpec) :=
  [ [ row "xx" 1 3 2 1 16 0 "relu" ] ].

Definition outputs_of (m : outcome model) : option tensor :=
  match m with Return m => Some (outputs m) | Raise _ => None end.

(** The stem of the earlier module at width 1, on a three-channel input. *)
Definition legacy_stem : tensor :=
  apply_conv2d_block (Input 3) (Some 16) 3 2 (Some "hard_swish") false None None
    "conv_stem".

(** ** Sequences of registry calls *)

(** A call of one of the two functions that write the registry. *)
Inductive registry_call :=
| CallAdd (model_cls : model_class) (weights : pyvalue)
| CallClear.

(** The state after a call, whether it returned or raised. *)
Definition run_call (call : registry_call) (st : py_state) : py_state :=
  match call with
  | CallAdd model_cls weights => snd (add_model_to_registry model_cls weights st)
  | CallClear => clear_registry st
  end.

Definition run_calls (calls : list registry_call) (st : py_state) : py_state :=
  fold_left (λ st call, run_call call st) calls st.

(** The class names that the calls append to the [__all__] of module [m], in
    call order. *)
Definition all_additions (m : string) (calls : list registry_call) : list string :=
  omap (λ call,
          match call with
          | CallAdd model_cls _ =>
              if decide (cls_module model_cls = m) then Some (cls_name model_cls) else None
          | CallClear => None
          end)
    calls.

(** ** The strides of a table *)

(** The cumulative stride after stage [j] read off the rows alone: the stem's
    2 times the strides of all rows of the stages up to [j]. *)
Definition table_stride_after (j : nat) (table : list (list BlockSpec)) : Z :=
  2 * foldr Z.mul 1 (b_s <$> concat (take (S j) table)).

(** Every row of the table asks for at least one repetition. *)
Definition positive_repeats (table : list (list BlockSpec)) : Prop :=
  Forall (Forall (λ b, 1 ≤ b_r b)) table.

(** ** The model classes of [kimm/_src/models/mobilenet_v3.py] *)

(** The keyword arguments of a construction that the two [__init__] methods
    look at; [None]: not passed. *)
Record init_kwargs := {
  kw_width : option Q;
  kw_depth : option Q;
  kw_fix_stem_and_head_channels : option bool;
  kw_config : option string;
  kw_minimal : option bool;
  kw_bn_epsilon : option Q;
  kw_padding : option string;
}.

Definition no_kwargs : init_kwargs :=
  {| kw_width := None; kw_depth := None; kw_fix_stem_and_head_channels := None;
     kw_config := None; kw_minimal := None; kw_bn_epsilon := None; kw_padding := None |}.

(** [config.pop(k, None)] *)
Definition kwargs_pop (k : string) (config : init_kwargs) : init_kwargs :=
  {| kw_width := if String.eqb k "width" then None else kw_width config;
     kw_depth := if String.eqb k "depth" then None else kw_depth config;
     kw_fix_stem_and_head_channels :=
       if String.eqb k "fix_stem_and_head_channels" then None
       else kw_fix_stem_and_head_channels config;
     kw_config := if String.eqb k "config" then None else kw_config config;
     kw_minimal := if String.eqb k "minimal" then None else kw_minimal config;
     kw_bn_epsilon := if String.eqb k "bn_epsilon" then None else kw_bn_epsilon config;
     kw_padding := if String.eqb k "padding" then None else kw_padding config |}.

(** [MobileNetV3.fix_config] *)
Definition fix_config (config : init_kwargs) : init_kwargs :=
  let unused_kwargs :=
    ["width"; "depth"; "fix_stem_and_head_channels"; "config"; "minimal"] in
  fold_left (λ config k, kwargs_pop k config) unused_kwargs config.

(** A call [MobileNetV3.__init__(self, **kwargs)]: the defaults of its
    signature and of its two [kwargs.pop]. *)
Definition MobileNetV3_call (kwargs : init_kwargs) (props : base_props) (x : tensor)
    : outcome model :=
  MobileNetV3_init (default 1%Q (kw_width kwargs)) (default 1%Q (kw_depth kwargs))
    (default false (kw_fix_stem_and_head_channels kwargs))
    (default "large" (kw_config kwargs)) (default false (kw_minimal kwargs))
    (default (1 # 100000)%Q (kw_bn_epsilon kwargs)) (kw_padding kwargs) props x.

(** The class a model class derives from, which decides the [__init__] it
    inherits. *)
Inductive class_base := FromMobileNetV3Variant | FromMobileNetV3.

(** The body of a model class: its name, its base and its class attributes;
    [attr_minimal], [attr_bn_epsilon] and [attr_padding] are [None] where the
    class has no such attribute ([hasattr] is false). *)
Record class_attrs := {
  attr_name : string;
  attr_base : class_base;
  attr_available_feature_keys : list string;
  attr_available_weights : list (string * string * string);
  attr_width : Q;
  attr_depth : Q;
  attr_fix_stem_and_head_channels : bool;
  attr_config : string;
  attr_minimal : option bool;
  attr_bn_epsilon : option Q;
  attr_padding : option string;
}.

(** How a construction through [MobileNetV3Variant.__init__] ends: refused
    with [NotImplementedError], or [MobileNetV3.__init__] was called with
    [weights] after the warnings [warned], and returned or raised. *)
Inductive construction :=
| Refused (msg : string)
| Constructed (warned : list string) (weights : option string) (result : outcome model).

(** [MobileNetV3Variant.__init__]; [self] is [None] for an instance of
    [MobileNetV3Variant] itself and the class body for an instance of a
    subclass. *)
Definition MobileNetV3Variant_init (self : option class_attrs) (weights : option string)
    (kwargs : init_kwargs) (props : base_props) (x : tensor) : construction :=
  match self with
  | None =>
      Refused ("Cannot instantiate base class: MobileNetV3Variant. "
               +:+ "You should use its subclasses.")
  | Some self =>
      let kwargs := fix_config kwargs in
      let kwargs :=
        match attr_minimal self with
        | Some minimal =>
            {| kw_width := kw_width kwargs; kw_depth := kw_depth kwargs;
               kw_fix_stem_and_head_channels := kw_fix_stem_and_head_channels kwargs;
               kw_config := kw_config kwargs; kw_minimal := Some minimal;
               kw_bn_epsilon := kw_bn_epsilon kwargs; kw_padding := kw_padding kwargs |}
        | None => kwargs
        end in
      let kwargs :=
        match attr_bn_epsilon self with
        | Some bn_epsilon =>
            {| kw_width := kw_width kwargs; kw_depth := kw_depth kwargs;
               kw_fix_stem_and_head_channels := kw_fix_stem_and_head_channels kwargs;
               kw_config := kw_config kwargs; kw_minimal := kw_minimal kwargs;
               kw_bn_epsilon := Some bn_epsilon; kw_padding := kw_padding kwargs |}
        | None => kwargs
        end in
      let kwargs :=
        match attr_padding self with
        | Some padding =>
            {| kw_width := kw_width kwargs; kw_depth := kw_depth kwargs;
               kw_fix_stem_and_head_channels := kw_fix_stem_and_head_channels kwargs;
               kw_config := kw_config kwargs; kw_minimal := kw_minimal kwargs;
               kw_bn_epsilon := kw_bn_epsilon kwargs; kw_padding := Some padding |}
        | None => kwargs
        end in
      let '(warned, weights) :=
        if (length (attr_available_weights self) =? 0)%nat then
          ([ attr_name self +:+ " doesn't have pretrained weights for '"
             +:+ match weights with Some w => w | None => "None" end +:+ "'." ],
           None)
        else ([], weights) in
      Constructed warned weights
        (MobileNetV3_call
           {| kw_width := Some (attr_width self); kw_depth := Some (attr_depth self);
              kw_fix_stem_and_head_channels := Some (attr_fix_stem_and_head_channels self);
              kw_config := Some (attr_config self); kw_minimal := kw_minimal kwargs;
              kw_bn_epsilon := kw_bn_epsilon kwargs; kw_padding := kw_padding kwargs |}
           props x)
  end.

(** Constructing an instance of a model class: the [__init__] of its base. *)
Definition construct (cls : class_attrs) (weights : option string) (kwargs : init_kwargs)
    (props : base_props) (x : tensor) : construction :=
  match attr_base cls with
  | FromMobileNetV3Variant => MobileNetV3Variant_init (Some cls) weights kwargs props x
  | FromMobileNetV3 => Constructed [] weights (MobileNetV3_call kwargs props x)
  end.

(** The list [["STEM_S2", *[f"BLOCK{i}_S{j}" for i, j in zip(range(n), strides)]]]
    of the class bodies. *)
Definition declared_keys (n : nat) (strides : list Z) : list string :=
  "STEM_S2"
  :: map (λ ij : nat * Z, "BLOCK" +:+ pretty (fst ij) +:+ "_S" +:+ pretty (snd ij))
       (zip (seq 0 n) strides).

Section Classes.

(** [MobileNetV3.default_origin], inherited from [BaseModel]. *)
Context (default_origin : string).

Definition MobileNetV3W050Small : class_attrs :=
  {| attr_name := "MobileNetV3W050Small"; attr_base := FromMobileNetV3Variant;
     attr_available_feature_keys := declared_keys 6 [4; 8; 16; 16; 32; 32];
     attr_available_weights :=
       [ ("imagenet", default_origin,
           "mobilenet050v3small_mobilenetv3_small_050.lamb_in1k.keras") ];
     attr_width := (1 # 2); attr_depth := 1; attr_fix_stem_and_head_channels := true;
     attr_config := "small";
     attr_minimal := None; attr_bn_epsilon := None; attr_padding := None |}.

Definition MobileNetV3W075Small : class_attrs :=
  {| attr_name := "MobileNetV3W075Small"; attr_base := FromMobileNetV3Variant;
     attr_available_feature_keys := declared_keys 6 [4; 8; 16; 16; 32; 32];
     attr_available_weights :=
       [ ("imagenet", default_origin,
           "mobilenet075v3small_mobilenetv3_small_075.lamb_in1k.keras") ];
     attr_width := (3 # 4); attr_depth := 1; attr_fix_stem_and_head_channels := false;
     attr_config := "small";
     attr_minimal := None; attr_bn_epsilon := None; attr_padding := None |}.

Definition MobileNetV3W100Small : class_attrs :=
  {| attr_name := "MobileNetV3W100Small"; attr_base := FromMobileNetV3Variant;
     attr_available_feature_keys := declared_keys 6 [4; 8; 16; 16; 32; 32];
     attr_available_weights :=
       [ ("imagenet", default_origin,
           "mobilenet100v3small_mobilenetv3_small_100.lamb_in1k.keras") ];
     attr_width := 1; attr_depth := 1; attr_fix_stem_and_head_channels := false;
     attr_config := "small";
     attr_minimal := None; attr_bn_epsilon := None; attr_padding := None |}.

Definition MobileNetV3W100SmallMinimal : class_attrs :=
  {| attr_name := "MobileNetV3W100SmallMinimal"; attr_base := FromMobileNetV3Variant;
     attr_available_feature_keys := declared_keys 6 [4; 8; 16; 16; 32; 32];
     attr_available_weights :=
       [ ("imagenet", default_origin,
           "mobilenet100v3smallminimal_" +:+ "tf_mobilenetv3_small_minimal_100.in1k.keras") ];
     attr_width := 1; attr_depth := 1; attr_fix_stem_and_head_channels := false;
     attr_config := "small";
     attr_minimal := Some true; attr_bn_epsilon := Some (1 # 1000)%Q;
     attr_padding := Some "same" |}.

Definition MobileNetV3W100Large : class_attrs :=
  {| attr_name := "MobileNetV3W100Large"; attr_base := FromMobileNetV3Variant;
     attr_available_feature_keys := declared_keys 7 [2; 4; 8; 16; 16; 32; 32];
     attr_available_weights :=
       [ ("imagenet", default_origin,
           "mobilenet100v3large_" +:+ "mobilenetv3_large_100.miil_in21k_ft_in1k.keras") ];
     attr_width := 1; attr_depth := 1; attr_fix_stem_and_head_channels := false;
     attr_config := "large";
     attr_minimal := None; attr_bn_epsilon := None; attr_padding := None |}.

Definition MobileNetV3W100LargeMinimal : class_attrs :=
  {| attr_name := "MobileNetV3W100LargeMinimal"; attr_base := FromMobileNetV3Variant;
     attr_available_feature_keys := declared_keys 7 [2; 4; 8; 16; 16; 32; 32];
     attr_available_weights :=
       [ ("imagenet", default_origin,
           "mobilenet100v3largeminimal_" +:+ "tf_mobilenetv3_large_minimal_100.in1k.keras") ];
     attr_width := 1; attr_depth := 1; attr_fix_stem_and_head_channels := false;
     attr_config := "large";
     attr_minimal := Some true; attr_bn_epsilon := Some (1 # 1000)%Q;
     attr_padding := Some "same" |}.

Definition LCNet035 : class_attrs :=
  {| attr_name := "LCNet035"; attr_base := FromMobileNetV3Variant;
     attr_available_feature_keys := declared_keys 6 [2; 4; 8; 16; 16; 32];
     attr_available_weights :=
       [];
     attr_width := (35 # 100); attr_depth := 1; attr_fix_stem_and_head_channels := false;
     attr_config := "lcnet";
     attr_minimal := None; attr_bn_epsilon := None; attr_padding := None |}.

Definition LCNet050 : class_attrs :=
  {| attr_name := "LCNet050"; attr_base := FromMobileNetV3Variant;
     attr_available_feature_keys := declared_keys 6 [2; 4; 8; 16; 16; 32];
     attr_available_weights :=
       [ ("imagenet", default_origin,
           "lcnet050_lcnet_050.ra2_in1k.keras") ];
     attr_width := (1 # 2); attr_depth := 1; attr_fix_stem_and_head_channels := false;
     attr_config := "lcnet";
     attr_minimal := None; attr_bn_epsilon := None; attr_padding := None |}.

Definition LCNet075 : class_attrs :=
  {| attr_name := "LCNet075"; attr_base := FromMobileNetV3Variant;
     attr_available_feature_keys := declared_keys 6 [2; 4; 8; 16; 16; 32];
     attr_available_weights :=
       [ ("imagenet", default_origin,
           "lcnet075_lcnet_075.ra2_in1k.keras") ];
     attr_width := (3 # 4); attr_depth := 1; attr_fix_stem_and_head_channels := false;
     attr_config := "lcnet";
     attr_minimal := None; attr_bn_epsilon := None; attr_padding := None |}.

Definition LCNet100 : class_attrs :=
  {| attr_name := "LCNet100"; attr_base := FromMobileNetV3Variant;
     attr_available_feature_keys := declared_keys 6 [2; 4; 8; 16; 16; 32];
     attr_available_weights :=
       [ ("imagenet", default_origin,
           "lcnet100_lcnet_100.ra2_in1k.keras") ];
     attr_width := 1; attr_depth := 1; attr_fix_stem_and_head_channels := false;
     attr_config := "lcnet";
     attr_minimal := None; attr_bn_epsilon := None; attr_padding := None |}.

Definition LCNet150 : class_attrs :=
  {| attr_name := "LCNet150"; attr_base := FromMobileNetV3;
     attr_available_feature_keys := declared_keys 7 [2; 4; 8; 16; 16; 32; 32];
     attr_available_weights :=
       [];
     attr_width := (3 # 2); attr_depth := 1; attr_fix_stem_and_head_channels := false;
     attr_config := "lcnet";
     attr_minimal := None; attr_bn_epsilon := None; attr_padding := None |}.

(** The subclasses of [MobileNetV3Variant]. *)
Definition variant_subclasses : list class_attrs :=
  [ MobileNetV3W050Small; MobileNetV3W075Small; MobileNetV3W100Small;
    MobileNetV3W100SmallMinimal; MobileNetV3W100Large; MobileNetV3W100LargeMinimal;
    LCNet035; LCNet050; LCNet075; LCNet100 ].

(** What [add_model_to_registry] reads of one of these classes. *)
Definition as_model_class (cls : class_attrs) : model_class :=
  {| cls_name := attr_name cls; cls_module := "kimm._src.models.mobilenet_v3";
     cls_is_base_model := true;
     cls_available_feature_keys := attr_available_feature_keys cls |}.

(** The registrations at the end of the module, in order. *)
Definition module_registrations : list (model_class * pyvalue) :=
  [ (as_model_class MobileNetV3W050Small, VStr "imagenet");
    (as_model_class MobileNetV3W075Small, VStr "imagenet");
    (as_model_class MobileNetV3W100Small, VStr "imagenet");
    (as_model_class MobileNetV3W100SmallMinimal, VStr "imagenet");
    (as_model_class MobileNetV3W100Large, VStr "imagenet");
    (as_model_class MobileNetV3W100LargeMinimal, VStr "imagenet");
    (as_model_class LCNet035, VNone);
    (as_model_class LCNet050, VStr "imagenet");
    (as_model_class LCNet075, VStr "imagenet");
    (as_model_class LCNet100, VStr "imagenet");
    (as_model_class LCNet150, VNone) ].

End Classes.

(** A batch of [add_model_to_registry] calls. *)
Definition registrations (adds : list (model_class * pyvalue)) : list registry_call :=
  map (λ add, CallAdd (fst add) (snd add)) adds.

(** The tap keys of the built-in tables, by name. *)
Definition builtin_keys : list (string * list string) :=
  [ ("small", declared_keys 6 [4; 8; 16; 16; 32; 32]);
    ("large", declared_keys 7 [2; 4; 8; 16; 16; 32; 32]);
    ("lcnet", declared_keys 6 [2; 4; 8; 16; 16; 32]) ].

(** Every row of the table that is not the first of its stage has stride 1,
    and the first rows ask for at least one repetition. *)
Definition strided_rows_lead (table : list (list BlockSpec)) : bool :=
  forallb
    (λ cfg,
       forallb
         (λ jb : nat * BlockSpec,
            if (fst jb =? 0)%nat then 1 <=? b_r (snd jb) else b_s (snd jb) =? 1)
         (enumerate cfg))
    table.

(** ** The layers of a construction, by name *)

(** The names of the layers that the iteration logged as [r] creates, in the
    order of creation: those of the builder its kind selects
    ([dsa_known]: the module knows the kind ["dsa"]), none for any other
    kind. *)
Definition record_layer_names (dsa_known : bool) (r : layer_record) : list string :=
  let name := lr_name r in
  let se := if Qltb 0 (lr_se r) then [name +:+ "_se"] else [] in
  if String.eqb (lr_type r) "ds" || (dsa_known && String.eqb (lr_type r) "dsa") then
    [name +:+ "_conv_dw"] ++ se ++ [name +:+ "_conv_pw"]
  else if String.eqb (lr_type r) "ir" then
    [name +:+ "_conv_pw"; name +:+ "_conv_dw"] ++ se ++ [name +:+ "_conv_pwl"]
  else if String.eqb (lr_type r) "cn" then [name]
  else [].

(** The endings a builder adds to the name of a block for its layers. *)
Definition layer_suffixes : list string :=
  [""; "_conv_dw"; "_se"; "_conv_pw"; "_conv_pwl"].

(** The names of the layers after the block loops: the classification head,
    or the pooling layer that was asked for. *)
Definition head_layer_names (props : base_props) : list string :=
  if include_top props then
    ["avg_pool"; "conv_head"; "act2"; "conv_head_dropout"; "classifier"]
  else if decide (pooling props = Some "avg") then ["avg_pool"]
  else if decide (pooling props = Some "max") then ["max_pool"]
  else [].

(** The graph of a loop state started from [x0]: the stem, then the layers
    of the iterations logged so far. *)
Definition graph_of (dsa_known : bool) (x0 : tensor) (st : build_state) : Prop :=
  layer_names (st_x st)
  = layer_names x0 ++ "conv_stem" :: flat_map (record_layer_names dsa_known) (st_trace st).

(** All layers a construction creates on top of the preprocessed input. *)
Definition created_layer_names (dsa_known : bool) (records : list layer_record)
    (props : base_props) : list string :=
  "conv_stem" :: flat_map (record_layer_names dsa_known) records ++ head_layer_names props.

(** No row that is followed by another row of its stage is run more than
    once. *)
Definition followed_rows_run_once (depth : Q) (table : list (list BlockSpec)) : Prop :=
  ∀ cfg j b,
    cfg ∈ table → cfg !! j = Some b → (S j < length cfg)%nat →
    effective_r depth (length table) j b ≤ 1.

(* ================================================================== *)
(** * Properties *)
(* ================================================================== *)

(** ** The fuzzy name matcher *)

Section MatchString.

(** Three successive [replace] calls drop exactly the separators. *)
Lemma replace_drop_separators (s : string) :
  PyString.replace "." "" (PyString.replace "_" "" (PyString.replace " " "" s))
  = drop_separators s.
Proof.
  induction s as [|c s IH]; [done|].
  cbn [PyString.replace drop_separators]. unfold is_separator.
  destruct (Ascii.eqb c " ") eqn:E1; cbn [orb].
  { exact IH. }
  cbn [PyString.replace].
  destruct (Ascii.eqb c "_") eqn:E2; cbn [orb].
  { exact IH. }
  cbn [PyString.replace].
  destruct (Ascii.eqb c ".") eqn:E3.
  { exact IH. }
  by rewrite IH.
Qed.

(** Once [matched] is set the inner loop breaks. *)
Lemma match_inner_matched q target m :
  match_inner q target m true = (m, true).
Proof. by destruct target as [|[idx t] rest]. Qed.

(** The inner loop finds the least position after [matched_idx] that carries
    [q_char], if there is one. *)
Lemma match_inner_spec q (t : string) (k : nat) (m : Z) :
  match match_inner q (PyString.enumerate_from k t) m false with
  | (m', true) =>
      ∃ i : nat, m' = Z.of_nat (k + i) ∧ String.get i t = Some q ∧ m < m'
        ∧ ∀ j : nat, String.get j t = Some q → m < Z.of_nat (k + j) → (i ≤ j)%nat
  | (m', false) =>
      m' = m ∧ ∀ j : nat, String.get j t = Some q → ¬ m < Z.of_nat (k + j)
  end.
Proof.
  revert k. induction t as [|a t IH]; intros k; cbn.
  { split; [done|]. intros j Hj. done. }
  destruct (Ascii.eqb q a && (m <? Z.of_nat k)) eqn:Hhit.
  - rewrite match_inner_matched.
    apply andb_true_iff in Hhit as [Hq Hlt].
    apply Ascii.eqb_eq in Hq as ->. apply Z.ltb_lt in Hlt.
    exists 0%nat. rewrite Nat.add_0_r. split_and!; [done|done|lia|intros; lia].
  - specialize (IH (S k)).
    destruct (match_inner q (PyString.enumerate_from (S k) t) m false) as [m' [|]].
    + destruct IH as (i & -> & Hget & Hlt & Hleast).
      exists (S i). split_and!; [f_equal; lia|done|lia|].
      intros [|j] Hj Hmj.
      * cbn in Hj. injection Hj as <-. rewrite Ascii.eqb_refl in Hhit.
        rewrite Nat.add_0_r in Hmj. apply Z.ltb_lt in Hmj. by rewrite Hmj in Hhit.
      * cbn in Hj. apply le_n_S, Hleast; [done|].
        by replace (S k + j)%nat with (k + S j)%nat by lia.
    + destruct IH as (-> & Hnone). split; [done|].
      intros [|j] Hj Hmj.
      * cbn in Hj. injection Hj as <-. rewrite Ascii.eqb_refl in Hhit.
        rewrite Nat.add_0_r in Hmj. apply Z.ltb_lt in Hmj. by rewrite Hmj in Hhit.
      * cbn in Hj. apply (Hnone j Hj).
        by replace (S k + j)%nat with (k + S j)%nat by lia.
Qed.

Lemma increasing_after_weaken m m' ps :
  m' ≤ m → increasing_after m ps → increasing_after m' ps.
Proof. destruct ps; cbn; [done|]. intros ? [? ?]. split; [lia|done]. Qed.

Lemma increasing_after_Sorted ps :
  increasing_after (-1) ps ↔ Sorted lt ps.
Proof.
  assert (∀ m, increasing_after m ps ↔
               Sorted lt ps ∧ match ps with [] => True | p :: _ => m < Z.of_nat p end) as H.
  { induction ps as [|p ps IH]; intros m; cbn.
    - split; [intros _; split; [constructor|done]|done].
    - rewrite IH. split.
      + intros (Hm & Hs & Hhd). split; [|done].
        constructor; [done|]. destruct ps; constructor. lia.
      + intros (Hs & Hm). apply Sorted_inv in Hs as [Hs Hhd].
        repeat split; [done|done|]. destruct ps; [done|].
        apply HdRel_inv in Hhd. lia. }
  rewrite H. split; [by intros [? _]|]. intros Hs. split; [done|].
  destruct ps; [done|lia].
Qed.

(** The outer loop succeeds exactly when positions exist. *)
Lemma match_outer_spec (query : list ascii) (t : string) (m : Z) :
  match_outer query (PyString.enumerate t) m = true ↔
  ∃ ps, Forall2 (λ c p, String.get p t = Some c) query ps ∧ increasing_after m ps.
Proof.
  revert m. induction query as [|q query IH]; intros m; cbn.
  { split; [|done]. intros _. exists []. split; [constructor|done]. }
  pose proof (match_inner_spec q t 0 m) as Hin.
  unfold PyString.enumerate.
  destruct (match_inner q (PyString.enumerate_from 0 t) m false) as [m' [|]]; cbn.
  - destruct Hin as (i & -> & Hget & Hlt & Hleast). cbn in Hlt.
    fold (PyString.enumerate t). rewrite IH. split.
    + intros (ps & HF & Hinc). exists (i :: ps). split; [by constructor|].
      cbn. split; [lia|done].
    + intros (ps & HF & Hinc).
      destruct ps as [|p ps]; [by apply Forall2_cons_nil_inv in HF|].
      apply Forall2_cons in HF as [Hp HF]. cbn in Hinc. destruct Hinc as [Hmp Hinc].
      exists ps. split; [done|].
      apply (increasing_after_weaken (Z.of_nat p)); [|done].
      specialize (Hleast p Hp). cbn in Hleast. lia.
  - destruct Hin as (_ & Hnone). split; [done|].
    intros (ps & HF & Hinc).
    destruct ps as [|p ps]; [by apply Forall2_cons_nil_inv in HF|].
    apply Forall2_cons in HF as [Hp HF]. cbn in Hinc. destruct Hinc as [Hmp _].
    by destruct (Hnone p Hp).
Qed.

Lemma separator_only_normalized query :
  separator_only query = true → normalized_query query = "".
Proof.
  unfold separator_only, normalized_query.
  induction query as [|c query IH]; cbn; [done|].
  intros [Hc Hq]%andb_true_iff. specialize (IH Hq).
  assert (is_separator (PyString.lower_ascii c) = true) as ->; [|done].
  unfold is_separator in Hc.
  apply orb_true_iff in Hc as [[Hc|Hc]%orb_true_iff|Hc];
    apply Ascii.eqb_eq in Hc as ->; reflexivity.
Qed.

Lemma match_string_iff query target :
  _match_string query target = true ↔
  ordered_subsequence (normalized_query query) (PyString.lower target).
Proof.
  unfold _match_string, ordered_subsequence, normalized_query.
  rewrite replace_drop_separators, match_outer_spec.
  by setoid_rewrite increasing_after_Sorted.
Qed.

End MatchString.

(** C3.  [_match_string(query, target)] is true exactly when the normalised
    query (lowercased, spaces, underscores and dots removed) is an ordered
    subsequence of the lowercased target, each matched position strictly
    greater than the previous one.  Hence the empty query and every query
    made of separators only match every target;
    [_match_string("mobilenetv3", "MobileNetV3W100Large")] holds and
    [_match_string("ba", "ab")] does not. *)
Theorem match_string_ordered_subsequence :
  (∀ query target,
     _match_string query target = true ↔
     ordered_subsequence (normalized_query query) (PyString.lower target))
  ∧ (∀ target, _match_string "" target = true)
  ∧ (∀ query target, separator_only query = true → _match_string query target = true)
  ∧ _match_string "mobilenetv3" "MobileNetV3W100Large" = true
  ∧ _match_string "mobile_net.v3" "MobileNetV3W100Large" = true
  ∧ _match_string "xyz" "MobileNetV3" = false
  ∧ _match_string "ba" "ab" = false.
Proof.
  split_and!; try reflexivity.
  - apply match_string_iff.
  - intros query target Hsep. apply match_string_iff.
    rewrite (separator_only_normalized _ Hsep).
    exists []. split; constructor.
Qed.

(** ** Channel rounding *)

Section MakeDivisible.

Lemma Qltb_lt (a b : Q) : Qltb a b = true ↔ (a < b)%Q.
Proof. unfold Qltb, Qlt. apply Z.ltb_lt. Qed.

Lemma Qltb_ge (a b : Q) : Qltb a b = false ↔ (b <= a)%Q.
Proof. unfold Qltb, Qle. rewrite Z.ltb_ge. done. Qed.

(** Rounding down to a multiple of a positive divisor loses less than the
    divisor. *)
Lemma round_down_multiple (f d : Z) :
  0 < d → (f / d * d) mod d = 0 ∧ f - d < f / d * d ≤ f.
Proof.
  intros Hd. split; [by apply Z.mod_mul; lia|].
  pose proof (Z.div_mod f d ltac:(lia)). pose proof (Z.mod_pos_bound f d Hd). lia.
Qed.

(** The general shape of the guarantee, for any positive divisor and any
    round limit not above one. *)
Lemma make_divisible_bounds (v : Q) (d : Z) (rl : Q) :
  (0 < v)%Q → 0 < d → (rl <= 1)%Q →
  let m := make_divisible v d None rl in
  0 < m ∧ m mod d = 0 ∧ (rl * v <= inject_Z m)%Q.
Proof.
  intros Hv Hd Hrl. unfold make_divisible. cbv zeta.
  set (f := Qfloor (v + inject_Z d / 2)).
  destruct (round_down_multiple f d Hd) as [Hmod Hnear].
  set (rounded := Z.max d (f / d * d)).
  assert (rounded mod d = 0) as Hrmod.
  { unfold rounded. destruct (Z.max_spec d (f / d * d)) as [[_ ->]|[_ ->]];
      [done|by apply Z.mod_same; lia]. }
  assert (d ≤ rounded) as Hrpos by (unfold rounded; lia).
  assert (f - d < rounded) as Hrnear by (unfold rounded; lia).
  destruct (Qltb (inject_Z rounded) (rl * v)) eqn:Hbump.
  - split_and!; [lia| |].
    + rewrite <- (Z.mul_1_l d) at 1. rewrite Z.mod_add by lia. done.
    + (* the bumped value exceeds [v] itself *)
      assert (v + inject_Z d / 2 < inject_Z (f + 1))%Q as Hfl by apply Qlt_floor.
      assert (inject_Z (f + 1) <= inject_Z (rounded + d))%Q as Hz
        by (rewrite <- Zle_Qle; lia).
      assert (0 < inject_Z d)%Q as HdQ by (rewrite (Zlt_Qlt 0 d) in Hd; exact Hd).
      assert (rl * v <= 1 * v)%Q as Hle
        by (apply Qmult_le_compat_r; [done|by apply Qlt_le_weak]).
      assert (0 < inject_Z d / 2)%Q as Hhalf.
      { apply Qlt_shift_div_l; [reflexivity|]. by rewrite Qmult_0_l. }
      clear Hbump. clearbody rounded f.
      generalize dependent (rl * v)%Q. generalize dependent (inject_Z (f + 1)).
      generalize dependent (inject_Z (rounded + d)). generalize dependent (inject_Z d).
      intros. lra.
  - split_and!; [lia|done|by apply Qltb_ge].
Qed.

End MakeDivisible.

(** C9.  For every positive [v], [make_divisible(v)] with the default divisor
    8 and round limit 0.9 is a positive multiple of 8 that is at least
    [0.9 * v]; [make_divisible(30) = 32] and [make_divisible(16 * 0.5) = 8]. *)
Theorem make_divisible_default_spec (v : Q) :
  (0 < v)%Q →
  0 < make_divisible_default v
  ∧ make_divisible_default v mod 8 = 0
  ∧ ((9 # 10) * v <= inject_Z (make_divisible_default v))%Q
  ∧ make_divisible_default 30 = 32
  ∧ make_divisible_default (16 * (1 # 2)) = 8.
Proof.
  intros Hv.
  destruct (make_divisible_bounds v 8 (9 # 10) Hv ltac:(lia) ltac:(done)) as (H1 & H2 & H3).
  by split_and!.
Qed.

Lemma make_divisible_default_spec_witness :
  0 < make_divisible_default (75 # 2)
  ∧ make_divisible_default (75 # 2) mod 8 = 0
  ∧ ((9 # 10) * (75 # 2) <= inject_Z (make_divisible_default (75 # 2)))%Q
  ∧ make_divisible_default 30 = 32
  ∧ make_divisible_default (16 * (1 # 2)) = 8.
Proof. apply (make_divisible_default_spec (75 # 2)). reflexivity. Defined.

(** ** The registry *)

Section Registry.

Implicit Types (st : py_state) (info : model_info) (registry : list model_info).

Lemma lower_idempotent (s : string) : PyString.lower (PyString.lower s) = PyString.lower s.
Proof.
  induction s as [|c s IH]; cbn; [done|]. f_equal; [|done].
  destruct c as [[] [] [] [] [] [] [] []]; reflexivity.
Qed.

(** Registration establishes the invariant. *)
Lemma registered_entry_lowercase model_cls weights :
  lowercase_weights (registered_entry model_cls weights).
Proof.
  intros t. destruct weights; cbn; try done.
  intros [= <-]. apply lower_idempotent.
Qed.

(** A call keeps the invariant, whether it returns or raises. *)
Lemma add_model_to_registry_keeps_lowercase model_cls weights st :
  Forall lowercase_weights (MODEL_REGISTRY st) →
  Forall lowercase_weights (MODEL_REGISTRY (snd (add_model_to_registry model_cls weights st))).
Proof.
  intros Hlow. unfold add_model_to_registry. cbv zeta.
  destruct (cls_is_base_model model_cls), weights; cbn [snd MODEL_REGISTRY]; try done;
    (apply Forall_app; split; [done|]); apply Forall_singleton;
    intros t; cbn; try done; intros [= <-]; apply lower_idempotent.
Qed.

(** The loop of warnings issues one warning per entry already registered
    under the name. *)
Lemma warn_duplicates_spec name registry ws :
  warn_duplicates name registry ws
  = ws ++ replicate (length (filter (λ info, info_name info = name) registry))
            (duplicate_warning name).
Proof.
  unfold warn_duplicates. revert ws.
  induction registry as [|info registry IH]; intros ws; cbn [fold_left].
  { by rewrite filter_nil, app_nil_r. }
  rewrite IH, filter_cons.
  destruct (String.eqb_spec (info_name info) name) as [Heq|Hne].
  - rewrite decide_True by done. cbn. by rewrite <- app_assoc.
  - by rewrite decide_False by done.
Qed.

(** What a call does, in one equation. *)
Lemma add_model_to_registry_unfold model_cls weights st :
  add_model_to_registry model_cls weights st =
  let st_all :=
    <[cls_module model_cls :=
        default [] (module_all st !! cls_module model_cls) ++ [cls_name model_cls]]>
      (module_all st) in
  let ws := warn_duplicates (cls_name model_cls) (MODEL_REGISTRY st) (warnings st) in
  if valid_weights weights then
    (Return tt,
     {| MODEL_REGISTRY := MODEL_REGISTRY st ++ [registered_entry model_cls weights];
        module_all := st_all; warnings := ws |})
  else
    (Raise (ValueError
       ("`weights` must be one of (None, str). Recieved: weight=" +:+ py_str weights)),
     {| MODEL_REGISTRY := MODEL_REGISTRY st; module_all := st_all; warnings := ws |}).
Proof.
  unfold add_model_to_registry, registered_entry. cbv zeta.
  destruct (module_all st !! cls_module model_cls) as [l|];
    destruct (cls_is_base_model model_cls), weights; reflexivity.
Qed.

(** The decision of one loop iteration of [list_models] is the conjunction
    of the three filters. *)
Lemma list_models_body_spec name fe weights (names : gset string) info :
  lowercase_weights info →
  list_models_body name fe weights names info =
  if keeps name fe weights info then names ∪ {[ info_name info ]}
  else (names ∪ {[ info_name info ]}) ∖ {[ info_name info ]}.
Proof.
  intros Hlow. unfold list_models_body, keeps, name_keeps, feature_extractor_keeps,
    weights_keeps, lower_ne, eq_ignoring_case. cbv zeta.
  destruct name as [name|], fe as [fe|];
    [destruct (_match_string name (info_name info))| destruct (_match_string name (info_name info))| |];
    try destruct (Bool.eqb (info_feature_extractor info) fe);
    cbn [negb andb];
    (destruct weights as [|[]|w|z]; cbn [weights_ne is_True is_False andb negb];
     destruct (info_weights info) as [t|] eqn:Ht; cbn [is_Some_b weights_ne andb negb];
     try reflexivity);
    (rewrite ?(Hlow t Ht);
     destruct (String.eqb_spec t w) as [->|Hne]; cbn [negb];
     [rewrite ?(Hlow w Ht), ?String.eqb_refl; reflexivity
     |destruct (String.eqb (PyString.lower w) t); reflexivity]).
Qed.

Lemma last_named_snoc n registry info :
  last_named n (registry ++ [info]) =
  if decide (info_name info = n) then Some info else last_named n registry.
Proof.
  unfold last_named. rewrite filter_app, filter_cons, filter_nil.
  case_decide; [by rewrite last_snoc|by rewrite app_nil_r].
Qed.

(** After the loop a name is in [result_names] exactly when the entry
    registered last under it passes the filters. *)
Lemma list_models_loop_spec name fe weights registry n :
  Forall lowercase_weights registry →
  n ∈ fold_left (list_models_body name fe weights) registry ∅ ↔
  ∃ info, last_named n registry = Some info ∧ keeps name fe weights info = true.
Proof.
  induction registry as [|info registry IH] using rev_ind; intros Hlow.
  { cbn. split; [set_solver|]. by intros (? & [=] & _). }
  apply Forall_app in Hlow as [Hlow Hinfo]. apply Forall_inv in Hinfo.
  rewrite fold_left_app. cbn [fold_left].
  rewrite list_models_body_spec by done. rewrite last_named_snoc.
  specialize (IH Hlow). case_decide as Hn.
  - subst n. destruct (keeps name fe weights info) eqn:Hk.
    + split; [intros _; eauto|set_solver].
    + split; [set_solver|]. intros (? & [= <-] & ?). congruence.
  - rewrite <- IH. destruct (keeps name fe weights info); set_solver.
Qed.

Lemma elem_of_sorted (names : gset string) n : n ∈ sorted names ↔ n ∈ names.
Proof. unfold sorted. by rewrite merge_sort_Permutation, elem_of_elements. Qed.

Lemma NoDup_sorted (names : gset string) : NoDup (sorted names).
Proof. unfold sorted. rewrite merge_sort_Permutation. apply NoDup_elements. Qed.

Lemma Sorted_sorted (names : gset string) : StronglySorted String.le (sorted names).
Proof. unfold sorted. apply StronglySorted_merge_sort; apply _. Qed.

Lemma list_models_spec name fe weights st n :
  Forall lowercase_weights (MODEL_REGISTRY st) →
  n ∈ list_models name fe weights st ↔
  ∃ info, last_named n (MODEL_REGISTRY st) = Some info ∧ keeps name fe weights info = true.
Proof.
  intros Hlow. unfold list_models. rewrite elem_of_sorted.
  by apply list_models_loop_spec.
Qed.

(** With pairwise distinct names every entry is the last of its name. *)
Lemma last_named_unique registry info :
  NoDup (info_name <$> registry) → info ∈ registry →
  last_named (info_name info) registry = Some info.
Proof.
  induction registry as [|a registry IH] using rev_ind; [by intros _ ?%elem_of_nil|].
  rewrite fmap_app, last_named_snoc. cbn.
  intros [Hnd [Hdisj _]]%NoDup_app [Hin| ->%list_elem_of_singleton]%elem_of_app.
  - case_decide as Heq; [|by apply IH].
    exfalso. apply (Hdisj (info_name info)); [by apply list_elem_of_fmap_2|].
    rewrite Heq. apply list_elem_of_singleton. done.
  - by rewrite decide_True.
Qed.

End Registry.

(** C10.  Every call of [add_model_to_registry] appends the class name to the
    [__all__] list of the class's module, creating the list when the module
    has none, and it does so before the [weights] argument is validated: a
    call whose [weights] is neither [None] nor a string raises [ValueError]
    and leaves [MODEL_REGISTRY] as it was, yet [__all__] has been
    extended. *)
Theorem add_model_extends_all_before_validation
    (model_cls : model_class) (weights : pyvalue) (st : py_state) :
  module_all (snd (add_model_to_registry model_cls weights st)) !! cls_module model_cls
  = Some (default [] (module_all st !! cls_module model_cls) ++ [cls_name model_cls])
  ∧ (valid_weights weights = false →
     (∃ msg, fst (add_model_to_registry model_cls weights st) = Raise (ValueError msg))
     ∧ MODEL_REGISTRY (snd (add_model_to_registry model_cls weights st))
       = MODEL_REGISTRY st
     ∧ module_all (snd (add_model_to_registry model_cls weights st))
       = <[cls_module model_cls :=
             default [] (module_all st !! cls_module model_cls) ++ [cls_name model_cls]]>
           (module_all st)).
Proof.
  rewrite add_model_to_registry_unfold. cbv zeta.
  destruct (valid_weights weights); cbn [fst snd module_all MODEL_REGISTRY].
  - split; [apply lookup_insert_eq|done].
  - split; [apply lookup_insert_eq|]. intros _. eauto.
Qed.

Lemma add_model_extends_all_before_validation_witness :
  (∃ msg, fst (add_model_to_registry class_Bar (VInt 7) state_Foo) = Raise (ValueError msg))
  ∧ MODEL_REGISTRY (snd (add_model_to_registry class_Bar (VInt 7) state_Foo))
    = MODEL_REGISTRY state_Foo
  ∧ module_all (snd (add_model_to_registry class_Bar (VInt 7) state_Foo))
    = <[cls_module class_Bar :=
          default [] (module_all state_Foo !! cls_module class_Bar) ++ [cls_name class_Bar]]>
        (module_all state_Foo).
Proof.
  apply (proj2 (add_model_extends_all_before_validation class_Bar (VInt 7) state_Foo)).
  reflexivity.
Defined.

(** C7 (as amended).  When the name is already registered and [weights] is
    [None] or a string, [add_model_to_registry] issues at least one warning,
    returns normally and appends the new entry, so that the registry then
    holds at least two entries of that name; whatever the filters, a
    following [list_models] returns every name at most once and in
    increasing lexicographic order. *)
Theorem duplicate_registration_warns_and_appends
    (model_cls : model_class) (weights : pyvalue) (st : py_state) :
  valid_weights weights = true →
  cls_name model_cls ∈ info_name <$> MODEL_REGISTRY st →
  let st' := snd (add_model_to_registry model_cls weights st) in
  fst (add_model_to_registry model_cls weights st) = Return tt
  ∧ (∃ k, (0 < k)%nat
       ∧ warnings st' = warnings st ++ replicate k (duplicate_warning (cls_name model_cls)))
  ∧ MODEL_REGISTRY st' = MODEL_REGISTRY st ++ [registered_entry model_cls weights]
  ∧ (2 ≤ length (filter (λ info, info_name info = cls_name model_cls) (MODEL_REGISTRY st')))%nat
  ∧ ∀ name feature_extractor weights',
      NoDup (list_models name feature_extractor weights' st')
      ∧ StronglySorted String.le (list_models name feature_extractor weights' st').
Proof.
  intros Hvalid Hdup. rewrite add_model_to_registry_unfold. cbv zeta.
  rewrite Hvalid. cbn [fst snd warnings MODEL_REGISTRY].
  assert (0 < length (filter (λ info, info_name info = cls_name model_cls)
                        (MODEL_REGISTRY st)))%nat as Hpos.
  { apply list_elem_of_fmap in Hdup as (info & Hname & Hin).
    assert (info ∈ filter (λ info, info_name info = cls_name model_cls) (MODEL_REGISTRY st))
      as Hf by (apply list_elem_of_filter; done).
    destruct (filter _ (MODEL_REGISTRY st)); [by apply elem_of_nil in Hf|cbn; lia]. }
  split_and!.
  - done.
  - eexists. split; [exact Hpos|]. apply warn_duplicates_spec.
  - done.
  - rewrite filter_app, length_app, filter_cons, decide_True by done. cbn. lia.
  - intros name fe weights'. split; [apply NoDup_sorted|apply Sorted_sorted].
Qed.

Lemma duplicate_registration_warns_and_appends_witness :
  let st' := snd (add_model_to_registry class_Foo VNone state_Foo) in
  fst (add_model_to_registry class_Foo VNone state_Foo) = Return tt
  ∧ (∃ k, (0 < k)%nat
       ∧ warnings st' = warnings state_Foo ++ replicate k (duplicate_warning (cls_name class_Foo)))
  ∧ MODEL_REGISTRY st' = MODEL_REGISTRY state_Foo ++ [registered_entry class_Foo VNone]
  ∧ (2 ≤ length (filter (λ info, info_name info = cls_name class_Foo) (MODEL_REGISTRY st')))%nat
  ∧ ∀ name feature_extractor weights',
      NoDup (list_models name feature_extractor weights' st')
      ∧ StronglySorted String.le (list_models name feature_extractor weights' st').
Proof.
  apply (duplicate_registration_warns_and_appends class_Foo VNone state_Foo).
  - reflexivity.
  - vm_compute. apply list_elem_of_here.
Defined.

(** C7, the input on which the claim as first stated fails: [Foo] is already
    registered and is registered again with [weights=7]; the warning is
    issued, but the call raises and nothing is appended. *)
Lemma duplicate_registration_bad_weights_raises :
  fst (add_model_to_registry class_Foo (VInt 7) state_Foo)
  = Raise (ValueError "`weights` must be one of (None, str). Recieved: weight=7")
  ∧ MODEL_REGISTRY (snd (add_model_to_registry class_Foo (VInt 7) state_Foo))
    = MODEL_REGISTRY state_Foo
  ∧ warnings (snd (add_model_to_registry class_Foo (VInt 7) state_Foo))
    = ["MODEL_REGISTRY already contains name=Foo!"].
Proof. vm_compute. done. Qed.

(** C4 (as amended).  On a registry whose weight tags are [None] or lowercase
    strings, [list_models] returns a name exactly when the entry registered
    last under that name passes the filters, where [weights=True] asks for a
    non-null tag, [weights=False] for a null tag and a string for a tag equal
    to it up to case.  When the registered names are pairwise distinct this
    keeps exactly the entries that satisfy the filter. *)
Theorem list_models_weights_filter
    (name : option string) (feature_extractor : option bool) (weights : pyvalue)
    (st : py_state) :
  Forall lowercase_weights (MODEL_REGISTRY st) →
  (∀ n,
     n ∈ list_models name feature_extractor weights st ↔
     ∃ info, last_named n (MODEL_REGISTRY st) = Some info
             ∧ keeps name feature_extractor weights info = true)
  ∧ (NoDup (info_name <$> MODEL_REGISTRY st) →
     ∀ info, info ∈ MODEL_REGISTRY st →
       (info_name info ∈ list_models name feature_extractor weights st ↔
        keeps name feature_extractor weights info = true)).
Proof.
  intros Hlow. split.
  - intros n. by apply list_models_spec.
  - intros Hnd info Hin. rewrite list_models_spec by done.
    rewrite (last_named_unique _ _ Hnd Hin). split.
    + by intros (? & [= <-] & ?).
    + eauto.
Qed.

Lemma list_models_weights_filter_witness :
  (∀ n,
     n ∈ list_models None None (VStr "ImageNet") state_Foo ↔
     ∃ info, last_named n (MODEL_REGISTRY state_Foo) = Some info
             ∧ keeps None None (VStr "ImageNet") info = true)
  ∧ (NoDup (info_name <$> MODEL_REGISTRY state_Foo) →
     ∀ info, info ∈ MODEL_REGISTRY state_Foo →
       (info_name info ∈ list_models None None (VStr "ImageNet") state_Foo ↔
        keeps None None (VStr "ImageNet") info = true)).
Proof.
  apply (list_models_weights_filter None None (VStr "ImageNet") state_Foo).
  vm_compute. constructor; [|constructor].
  intros t [= <-]. reflexivity.
Defined.

(** C4, the input on which the claim as first stated fails: [Foo] is
    registered with ["imagenet"] and then again without weights.  The first
    entry has a non-null lowercase tag, yet [list_models(weights=True)]
    returns nothing, and [list_models(weights=False)] returns [Foo]. *)
Lemma list_models_duplicate_name_drops_entry :
  Forall lowercase_weights (MODEL_REGISTRY state_Foo_twice)
  ∧ MODEL_REGISTRY state_Foo_twice
    = [ registered_entry class_Foo (VStr "imagenet"); registered_entry class_Foo VNone ]
  ∧ weights_keeps (VBool true) (registered_entry class_Foo (VStr "imagenet")) = true
  ∧ list_models None None (VBool true) state_Foo_twice = []
  ∧ list_models None None (VBool false) state_Foo_twice = ["Foo"].
Proof.
  split_and!; try (vm_compute; reflexivity).
  vm_compute. repeat constructor; intros t [= <-]; reflexivity.
Qed.

(** ** The block builders *)

Section BlockBuilders.

Context (inputs : tensor) (filters : Z).
Context (depthwise_kernel_size expansion_kernel_size pointwise_kernel_size strides : Z).
Context (expansion_ratio se_ratio : Q) (activation : string).
Context (se_channels se_make_divisible_number : option Z).
Context (se_activation se_gate_activation pw_activation : option string).
Context (bn_epsilon : Q) (padding : option string) (name : string).

(** The depthwise-separable block with the caller's [has_skip], and the
    inverted-residual block, at the arguments above. *)
Local Abbreviation depthwise has_skip :=
  (apply_depthwise_separation_block inputs filters depthwise_kernel_size
     pointwise_kernel_size strides se_ratio (Some activation) se_activation
     se_gate_activation se_make_divisible_number pw_activation has_skip bn_epsilon
     padding name).

Local Abbreviation inverted :=
  (apply_inverted_residual_block inputs filters depthwise_kernel_size
     expansion_kernel_size pointwise_kernel_size strides expansion_ratio se_ratio
     activation se_channels se_activation se_gate_activation se_make_divisible_number
     bn_epsilon padding name).

Lemma depthwise_has_skip_raises :
  strides ≠ 1 ∨ channels inputs ≠ filters →
  ∃ msg, depthwise true = Raise (ValueError msg).
Proof.
  intros Hbad. unfold apply_depthwise_separation_block. cbv zeta.
  assert (negb (strides =? 1) || negb (channels inputs =? filters) = true) as ->.
  { destruct Hbad as [H|H]; apply Z.eqb_neq in H; rewrite H; cbn;
      [done|by rewrite orb_true_r]. }
  cbn [andb]. eauto.
Qed.

Lemma depthwise_has_skip_returns y :
  depthwise true = Return y →
  adds_input inputs y ∧ channels inputs = filters ∧ strides = 1.
Proof.
  unfold apply_depthwise_separation_block. cbv zeta. cbn [andb].
  destruct (strides =? 1) eqn:Hs; cbn [negb orb]; [|done].
  destruct (channels inputs =? filters) eqn:Hc; cbn [negb]; [|done].
  intros [= <-]. apply Z.eqb_eq in Hs, Hc. split; [|done]. eexists. reflexivity.
Qed.

Lemma depthwise_no_skip_returns :
  ∃ y, depthwise false = Return y ∧ ¬ adds_input inputs y.
Proof.
  unfold apply_depthwise_separation_block. cbv zeta. cbn [andb].
  eexists. split; [reflexivity|]. by intros [body Hbody].
Qed.

Lemma inverted_returns :
  ∃ y, inverted = Return y
       ∧ (adds_input inputs y ↔ channels inputs = filters ∧ strides = 1).
Proof.
  unfold apply_inverted_residual_block. cbv zeta.
  eexists. split; [reflexivity|].
  destruct (strides =? 1) eqn:Hs; cbn [andb].
  - destruct (channels inputs =? filters) eqn:Hc.
    + apply Z.eqb_eq in Hs, Hc. split; [done|]. intros _. eexists. reflexivity.
    + apply Z.eqb_neq in Hc. split; [by intros [body Hbody]|]. by intros [? _].
  - apply Z.eqb_neq in Hs. split; [by intros [body Hbody]|]. by intros [_ ?].
Qed.

(** C8.  A call of the depthwise-separable builder with [has_skip=True]
    raises [ValueError] whenever the stride is not 1 or the input channel
    count differs from [filters]; when it returns, the input has been added
    to the output and the channel counts agree and the stride is 1.  The
    inverted-residual builder decides by itself: it never raises and adds
    its input exactly when the channel counts agree and the stride is 1.
    With [has_skip=False] the depthwise-separable builder never adds. *)
Theorem skip_connection_contract :
  (strides ≠ 1 ∨ channels inputs ≠ filters →
   ∃ msg, depthwise true = Raise (ValueError msg))
  ∧ (∀ y, depthwise true = Return y →
          (adds_input inputs y ↔ channels inputs = filters ∧ strides = 1))
  ∧ (∃ y, inverted = Return y
          ∧ (adds_input inputs y ↔ channels inputs = filters ∧ strides = 1))
  ∧ (∃ y, depthwise false = Return y ∧ ¬ adds_input inputs y).
Proof.
  split_and!.
  - apply depthwise_has_skip_raises.
  - intros y Hy. apply depthwise_has_skip_returns in Hy as (? & ? & ?). done.
  - apply inverted_returns.
  - apply depthwise_no_skip_returns.
Qed.

End BlockBuilders.

Lemma skip_connection_contract_witness :
  ∃ msg,
    apply_depthwise_separation_block (Input 16) 16 3 1 2 0 (Some "relu") (Some "relu")
      (Some "hard_sigmoid") (Some 8) None true (1 # 100000) None "blocks_0_0"
    = Raise (ValueError msg).
Proof.
  apply (proj1 (skip_connection_contract (Input 16) 16 3 1 1 2 1 0 "relu" None (Some 8)
                  (Some "relu") (Some "hard_sigmoid") None (1 # 100000) None "blocks_0_0")).
  left. done.
Defined.

(** ** The compiler: the block loops *)

Section BlockLoops.

Context (width depth : Q).
Context (force_activation : option string) (force_kernel_size : option Z) (no_se : bool).
Context (bn_epsilon : Q) (padding : option string) (len_config : nat).

Implicit Types (st : build_state) (b : BlockSpec) (records : list layer_record).

Lemma strides_product_app records1 records2 :
  strides_product (records1 ++ records2)
  = strides_product records1 * strides_product records2.
Proof.
  unfold strides_product. induction records1 as [|r records1 IH]; cbn.
  - by destruct (foldr Z.mul 1 (lr_s <$> records2)).
  - rewrite IH. lia.
Qed.

Lemma extends_nil st : extends st st [].
Proof. unfold extends. rewrite app_nil_r. cbn. split_and!; [done|lia|done]. Qed.

Lemma extends_app st1 st2 st3 news1 news2 :
  extends st1 st2 news1 → extends st2 st3 news2 → extends st1 st3 (news1 ++ news2).
Proof.
  intros (Ht1 & Hs1 & Hf1) (Ht2 & Hs2 & Hf2). unfold extends.
  rewrite Ht2, Ht1, Hs2, Hs1, Hf2, Hf1, strides_product_app, app_assoc.
  split_and!; [done|lia|done].
Qed.

(** The guard of the depthwise-separable builder never fires on the
    [has_skip] the compiler computes. *)
Lemma computed_has_skip_passes (x : tensor) (c s : Z) :
  (channels x =? c) && (s =? 1) && (negb (s =? 1) || negb (channels x =? c)) = false.
Proof. by destruct (channels x =? c), (s =? 1). Qed.

(** One iteration never raises; it logs itself and multiplies the running
    stride by the stride it applied. *)
Lemma layer_step_returns stage block block_type c k e se act layer st s :
  ∃ x',
    layer_step bn_epsilon padding stage block block_type c k e se act layer (st, s)
    = Return
        ({| st_x := x';
            st_current_stride := st_current_stride st * (if (layer =? 0)%nat then s else 1);
            st_features := st_features st;
            st_trace :=
              st_trace st ++
                [ {| lr_stage := stage; lr_block := block; lr_layer := layer;
                     lr_type := block_type; lr_c := c; lr_k := k;
                     lr_s := if (layer =? 0)%nat then s else 1;
                     lr_e := e; lr_se := se; lr_act := act;
                     lr_name := block_name stage block layer |} ] |},
         if (layer =? 0)%nat then s else 1)
    ∧ (recognized block_type = false → x' = st_x st).
Proof.
  unfold layer_step, recognized. cbv zeta.
  set (s' := if (layer =? 0)%nat then s else 1).
  destruct (String.eqb block_type "ds") eqn:Hds; cbn [orb].
  { unfold apply_depthwise_separation_block. cbv zeta.
    destruct (String.eqb block_type "dsa") eqn:Hdsa.
    - cbn [andb]. eexists. split; [reflexivity|done].
    - rewrite computed_has_skip_passes. eexists. split; [reflexivity|done]. }
  destruct (String.eqb block_type "dsa") eqn:Hdsa; cbn [orb].
  { unfold apply_depthwise_separation_block. cbv zeta. cbn [andb].
    eexists. split; [reflexivity|done]. }
  destruct (String.eqb block_type "ir") eqn:Hir; cbn [orb].
  { unfold apply_inverted_residual_block. cbv zeta.
    eexists. split; [reflexivity|done]. }
  destruct (String.eqb block_type "cn") eqn:Hcn.
  { eexists. split; [reflexivity|done]. }
  eexists. split; [reflexivity|done].
Qed.

(** The repetitions [a, a + n) of one row. *)
Lemma layers_return stage block block_type c k e se act (n a : nat) st s :
  ∃ st' s',
    for_each (layer_step bn_epsilon padding stage block block_type c k e se act)
      (seq a n) (st, s)
    = Return (st', s')
    ∧ extends st st'
        (map (λ layer,
                {| lr_stage := stage; lr_block := block; lr_layer := layer;
                   lr_type := block_type; lr_c := c; lr_k := k;
                   lr_s := if (layer =? 0)%nat then s else 1;
                   lr_e := e; lr_se := se; lr_act := act;
                   lr_name := block_name stage block layer |})
           (seq a n)).
Proof.
  revert a st s. induction n as [|n IH]; intros a st s; cbn [seq for_each map].
  { exists st, s. split; [done|apply extends_nil]. }
  destruct (layer_step_returns stage block block_type c k e se act a st s)
    as (x' & -> & _).
  cbn [mbind outcome_bind].
  match goal with |- context [for_each _ _ (?st1, ?s1)] =>
    set (st_mid := st1); destruct (IH (S a) st_mid s1) as (st' & s' & -> & Hext) end.
  exists st', s'. split; [done|].
  eapply (extends_app st st_mid st' [_]); [|].
  - unfold extends. cbn [st_trace st_current_stride st_features].
    split_and!; [reflexivity| |reflexivity].
    unfold strides_product. cbn. lia.
  - erewrite map_ext_in; [exact Hext|].
    intros layer Hin%in_seq. cbn beta.
    destruct layer as [|layer]; [lia|]. reflexivity.
Qed.

(** One row of a stage. *)
Lemma block_step_returns stage (indexed : nat * BlockSpec) st :
  ∃ st',
    block_step width depth force_activation force_kernel_size no_se bn_epsilon padding
      len_config stage indexed st
    = Return st'
    ∧ extends st st'
        (block_records width depth force_activation force_kernel_size no_se len_config
           stage indexed).
Proof.
  destruct indexed as [block b]. unfold block_step. cbv zeta. cbn [fst snd].
  match goal with |- context [for_each ?f (seq 0 ?n) (st, ?s)] =>
    destruct (layers_return stage block (b_type b)
                (effective_c width b) (effective_k force_kernel_size b) (b_e b)
                (effective_se no_se b) (effective_act force_activation b) n 0 st s)
      as (st' & s' & Hrun & Hext) end.
  unfold effective_c, effective_k, effective_se, effective_act in Hrun.
  rewrite Hrun. cbn [mbind outcome_bind fst].
  exists st'. split; [done|]. exact Hext.
Qed.

(** The rows of a stage, from any starting index. *)
Lemma blocks_return stage (cfg : list BlockSpec) (j : nat) st :
  ∃ st',
    for_each
      (block_step width depth force_activation force_kernel_size no_se bn_epsilon
         padding len_config stage)
      (enumerate_from j cfg) st
    = Return st'
    ∧ extends st st'
        (flat_map
           (block_records width depth force_activation force_kernel_size no_se
              len_config stage)
           (enumerate_from j cfg)).
Proof.
  revert j st. induction cfg as [|b cfg IH]; intros j st; cbn [enumerate_from for_each flat_map].
  { exists st. split; [done|apply extends_nil]. }
  destruct (block_step_returns stage (j, b) st) as (st1 & -> & Hext1).
  cbn [mbind outcome_bind].
  destruct (IH (S j) st1) as (st' & -> & Hext2).
  exists st'. split; [done|]. by eapply extends_app.
Qed.

End BlockLoops.

(** ** Feature-tap keys *)

Section TapKeys.

Lemma append_cons (c : ascii) (s t : string) : String c s +:+ t = String c (s +:+ t).
Proof. reflexivity. Qed.

Lemma append_nil (t : string) : "" +:+ t = t.
Proof. reflexivity. Qed.

(** Decimal numerals contain no underscore. *)
Lemma pretty_N_go_no_underscore (x : N) (s : string) :
  "_"%char ∉ PyString.chars s → "_"%char ∉ PyString.chars (pretty_N_go x s).
Proof.
  revert s. induction (N.lt_wf_0 x) as [x _ IH]; intros s Hs.
  destruct (decide (x = 0)%N) as [->|Hx]; [by rewrite pretty_N_go_0|].
  rewrite pretty_N_go_step by lia. apply IH; [apply N.div_lt; lia|].
  cbn [PyString.chars]. rewrite not_elem_of_cons. split; [|done].
  unfold pretty_N_char. by repeat case_match.
Qed.

Lemma pretty_nat_no_underscore (n : nat) : "_"%char ∉ PyString.chars (pretty n).
Proof.
  unfold pretty, pretty_nat, pretty, pretty_N. case_decide.
  - cbn. rewrite not_elem_of_cons. split; [done|apply not_elem_of_nil].
  - apply pretty_N_go_no_underscore. cbn. apply not_elem_of_nil.
Qed.

(** A string splits in one way only at its first underscore. *)
Lemma split_at_underscore (u v a b : string) :
  "_"%char ∉ PyString.chars u → "_"%char ∉ PyString.chars v →
  u +:+ String "_" a = v +:+ String "_" b → u = v.
Proof.
  revert v. induction u as [|c u IH]; intros [|d v] Hu Hv; cbn [PyString.chars] in *;
    rewrite ?append_cons, ?append_nil.
  - done.
  - intros [= <- _]. apply not_elem_of_cons in Hv as [? _]. done.
  - intros [= -> _]. apply not_elem_of_cons in Hu as [? _]. done.
  - apply not_elem_of_cons in Hu as [_ Hu]. apply not_elem_of_cons in Hv as [_ Hv].
    intros [= -> Heq]. f_equal. by apply IH.
Qed.

Lemma tap_key_stage_inj (i j : nat) (z z' : Z) : tap_key i z = tap_key j z' → i = j.
Proof.
  unfold tap_key. intros Heq. apply (inj (String.app "BLOCK")) in Heq.
  apply (inj pretty).
  eapply split_at_underscore; [apply pretty_nat_no_underscore..|exact Heq].
Qed.

Lemma tap_key_not_stem (i : nat) (z : Z) : tap_key i z ≠ "STEM_S2".
Proof. unfold tap_key. rewrite !append_cons. discriminate. Qed.

Lemma keys_dict_set {V} (k : string) (v : V) (d : list (string * V)) :
  k ∉ keys d → keys (dict_set k v d) = keys d ++ [k].
Proof.
  unfold keys. induction d as [|[k' v'] d IH]; cbn; [done|].
  intros [Hne Hnin]%not_elem_of_cons.
  destruct (String.eqb_spec k' k) as [->|_]; [done|]. cbn. f_equal. by apply IH.
Qed.

Lemma stride_after_app_later (j : nat) (records news : list layer_record) :
  Forall (λ r, (j < lr_stage r)%nat) news →
  stride_after j (records ++ news) = stride_after j records.
Proof.
  intros Hlater. unfold stride_after. rewrite filter_app.
  replace (filter (λ r, (lr_stage r ≤ j)%nat) news) with (@nil layer_record);
    [by rewrite app_nil_r|].
  symmetry. induction Hlater as [|r news Hr _ IH]; [done|].
  rewrite filter_cons, decide_False by lia. done.
Qed.

Lemma stride_after_all (j : nat) (records : list layer_record) :
  Forall (λ r, (lr_stage r ≤ j)%nat) records →
  stride_after j records = 2 * strides_product records.
Proof.
  intros Hall. unfold stride_after. f_equal. f_equal.
  induction Hall as [|r records Hr _ IH]; [done|].
  rewrite filter_cons, decide_True by done. by f_equal.
Qed.

End TapKeys.

(** ** The compiler: the stage loop *)

Section StageLoop.

Context (width depth : Q).
Context (force_activation : option string) (force_kernel_size : option Z) (no_se : bool).
Context (bn_epsilon : Q) (padding : option string) (len_config : nat).

Local Abbreviation stage_records' :=
  (stage_records width depth force_activation force_kernel_size no_se len_config).
Local Abbreviation block_records' :=
  (block_records width depth force_activation force_kernel_size no_se len_config).
Local Abbreviation record_of' :=
  (record_of width force_activation force_kernel_size no_se).
Local Abbreviation effective_r' := (effective_r depth len_config).

Lemma elem_of_enumerate_from {A} (l : list A) (k i : nat) (a : A) :
  (i, a) ∈ enumerate_from k l ↔ ∃ j, i = (k + j)%nat ∧ l !! j = Some a.
Proof.
  revert k. induction l as [|x l IH]; intros k; cbn [enumerate_from].
  { rewrite elem_of_nil. split; [done|]. by intros (j & _ & ?). }
  rewrite elem_of_cons, IH. split.
  - intros [[= -> ->]|(j & -> & Hj)].
    + exists 0%nat. split; [lia|done].
    + exists (S j). split; [lia|done].
  - intros ([|j] & -> & Hj).
    + left. cbn in Hj. injection Hj as ->. f_equal. lia.
    + right. exists j. split; [lia|done].
Qed.

Lemma elem_of_enumerate {A} (l : list A) (i : nat) (a : A) :
  (i, a) ∈ enumerate l ↔ l !! i = Some a.
Proof.
  unfold enumerate. rewrite elem_of_enumerate_from. split.
  - by intros (j & -> & Hj).
  - intros Hi. by exists i.
Qed.

(** The iterations logged for a stage are those of its rows. *)
Lemma elem_of_stage_records (i : nat) (cfg : list BlockSpec) (r : layer_record) :
  r ∈ stage_records' (i, cfg) ↔
  ∃ j b layer, cfg !! j = Some b ∧ (layer < Z.to_nat (effective_r' j b))%nat
               ∧ r = record_of' i j b layer.
Proof.
  unfold stage_records, block_records. cbn [fst snd].
  rewrite list_elem_of_In, in_flat_map. split.
  - intros ([j b] & Hjb & Hr). cbn [fst snd] in Hr.
    apply list_elem_of_In, elem_of_enumerate in Hjb.
    apply in_map_iff in Hr as (layer & <- & Hlayer%in_seq).
    exists j, b, layer. split_and!; [done|lia|done].
  - intros (j & b & layer & Hb & Hlayer & ->).
    exists (j, b). split.
    + by apply list_elem_of_In, elem_of_enumerate.
    + cbn [fst snd]. apply in_map_iff. exists layer. split; [done|]. apply in_seq. lia.
Qed.

Lemma elem_of_table_records (table : list (list BlockSpec)) (r : layer_record) :
  r ∈ table_records width depth force_activation force_kernel_size no_se len_config table ↔
  ∃ i cfg j b layer,
    table !! i = Some cfg ∧ cfg !! j = Some b
    ∧ (layer < Z.to_nat (effective_r' j b))%nat ∧ r = record_of' i j b layer.
Proof.
  unfold table_records. rewrite list_elem_of_In, in_flat_map. split.
  - intros ([i cfg] & Hicfg & Hr).
    apply list_elem_of_In, elem_of_enumerate in Hicfg.
    apply list_elem_of_In, elem_of_stage_records in Hr as (j & b & layer & ? & ? & ?).
    exists i, cfg, j, b, layer. done.
  - intros (i & cfg & j & b & layer & Hcfg & Hb & Hlayer & Hr).
    exists (i, cfg). split.
    + by apply list_elem_of_In, elem_of_enumerate.
    + apply list_elem_of_In, elem_of_stage_records. exists j, b, layer. done.
Qed.

Lemma stage_records_stage (i : nat) (cfg : list BlockSpec) :
  Forall (λ r, lr_stage r = i) (stage_records' (i, cfg)).
Proof.
  apply Forall_forall. intros r (j & b & layer & _ & _ & ->)%elem_of_stage_records.
  reflexivity.
Qed.

(** One stage: the rows run, then the tap is recorded under a fresh key. *)
Lemma stage_step_returns (i : nat) (cfg : list BlockSpec) (st : build_state) :
  stage_invariant i st →
  ∃ st',
    stage_step width depth force_activation force_kernel_size no_se bn_epsilon padding
      len_config (i, cfg) st
    = Return st'
    ∧ stage_invariant (S i) st'
    ∧ st_trace st' = st_trace st ++ stage_records' (i, cfg).
Proof.
  intros (Hearlier & Hstride & Hkeys). unfold stage_step, enumerate.
  destruct (blocks_return width depth force_activation force_kernel_size no_se
              bn_epsilon padding len_config i cfg 0 st) as (st1 & -> & Htr & Hs & Hf).
  cbn [mbind outcome_bind]. eexists. split; [reflexivity|].
  fold (enumerate cfg) in Htr, Hs.
  change (flat_map _ (enumerate cfg)) with (stage_records' (i, cfg)) in Htr, Hs.
  pose proof (stage_records_stage i cfg) as Hnew.
  assert (Forall (λ r, (lr_stage r ≤ i)%nat) (st_trace st1)) as Hupto.
  { rewrite Htr. apply Forall_app. split.
    - eapply Forall_impl; [exact Hearlier|]. cbn. lia.
    - eapply Forall_impl; [exact Hnew|]. cbn. lia. }
  assert (st_current_stride st1 = 2 * strides_product (st_trace st1)) as Hstride1.
  { rewrite Hs, Hstride, Htr, strides_product_app. lia. }
  split; [|exact Htr].
  unfold stage_invariant. cbn [st_trace st_current_stride st_features].
  split_and!.
  - eapply Forall_impl; [exact Hupto|]. cbn. lia.
  - exact Hstride1.
  - rewrite Hf. rewrite keys_dict_set.
    + rewrite Hkeys, seq_S, map_app. cbn [map app Nat.add].
      f_equal. f_equal.
      * apply map_ext_in. intros j Hj%in_seq. f_equal.
        rewrite Htr. symmetry. apply stride_after_app_later.
        eapply Forall_impl; [exact Hnew|]. cbn. lia.
      * f_equal. fold (tap_key i (st_current_stride st1)). f_equal.
        rewrite Hstride1. symmetry. by apply stride_after_all.
    + rewrite Hkeys. fold (tap_key i (st_current_stride st1)).
      rewrite not_elem_of_cons. split; [apply tap_key_not_stem|].
      rewrite list_elem_of_In, in_map_iff. intros (j & Heq & Hj%in_seq).
      apply tap_key_stage_inj in Heq. lia.
Qed.

(** The stages from index [i] on. *)
Lemma stages_return (cfgs : list (list BlockSpec)) (i : nat) (st : build_state) :
  stage_invariant i st →
  ∃ st',
    for_each
      (stage_step width depth force_activation force_kernel_size no_se bn_epsilon
         padding len_config)
      (enumerate_from i cfgs) st
    = Return st'
    ∧ stage_invariant (i + length cfgs) st'
    ∧ st_trace st' = st_trace st ++ flat_map stage_records' (enumerate_from i cfgs).
Proof.
  revert i st. induction cfgs as [|cfg cfgs IH]; intros i st Hinv;
    cbn [enumerate_from for_each flat_map length].
  { exists st. rewrite Nat.add_0_r, app_nil_r. done. }
  destruct (stage_step_returns i cfg st Hinv) as (st1 & -> & Hinv1 & Htr1).
  cbn [mbind outcome_bind].
  destruct (IH (S i) st1 Hinv1) as (st' & -> & Hinv' & Htr').
  exists st'. split; [done|]. split.
  - by replace (i + S (length cfgs))%nat with (S i + length cfgs)%nat by lia.
  - by rewrite Htr', Htr1, <- app_assoc.
Qed.

End StageLoop.

(** The stem and the block loops never raise; the log is the closed-form
    expansion of the table and the taps are keyed by the running stride. *)
Lemma build_blocks_returns (width depth : Q) (fix_stem_and_head_channels : bool)
    (_config : list (list BlockSpec)) (force_activation : option string)
    (force_kernel_size : option Z) (no_se : bool) (bn_epsilon : Q)
    (padding : option string) (x : tensor) :
  ∃ st,
    build_blocks width depth fix_stem_and_head_channels _config force_activation
      force_kernel_size no_se bn_epsilon padding x
    = Return st
    ∧ st_trace st
      = table_records width depth force_activation force_kernel_size no_se
          (length _config) _config
    ∧ st_current_stride st = 2 * strides_product (st_trace st)
    ∧ keys (st_features st)
      = "STEM_S2"
        :: map (λ j, tap_key j (stride_after j (st_trace st))) (seq 0 (length _config)).
Proof.
  unfold build_blocks. cbv zeta. unfold enumerate.
  match goal with |- context [for_each _ _ ?st0] =>
    destruct (stages_return width depth force_activation force_kernel_size no_se
                bn_epsilon padding (length _config) _config 0 st0)
      as (st & Hrun & (_ & Hstride & Hkeys) & Htr) end.
  { unfold stage_invariant. cbn. split_and!; [constructor|done|done]. }
  exists st. split; [exact Hrun|]. split_and!; [exact Htr|exact Hstride|exact Hkeys].
Qed.

(** ** The compiler: the claims *)

(** C5.  The compiler records the tap ["STEM_S2"] after the stem and, after
    each stage, the tap ["BLOCK{stage_idx}_S{cumulative_stride}"], where the
    cumulative stride is 2 times every stride applied so far, in this stage
    and in all earlier ones (it is never reset); the stride applied by an
    iteration is its row's stride at repetition 0 and 1 at every later
    repetition.  For stages with strides [2,1] and [2,1,1] the keys are
    STEM_S2, BLOCK0_S4, BLOCK1_S8; for the built-in tables they are the keys
    the variant classes declare. *)
Theorem feature_tap_keys (width depth : Q) (fix_stem_and_head_channels : bool)
    (_config : list (list BlockSpec)) (force_activation : option string)
    (force_kernel_size : option Z) (no_se : bool) (bn_epsilon : Q)
    (padding : option string) (x : tensor) :
  (∃ st,
     build_blocks width depth fix_stem_and_head_channels _config force_activation
       force_kernel_size no_se bn_epsilon padding x
     = Return st
     ∧ keys (st_features st)
       = "STEM_S2"
         :: map (λ j, "BLOCK" +:+ pretty j +:+ "_S" +:+ pretty (stride_after j (st_trace st)))
              (seq 0 (length _config))
     ∧ st_current_stride st = 2 * strides_product (st_trace st)
     ∧ Forall (applied_stride_ok _config) (st_trace st))
  ∧ state_keys_of
      (build_blocks 1 1 false strides_by_row None None false (1 # 100000) None (Input 3))
    = ["STEM_S2"; "BLOCK0_S4"; "BLOCK1_S8"]
  ∧ state_keys_of
      (build_blocks 1 1 false strides_by_repetition None None false (1 # 100000) None
         (Input 3))
    = ["STEM_S2"; "BLOCK0_S4"; "BLOCK1_S8"]
  ∧ feature_keys_of
      (MobileNetV3_init 1 1 false "small" false (1 # 100000) None with_head (Input 3))
    = ["STEM_S2"; "BLOCK0_S4"; "BLOCK1_S8"; "BLOCK2_S16"; "BLOCK3_S16"; "BLOCK4_S32";
       "BLOCK5_S32"]
  ∧ feature_keys_of
      (MobileNetV3_init 1 1 false "large" false (1 # 100000) None with_head (Input 3))
    = ["STEM_S2"; "BLOCK0_S2"; "BLOCK1_S4"; "BLOCK2_S8"; "BLOCK3_S16"; "BLOCK4_S16";
       "BLOCK5_S32"; "BLOCK6_S32"]
  ∧ feature_keys_of
      (MobileNetV3_init 1 1 false "lcnet" false (1 # 100000) None with_head (Input 3))
    = ["STEM_S2"; "BLOCK0_S2"; "BLOCK1_S4"; "BLOCK2_S8"; "BLOCK3_S16"; "BLOCK4_S16";
       "BLOCK5_S32"].
Proof.
  split; [|split_and!; vm_compute; reflexivity].
  destruct (build_blocks_returns width depth fix_stem_and_head_channels _config
              force_activation force_kernel_size no_se bn_epsilon padding x)
    as (st & Hrun & Htr & Hstride & Hkeys).
  exists st. split_and!; [exact Hrun|exact Hkeys|exact Hstride|].
  rewrite Htr. apply Forall_forall. intros r Hr.
  apply elem_of_table_records in Hr as (i & cfg & j & b & layer & Hcfg & Hb & _ & ->).
  exists b. unfold row_of. cbn [record_of lr_stage lr_block lr_layer lr_s].
  rewrite Hcfg. done.
Qed.

(** The built-in names and their tables. *)
Lemma select_config_spec (config : string) :
  match select_config config with
  | Return (_config, _) => (config, _config) ∈ builtin_configs
  | Raise _ => config ∉ ["small"; "large"; "lcnet"]
  end.
Proof.
  unfold select_config, builtin_configs.
  destruct (String.eqb_spec config "small") as [->|Hs]; [apply list_elem_of_here|].
  destruct (String.eqb_spec config "large") as [->|Hl];
    [apply list_elem_of_further, list_elem_of_here|].
  destruct (String.eqb_spec config "lcnet") as [->|Hc];
    [do 2 apply list_elem_of_further; apply list_elem_of_here|].
  intros Hin. repeat (apply elem_of_cons in Hin as [->|Hin]; [done|]).
  by apply elem_of_nil in Hin.
Qed.

(** A construction that returns went through the block loops of a built-in
    table. *)
Lemma MobileNetV3_init_inv (width depth : Q) (fix_stem_and_head_channels : bool)
    (config : string) (minimal : bool) (bn_epsilon : Q) (padding : option string)
    (props : base_props) (x : tensor) (m : model) :
  MobileNetV3_init width depth fix_stem_and_head_channels config minimal bn_epsilon
    padding props x
  = Return m →
  ∃ _config, (config, _config) ∈ builtin_configs ∧
    ∃ st,
      build_blocks width depth fix_stem_and_head_channels _config
        (fst (fst (minimal_settings minimal))) (snd (fst (minimal_settings minimal)))
        (snd (minimal_settings minimal)) bn_epsilon padding x
      = Return st
      ∧ trace m = st_trace st ∧ features m = st_features st.
Proof.
  unfold MobileNetV3_init. pose proof (select_config_spec config) as Hsel.
  destruct (select_config config) as [[_config conv_head_channels]|e];
    cbn [mbind outcome_bind]; [|done].
  cbv zeta.
  destruct (build_blocks width depth fix_stem_and_head_channels _config _ _ _ bn_epsilon
              padding x) as [st|e] eqn:Hrun; cbn [mbind outcome_bind]; [|done].
  destruct (functional_model_init x _) as [[]|e]; cbn [mbind outcome_bind]; [|done].
  intros [= <-]. exists _config. split; [exact Hsel|]. exists st. done.
Qed.





(** ** Unrecognised block kinds *)

Lemma legacy_layer_step_unrecognized stage block block_type c k e se act layer st s :
  recognized block_type = false →
  st_x (fst (Legacy.layer_step stage block block_type c k e se act layer (st, s))) = st_x st
  ∧ st_current_stride
      (fst (Legacy.layer_step stage block block_type c k e se act layer (st, s)))
    = st_current_stride st * (if (layer =? 0)%nat then s else 1).
Proof.
  unfold recognized, Legacy.layer_step. cbv zeta. cbn [fst st_x st_current_stride].
  intros Hun.
  apply orb_false_iff in Hun as [Hun Hcn]. apply orb_false_iff in Hun as [Hun Hir].
  apply orb_false_iff in Hun as [Hds _]. by rewrite Hds, Hir, Hcn.
Qed.

(** C2 (as amended).  A row whose [block_kind] is none of ["ds"], ["dsa"],
    ["ir"], ["cn"] raises no error.  The block loops return for every table;
    each repetition of such a row is run, leaves the tensor as it is (no
    builder is called) and still multiplies the cumulative stride by its
    stride.  The same holds for the iterations of the earlier module. *)
Theorem unrecognized_block_kind_is_skipped (width depth : Q)
    (fix_stem_and_head_channels : bool) (_config : list (list BlockSpec))
    (force_activation : option string) (force_kernel_size : option Z) (no_se : bool)
    (bn_epsilon : Q) (padding : option string) (x : tensor)
    (i j : nat) (cfg : list BlockSpec) (b : BlockSpec) :
  _config !! i = Some cfg → cfg !! j = Some b → recognized (b_type b) = false →
  (∃ st,
     build_blocks width depth fix_stem_and_head_channels _config force_activation
       force_kernel_size no_se bn_epsilon padding x
     = Return st
     ∧ ∀ layer, (layer < Z.to_nat (effective_r depth (length _config) j b))%nat →
         record_of width force_activation force_kernel_size no_se i j b layer ∈ st_trace st)
  ∧ (∀ c k e se act layer st s,
       ∃ st',
         layer_step bn_epsilon padding i j (b_type b) c k e se act layer (st, s)
         = Return (st', if (layer =? 0)%nat then s else 1)
         ∧ st_x st' = st_x st
         ∧ st_current_stride st'
           = st_current_stride st * (if (layer =? 0)%nat then s else 1))
  ∧ (∀ c k e se act layer st s,
       st_x (fst (Legacy.layer_step i j (b_type b) c k e se act layer (st, s))) = st_x st
       ∧ st_current_stride
           (fst (Legacy.layer_step i j (b_type b) c k e se act layer (st, s)))
         = st_current_stride st * (if (layer =? 0)%nat then s else 1)).
Proof.
  intros Hcfg Hb Hun. split_and!.
  - destruct (build_blocks_returns width depth fix_stem_and_head_channels _config
                force_activation force_kernel_size no_se bn_epsilon padding x)
      as (st & Hrun & Htr & _).
    exists st. split; [exact Hrun|]. intros layer Hlayer.
    rewrite Htr. apply elem_of_table_records. by exists i, cfg, j, b, layer.
  - intros c k e se act layer st s.
    destruct (layer_step_returns bn_epsilon padding i j (b_type b) c k e se act layer st s)
      as (x' & Hstep & Hx).
    eexists. split; [exact Hstep|]. split; [exact (Hx Hun)|reflexivity].
  - intros c k e se act layer st s. by apply legacy_layer_step_unrecognized.
Qed.

Lemma unrecognized_block_kind_is_skipped_witness :
  ∃ st,
    build_blocks 1 1 false unknown_kind_table None None false (1 # 100000) None (Input 3)
    = Return st
    ∧ ∀ layer,
        (layer < Z.to_nat (effective_r 1 (length unknown_kind_table) 0
                             (row "xx" 1 3 2 1 16 0 "relu")))%nat →
        record_of 1 None None false 0 0 (row "xx" 1 3 2 1 16 0 "relu") layer ∈ st_trace st.
Proof.
  apply (proj1 (unrecognized_block_kind_is_skipped 1 1 false unknown_kind_table None None
                  false (1 # 100000) None (Input 3) 0 0
                  [row "xx" 1 3 2 1 16 0 "relu"] (row "xx" 1 3 2 1 16 0 "relu")
                  eq_refl eq_refl eq_refl)).
Defined.

(** C2, the input on which the claim as first stated fails: the earlier
    module is given a table whose only row has the kind ["xx"].  The
    construction returns; its output is the stem alone, and the stage's tap is
    keyed by the stride the skipped row still contributed. *)
Lemma unknown_kind_table_compiles :
  outputs_of (Legacy.MobileNetV3_init 1 1 false headless
                (Legacy.ConfigTable unknown_kind_table) false (Input 3))
  = Some legacy_stem
  ∧ feature_keys_of (Legacy.MobileNetV3_init 1 1 false headless
                       (Legacy.ConfigTable unknown_kind_table) false (Input 3))
    = ["STEM_S2"; "BLOCK0_S4"]
  ∧ map lr_type (trace_of (Legacy.MobileNetV3_init 1 1 false headless
                             (Legacy.ConfigTable unknown_kind_table) false (Input 3)))
    = ["xx"].
Proof. vm_compute. split_and!; reflexivity. Qed.

(** ** Depth scaling *)

Section BlockCounts.

Context (width depth : Q).
Context (force_activation : option string) (force_kernel_size : option Z) (no_se : bool).
Context (len_config : nat).

Lemma filter_none {B} (P : B → Prop) `{∀ y, Decision (P y)} (l : list B) :
  (∀ y, y ∈ l → ¬ P y) → filter P l = [].
Proof.
  induction l as [|y l IH]; intros Hno; [done|].
  rewrite filter_cons_False by (apply Hno; left).
  apply IH. intros z Hz. apply Hno. by right.
Qed.

Lemma filter_all {B} (P : B → Prop) `{∀ y, Decision (P y)} (l : list B) :
  (∀ y, y ∈ l → P y) → filter P l = l.
Proof.
  induction l as [|y l IH]; intros Hall; [done|].
  rewrite filter_cons_True by (apply Hall; left).
  f_equal. apply IH. intros z Hz. apply Hall. by right.
Qed.

(** Filtering the concatenation of indexed groups by a property that only
    group [t] can satisfy leaves the filtered group [t]. *)
Lemma filter_groups_none {A B} (P : B → Prop) `{∀ y, Decision (P y)}
    (f : nat * A → list B) (l : list A) (k t : nat) :
  (∀ i a y, y ∈ f (i, a) → P y → i = t) → (t < k)%nat →
  filter P (flat_map f (enumerate_from k l)) = [].
Proof.
  intros Honly. revert k. induction l as [|a l IH]; intros k Hk; cbn [enumerate_from flat_map].
  { done. }
  rewrite filter_app, (IH (S k)) by lia. rewrite app_nil_r.
  apply filter_none. intros y Hy HP.
  specialize (Honly k a y Hy HP). lia.
Qed.

Lemma filter_groups_one {A B} (P : B → Prop) `{∀ y, Decision (P y)}
    (f : nat * A → list B) (l : list A) (k t : nat) (a : A) :
  (∀ i a y, y ∈ f (i, a) → P y → i = t) →
  (k ≤ t)%nat → l !! (t - k)%nat = Some a →
  filter P (flat_map f (enumerate_from k l)) = filter P (f (t, a)).
Proof.
  intros Honly. revert k. induction l as [|x l IH]; intros k Hk Hl;
    cbn [enumerate_from flat_map]; [done|].
  rewrite filter_app. destruct (decide (k = t)) as [->|Hne].
  - rewrite Nat.sub_diag in Hl. injection Hl as ->.
    rewrite (filter_groups_none P f l (S t) t Honly) by lia. by rewrite app_nil_r.
  - replace (t - k)%nat with (S (t - S k)) in Hl by lia. cbn in Hl.
    rewrite (IH (S k)) by (done || lia).
    replace (filter P (f (k, x))) with (@nil B); [done|].
    symmetry. apply filter_none. intros y Hy HP.
    specialize (Honly k x y Hy HP). lia.
Qed.

(** The number of iterations the loops run for the row [b] at [(i, j)]. *)
Lemma block_count_table_records (table : list (list BlockSpec)) (i j : nat)
    (cfg : list BlockSpec) (b : BlockSpec) :
  table !! i = Some cfg → cfg !! j = Some b →
  block_count
    (table_records width depth force_activation force_kernel_size no_se len_config table)
    i j
  = Z.to_nat (effective_r depth len_config j b).
Proof.
  intros Hcfg Hb. unfold block_count, table_records, enumerate.
  rewrite (filter_groups_one _ _ table 0 i cfg).
  - unfold stage_records, enumerate. cbn [fst snd].
    rewrite (filter_groups_one _ _ cfg 0 j b).
    + unfold block_records. cbn [fst snd].
      rewrite filter_all; [by rewrite length_map, length_seq|].
      intros r Hr.
      apply list_elem_of_In, in_map_iff in Hr as (layer & <- & _). done.
    + intros j' b' r Hr [_ Hblock]. unfold block_records in Hr. cbn [fst snd] in Hr.
      apply list_elem_of_In, in_map_iff in Hr as (layer & <- & _). done.
    + lia.
    + by rewrite Nat.sub_0_r.
  - intros i' cfg' r Hr [Hstage _].
    apply elem_of_stage_records in Hr as (j' & b' & layer & _ & _ & ->). done.
  - lia.
  - by rewrite Nat.sub_0_r.
Qed.

End BlockCounts.

(** What the loops do with the depth multiplier, on every table: the row at
    position [j] of its stage is repeated [ceil(r * depth)] times unless [j]
    is 0 or the number of stages minus one, in which case it is repeated [r]
    times. *)
Lemma depth_scaling_by_stage_count (width depth : Q) (fix_stem_and_head_channels : bool)
    (_config : list (list BlockSpec)) (force_activation : option string)
    (force_kernel_size : option Z) (no_se : bool) (bn_epsilon : Q)
    (padding : option string) (x : tensor) :
  ∃ st,
    build_blocks width depth fix_stem_and_head_channels _config force_activation
      force_kernel_size no_se bn_epsilon padding x
    = Return st
    ∧ ∀ i j cfg b,
        _config !! i = Some cfg → cfg !! j = Some b →
        block_count (st_trace st) i j
        = Z.to_nat
            (if negb ((Z.of_nat j =? 0) || (Z.of_nat j =? Z.of_nat (length _config) - 1))
             then Qceiling (inject_Z (b_r b) * depth)%Q
             else b_r b).
Proof.
  destruct (build_blocks_returns width depth fix_stem_and_head_channels _config
              force_activation force_kernel_size no_se bn_epsilon padding x)
    as (st & Hrun & Htr & _).
  exists st. split; [exact Hrun|]. intros i j cfg b Hcfg Hb.
  rewrite Htr. by apply (block_count_table_records _ _ _ _ _ _ _ _ _ cfg).
Qed.

(** C1, on the code.  With [depth=1.5] the small table is built with the
    last row of stage 1 and of stage 2 depth-scaled (counts [1, 2] and
    [1, 3]), where exempting the first and the last row of each stage gives
    [1, 1] and [1, 2]: the loop compares the row's index with the number of
    stages, not with the number of rows of its stage.  Likewise the block
    loops run the large table at [depth=2.0] with counts [1, 2] and
    [1, 2, 4] for stages 1 and 3, not [1, 1] and [1, 2, 2], and a table of
    one stage with repeats [1, 2, 1] with counts [1, 4, 2], not [1, 4, 1].
    In general the row at position [j] is scaled unless [j] is 0 or the
    number of stages minus one. *)
Theorem depth_scaling_compares_with_stage_count :
  returns (MobileNetV3_init 1 (3 # 2) false "small" false (1 # 100000) None with_head
             (Input 3))
  = true
  ∧ block_counts
      (trace_of (MobileNetV3_init 1 (3 # 2) false "small" false (1 # 100000) None
                   with_head (Input 3)))
      DEFAULT_SMALL_CONFIG
    = [[1]; [1; 2]; [1; 3]; [2]; [3]; [1]]%nat
  ∧ boundary_exempt_counts (3 # 2) DEFAULT_SMALL_CONFIG
    = [[1]; [1; 1]; [1; 2]; [2]; [3]; [1]]%nat
  ∧ block_counts
      (state_trace_of (build_blocks 1 2 false DEFAULT_LARGE_CONFIG None None false
                         (1 # 100000) None (Input 3)))
      DEFAULT_LARGE_CONFIG
    = [[1]; [1; 2]; [3]; [1; 2; 4]; [2]; [3]; [1]]%nat
  ∧ boundary_exempt_counts 2 DEFAULT_LARGE_CONFIG
    = [[1]; [1; 1]; [3]; [1; 2; 2]; [2]; [3]; [1]]%nat
  ∧ block_counts
      (state_trace_of (build_blocks 1 2 false one_stage_121 None None false (1 # 100000)
                         None (Input 3)))
      one_stage_121
    = [[1; 4; 2]]%nat
  ∧ boundary_exempt_counts 2 one_stage_121 = [[1; 4; 1]]%nat
  ∧ ∀ width depth fix_stem_and_head_channels _config force_activation force_kernel_size
      no_se bn_epsilon padding x,
      ∃ st,
        build_blocks width depth fix_stem_and_head_channels _config force_activation
          force_kernel_size no_se bn_epsilon padding x
        = Return st
        ∧ ∀ i j cfg b,
            _config !! i = Some cfg → cfg !! j = Some b →
            block_count (st_trace st) i j
            = Z.to_nat
                (if negb ((Z.of_nat j =? 0)
                          || (Z.of_nat j =? Z.of_nat (length _config) - 1))
                 then Qceiling (inject_Z (b_r b) * depth)%Q
                 else b_r b).
Proof.
  split_and!; [vm_compute; reflexivity..|].
  apply depth_scaling_by_stage_count.
Qed.

(* ================================================================== *)
(** * Further properties of the code *)
(* ================================================================== *)

(** ** The fuzzy name matcher as a subsequence test *)

Section MatcherAlgebra.

Lemma chars_append (a b : string) :
  PyString.chars (a +:+ b) = PyString.chars a ++ PyString.chars b.
Proof. induction a as [|c a IH]; [done|]. rewrite append_cons. cbn. by rewrite IH. Qed.

Lemma length_chars (s : string) : length (PyString.chars s) = String.length s.
Proof. induction s as [|c s IH]; cbn; [done|]. by rewrite IH. Qed.

Lemma chars_drop_separators_sublist (s : string) :
  PyString.chars (drop_separators s) `sublist_of` PyString.chars s.
Proof.
  induction s as [|c s IH]; cbn; [constructor|].
  destruct (is_separator c); cbn; by constructor.
Qed.

Lemma increasing_after_Forall (m : Z) (ps : list nat) :
  increasing_after m ps → Forall (λ p, m < Z.of_nat p) ps.
Proof.
  revert m. induction ps as [|p ps IH]; intros m; cbn; [constructor|].
  intros [Hm Hps]. constructor; [done|].
  eapply Forall_impl; [apply (IH _ Hps)|]. cbn. lia.
Qed.

Lemma Forall2_refine {A B} (P R : A → B → Prop) (Q : B → Prop) (l : list A) (k : list B) :
  (∀ x y, P x y → Q y → R x y) → Forall2 P l k → Forall Q k → Forall2 R l k.
Proof.
  intros HPR HP. induction HP as [|x y l k Hxy _ IH]; intros HQ; [constructor|].
  apply Forall_cons in HQ as [Hy HQ]. constructor; [by apply HPR|by apply IH].
Qed.

(** Positions at or after [k], read relative to [k], exist exactly for the
    sublists of the characters. *)
Lemma positions_sublist (t : string) (k : nat) (q : list ascii) :
  (∃ ps, Forall2 (λ c p, (k ≤ p)%nat ∧ String.get (p - k) t = Some c) q ps
         ∧ increasing_after (Z.of_nat k - 1) ps)
  ↔ q `sublist_of` PyString.chars t.
Proof.
  revert k q. induction t as [|a t IH]; intros k q; cbn [PyString.chars].
  { rewrite sublist_nil_r. split.
    - intros (ps & HF & _). destruct HF as [|c p q ps [_ Hget] _]; [done|].
      by destruct (p - k)%nat.
    - intros ->. exists []. split; [constructor|done]. }
  split.
  - intros (ps & HF & Hinc). destruct HF as [|c p q ps [Hkp Hget] HF].
    { apply sublist_nil_l. }
    cbn in Hinc. destruct Hinc as [Hp Hinc].
    pose proof (increasing_after_Forall _ _ Hinc) as Hafter.
    destruct (decide (p = k)) as [->|Hne].
    + rewrite Nat.sub_diag in Hget. cbn in Hget. injection Hget as ->.
      apply sublist_skip, (IH (S k)). exists ps. split.
      * eapply Forall2_refine; [|exact HF|exact Hafter]. cbn.
        intros c' p' [Hk' Hget'] Hlt. split; [lia|].
        replace (p' - k)%nat with (S (p' - S k)) in Hget' by lia. exact Hget'.
      * by replace (Z.of_nat (S k) - 1) with (Z.of_nat k) by lia.
    + apply sublist_cons, (IH (S k)). exists (p :: ps). split.
      * constructor.
        { split; [lia|]. replace (p - k)%nat with (S (p - S k)) in Hget by lia.
          exact Hget. }
        eapply Forall2_refine; [|exact HF|exact Hafter]. cbn.
        intros c' p' [Hk' Hget'] Hlt. split; [lia|].
        replace (p' - k)%nat with (S (p' - S k)) in Hget' by lia. exact Hget'.
      * cbn. split; [lia|done].
  - intros [Hsub|(q' & -> & Hsub)]%sublist_cons_r.
    + apply (IH (S k)) in Hsub as (ps & HF & Hinc). exists ps. split.
      * eapply Forall2_impl; [exact HF|]. cbn. intros c p [Hk Hget]. split; [lia|].
        replace (p - k)%nat with (S (p - S k)) by lia. exact Hget.
      * eapply increasing_after_weaken; [|exact Hinc]. lia.
    + apply (IH (S k)) in Hsub as (ps & HF & Hinc). exists (k :: ps). split.
      * constructor; [by rewrite Nat.sub_diag|].
        eapply Forall2_impl; [exact HF|]. cbn. intros c p [Hk Hget]. split; [lia|].
        replace (p - k)%nat with (S (p - S k)) by lia. exact Hget.
      * cbn. split; [lia|]. by replace (Z.of_nat k) with (Z.of_nat (S k) - 1) by lia.
Qed.

Lemma ordered_subsequence_sublist (q t : string) :
  ordered_subsequence q t ↔ PyString.chars q `sublist_of` PyString.chars t.
Proof.
  rewrite <- (positions_sublist t 0). unfold ordered_subsequence.
  split; intros (ps & HF & Hinc); exists ps; split.
  - eapply Forall2_impl; [exact HF|]. cbn. intros c p Hget. split; [lia|].
    by rewrite Nat.sub_0_r.
  - by apply increasing_after_Sorted.
  - eapply Forall2_impl; [exact HF|]. cbn. intros c p [_ Hget].
    by rewrite Nat.sub_0_r in Hget.
  - by apply increasing_after_Sorted.
Qed.

(** The matcher decides whether the normalised query is a sublist of the
    lowercased target. *)
Lemma match_string_sublist (query target : string) :
  _match_string query target = true ↔
  PyString.chars (normalized_query query) `sublist_of` PyString.chars (PyString.lower target).
Proof. by rewrite match_string_iff, ordered_subsequence_sublist. Qed.

Lemma match_string_false (query target : string) :
  _match_string query target = false ↔
  ¬ PyString.chars (normalized_query query) `sublist_of` PyString.chars (PyString.lower target).
Proof. rewrite <- match_string_sublist. by destruct (_match_string query target). Qed.

End MatcherAlgebra.

(** X1.  A query that differs from the target only by letter case and by
    spaces, underscores and dots matches it; in particular every name matches
    itself. *)
Theorem match_string_same_normal_form (query target : string) :
  normalized_query query = normalized_query target →
  _match_string query target = true ∧ _match_string target target = true.
Proof.
  intros Heq. split; apply match_string_sublist.
  - rewrite Heq. apply chars_drop_separators_sublist.
  - apply chars_drop_separators_sublist.
Qed.

Lemma match_string_same_normal_form_witness :
  _match_string "Mobile_Net V3.Large" "mobile.NET_v3 large" = true
  ∧ _match_string "mobile.NET_v3 large" "mobile.NET_v3 large" = true.
Proof.
  apply (match_string_same_normal_form "Mobile_Net V3.Large" "mobile.NET_v3 large").
  vm_compute. reflexivity.
Defined.

(** X2.  The result depends on the query only through its normalised form and
    on the target only through its lowercase form: letter case is ignored on
    both sides, and separators are ignored in the query (not in the
    target). *)
Theorem match_string_insensitive (query query' target target' : string) :
  normalized_query query = normalized_query query' →
  PyString.lower target = PyString.lower target' →
  _match_string query target = _match_string query' target'.
Proof.
  intros Hq Ht. unfold _match_string. cbv zeta.
  rewrite !replace_drop_separators.
  fold (normalized_query query) (normalized_query query'). by rewrite Hq, Ht.
Qed.

Lemma match_string_insensitive_witness :
  _match_string "LC net_0.50" "LCNet050" = _match_string "lcnet050" "lcnet050".
Proof.
  apply (match_string_insensitive "LC net_0.50" "lcnet050" "LCNet050" "lcnet050");
    vm_compute; reflexivity.
Defined.

(** X3.  A query that matches a target matches every target whose lowercase
    form contains the lowercase form of the first: characters before and
    after it never break a match. *)
Theorem match_string_target_extension (query target target' before after : string) :
  PyString.lower target' = before +:+ PyString.lower target +:+ after →
  _match_string query target = true →
  _match_string query target' = true.
Proof.
  intros Hlower. rewrite !match_string_sublist, Hlower, !chars_append.
  intros Hsub. by apply sublist_inserts_l, sublist_inserts_r.
Qed.

Lemma match_string_target_extension_witness :
  _match_string "net v3" "MobileNetV3W100Large" = true.
Proof.
  apply (match_string_target_extension "net v3" "NetV3" "MobileNetV3W100Large" "mobile"
           "w100large");
    vm_compute; reflexivity.
Defined.

(** X4.  Every part of a matching query matches: when the normalised form of
    a matching query is the normalised form of one query followed by that of
    another, each of the two matches the target. *)
Theorem match_string_query_parts (query query1 query2 target : string) :
  normalized_query query = normalized_query query1 +:+ normalized_query query2 →
  _match_string query target = true →
  _match_string query1 target = true ∧ _match_string query2 target = true.
Proof.
  intros Hquery. rewrite !match_string_sublist, Hquery, chars_append.
  intros Hsub. split; (etrans; [|exact Hsub]).
  - by apply sublist_inserts_r.
  - by apply sublist_inserts_l.
Qed.

Lemma match_string_query_parts_witness :
  _match_string "Mobile" "MobileNetV3W100Large" = true
  ∧ _match_string "_large" "MobileNetV3W100Large" = true.
Proof.
  apply (match_string_query_parts "mobile large" "Mobile" "_large" "MobileNetV3W100Large");
    vm_compute; reflexivity.
Defined.

(** X5.  Matches compose: when one query matches one target and a second
    query matches a second target, every query whose normalised form is the
    two normalised forms in a row matches every target whose lowercase form
    is the two lowercase forms in a row. *)
Theorem match_string_concatenation (query query1 query2 target target1 target2 : string) :
  normalized_query query = normalized_query query1 +:+ normalized_query query2 →
  PyString.lower target = PyString.lower target1 +:+ PyString.lower target2 →
  _match_string query1 target1 = true →
  _match_string query2 target2 = true →
  _match_string query target = true.
Proof.
  intros Hquery Htarget. rewrite !match_string_sublist, Hquery, Htarget, !chars_append.
  apply sublist_app.
Qed.

Lemma match_string_concatenation_witness :
  _match_string "lc 0.5" "LCNet050" = true.
Proof.
  apply (match_string_concatenation "lc 0.5" "lc" "0.5" "LCNet050" "LCNet" "050");
    vm_compute; reflexivity.
Defined.

(** X6.  A query whose normalised form is longer than the lowercase form of
    the target never matches. *)
Theorem match_string_longer_query (query target : string) :
  (String.length (PyString.lower target) < String.length (normalized_query query))%nat →
  _match_string query target = false.
Proof.
  intros Hlen. apply match_string_false. intros Hsub%sublist_length.
  rewrite !length_chars in Hsub. lia.
Qed.

Lemma match_string_longer_query_witness :
  _match_string "lcnet_0500" "LCNet050" = false.
Proof. apply (match_string_longer_query "lcnet_0500" "LCNet050"). vm_compute. lia. Defined.

(** ** The registry under sequences of calls *)

Section RegistryCalls.

Implicit Types (st : py_state) (info : model_info) (registry : list model_info).

Lemma list_models_body_subseteq name fe weights (names : gset string) info :
  list_models_body name fe weights names info ⊆ names ∪ {[ info_name info ]}.
Proof.
  unfold list_models_body. cbv zeta.
  match goal with |- (if ?b then _ else _) ⊆ _ => destruct b end; set_solver.
Qed.

Lemma list_models_loop_subseteq name fe weights registry (names : gset string) :
  fold_left (list_models_body name fe weights) registry names
  ⊆ names ∪ list_to_set (info_name <$> registry).
Proof.
  revert names. induction registry as [|info registry IH]; intros names; cbn [fold_left].
  { set_solver. }
  etrans; [apply IH|]. pose proof (list_models_body_subseteq name fe weights names info).
  rewrite fmap_cons, list_to_set_cons. set_solver.
Qed.

Lemma list_models_loop_unfiltered registry (names : gset string) :
  fold_left (list_models_body None None VNone) registry names
  = names ∪ list_to_set (info_name <$> registry).
Proof.
  revert names. induction registry as [|info registry IH]; intros names; cbn [fold_left].
  { set_solver. }
  rewrite IH. unfold list_models_body. cbv zeta.
  rewrite fmap_cons, list_to_set_cons. set_solver.
Qed.

Lemma sorted_empty : sorted ∅ = [].
Proof. unfold sorted. by rewrite elements_empty. Qed.

Lemma sorted_singleton (n : string) : sorted {[ n ]} = [n].
Proof. unfold sorted. by rewrite elements_singleton. Qed.

Lemma all_additions_add m model_cls weights calls :
  all_additions m (CallAdd model_cls weights :: calls)
  = if decide (cls_module model_cls = m)
    then cls_name model_cls :: all_additions m calls
    else all_additions m calls.
Proof.
  unfold all_additions. simpl.
  destruct (decide (cls_module model_cls = m)); reflexivity.
Qed.

Lemma run_calls_cons call calls st :
  run_calls (call :: calls) st = run_calls calls (run_call call st).
Proof. reflexivity. Qed.

End RegistryCalls.

(** X7.  [list_models] never returns a name that is not registered, whatever
    the filters; without filters it returns exactly the registered names; on
    an empty registry it returns the empty list for every filter. *)
Theorem list_models_registered_names (name : option string)
    (feature_extractor : option bool) (weights : pyvalue) (st : py_state) :
  list_models name feature_extractor weights st ⊆ info_name <$> MODEL_REGISTRY st
  ∧ (∀ n, n ∈ list_models None None VNone st ↔ n ∈ info_name <$> MODEL_REGISTRY st)
  ∧ list_models name feature_extractor weights (clear_registry st) = [].
Proof.
  split_and!.
  - intros n. unfold list_models. rewrite elem_of_sorted.
    intros Hn%list_models_loop_subseteq. set_solver.
  - intros n. unfold list_models.
    rewrite elem_of_sorted, list_models_loop_unfiltered. set_solver.
  - unfold list_models, clear_registry. cbn. apply sorted_empty.
Qed.

(** X8.  Round trip: after [clear_registry()] and one successful
    [add_model_to_registry], [list_models] returns the class name alone when
    the new entry passes the filters, and nothing otherwise. *)
Theorem clear_then_register_round_trip (model_cls : model_class) (weights : pyvalue)
    (st : py_state) (name : option string) (feature_extractor : option bool)
    (weights' : pyvalue) :
  valid_weights weights = true →
  list_models name feature_extractor weights'
    (snd (add_model_to_registry model_cls weights (clear_registry st)))
  = if keeps name feature_extractor weights' (registered_entry model_cls weights)
    then [cls_name model_cls] else [].
Proof.
  intros Hvalid. rewrite add_model_to_registry_unfold. cbv zeta.
  rewrite Hvalid. unfold list_models. cbn [snd MODEL_REGISTRY clear_registry app fold_left].
  rewrite list_models_body_spec by apply registered_entry_lowercase.
  destruct (keeps name feature_extractor weights' (registered_entry model_cls weights)).
  - replace (∅ ∪ {[info_name (registered_entry model_cls weights)]})
      with ({[cls_name model_cls]} : gset string) by set_solver.
    apply sorted_singleton.
  - replace ((∅ ∪ {[info_name (registered_entry model_cls weights)]})
               ∖ {[info_name (registered_entry model_cls weights)]})
      with (∅ : gset string) by set_solver.
    apply sorted_empty.
Qed.

Lemma clear_then_register_round_trip_witness :
  list_models (Some "foo") None (VStr "IMAGENET")
    (snd (add_model_to_registry class_Foo (VStr "ImageNet") (clear_registry state_Foo_twice)))
  = if keeps (Some "foo") None (VStr "IMAGENET") (registered_entry class_Foo (VStr "ImageNet"))
    then [cls_name class_Foo] else [].
Proof.
  apply (clear_then_register_round_trip class_Foo (VStr "ImageNet") state_Foo_twice
           (Some "foo") None (VStr "IMAGENET")).
  reflexivity.
Defined.

(** X9.  On a registry whose weight tags are [None] or lowercase, a
    successful registration decides whether its name is listed: afterwards
    the class name is returned exactly when the new entry passes the filters,
    and for every other name the answer is what it was before. *)
Theorem registration_decides_listing (model_cls : model_class) (weights : pyvalue)
    (st : py_state) (name : option string) (feature_extractor : option bool)
    (weights' : pyvalue) :
  valid_weights weights = true →
  Forall lowercase_weights (MODEL_REGISTRY st) →
  (cls_name model_cls
     ∈ list_models name feature_extractor weights'
         (snd (add_model_to_registry model_cls weights st))
   ↔ keeps name feature_extractor weights' (registered_entry model_cls weights) = true)
  ∧ ∀ n, n ≠ cls_name model_cls →
      (n ∈ list_models name feature_extractor weights'
             (snd (add_model_to_registry model_cls weights st))
       ↔ n ∈ list_models name feature_extractor weights' st).
Proof.
  intros Hvalid Hlow.
  assert (Forall lowercase_weights
            (MODEL_REGISTRY (snd (add_model_to_registry model_cls weights st)))) as Hlow'
    by by apply add_model_to_registry_keeps_lowercase.
  assert (MODEL_REGISTRY (snd (add_model_to_registry model_cls weights st))
          = MODEL_REGISTRY st ++ [registered_entry model_cls weights]) as Hreg.
  { rewrite add_model_to_registry_unfold. cbv zeta. by rewrite Hvalid. }
  split.
  - rewrite list_models_spec by done. rewrite Hreg, last_named_snoc.
    rewrite decide_True by done. split; [by intros (? & [= <-] & ?)|eauto].
  - intros n Hn. rewrite !list_models_spec by done. rewrite Hreg, last_named_snoc.
    by rewrite decide_False by (cbn; congruence).
Qed.

Lemma registration_decides_listing_witness :
  ("Bar" ∈ list_models None (Some true) VNone
             (snd (add_model_to_registry class_Bar VNone state_Foo))
   ↔ keeps None (Some true) VNone (registered_entry class_Bar VNone) = true)
  ∧ ∀ n, n ≠ "Bar" →
      (n ∈ list_models None (Some true) VNone
             (snd (add_model_to_registry class_Bar VNone state_Foo))
       ↔ n ∈ list_models None (Some true) VNone state_Foo).
Proof.
  apply (registration_decides_listing class_Bar VNone state_Foo None (Some true) VNone).
  - reflexivity.
  - vm_compute. constructor; [|constructor]. intros t [= <-]. reflexivity.
Defined.

(** X10.  A call of [add_model_to_registry] issues one warning for every
    entry already registered under the class name, whether or not it then
    raises; so no warning is issued exactly when the name is new. *)
Theorem registration_warnings (model_cls : model_class) (weights : pyvalue)
    (st : py_state) :
  warnings (snd (add_model_to_registry model_cls weights st))
  = warnings st
      ++ replicate
           (length (filter (λ info, info_name info = cls_name model_cls) (MODEL_REGISTRY st)))
           (duplicate_warning (cls_name model_cls))
  ∧ (warnings (snd (add_model_to_registry model_cls weights st)) = warnings st
     ↔ cls_name model_cls ∉ info_name <$> MODEL_REGISTRY st).
Proof.
  assert (warnings (snd (add_model_to_registry model_cls weights st))
          = warnings st
              ++ replicate
                   (length (filter (λ info, info_name info = cls_name model_cls)
                              (MODEL_REGISTRY st)))
                   (duplicate_warning (cls_name model_cls))) as Hws.
  { rewrite add_model_to_registry_unfold. cbv zeta.
    destruct (valid_weights weights); cbn [snd warnings]; apply warn_duplicates_spec. }
  split; [exact Hws|]. rewrite Hws.
  destruct (filter (λ info, info_name info = cls_name model_cls) (MODEL_REGISTRY st))
    as [|info l] eqn:Hfilter; cbn [length replicate].
  - rewrite app_nil_r. split; [intros _|done].
    intros (info & Hname & Hin)%list_elem_of_fmap.
    assert (info ∈ filter (λ info, info_name info = cls_name model_cls) (MODEL_REGISTRY st))
      as Hf by (apply list_elem_of_filter; done).
    rewrite Hfilter in Hf. by apply elem_of_nil in Hf.
  - split.
    + intros Heq. apply (f_equal length) in Heq. rewrite length_app in Heq. cbn in Heq. lia.
    + intros Hfresh. exfalso. apply Hfresh.
      assert (info ∈ filter (λ info, info_name info = cls_name model_cls) (MODEL_REGISTRY st))
        as [Hname Hin]%list_elem_of_filter by (rewrite Hfilter; left).
      apply list_elem_of_fmap. eauto.
Qed.

(** X11.  Every state reached from one that satisfies the invariant, by any
    sequence of [add_model_to_registry] (returning or raising) and
    [clear_registry] calls, satisfies it: the weight tags of the registry are
    [None] or lowercase strings. *)
Theorem reachable_registry_lowercase (calls : list registry_call) (st : py_state) :
  Forall lowercase_weights (MODEL_REGISTRY st) →
  Forall lowercase_weights (MODEL_REGISTRY (run_calls calls st)).
Proof.
  revert st. induction calls as [|call calls IH]; intros st Hlow; [done|].
  rewrite run_calls_cons. apply IH. destruct call as [model_cls weights|]; cbn [run_call].
  - by apply add_model_to_registry_keeps_lowercase.
  - constructor.
Qed.

Lemma reachable_registry_lowercase_witness :
  Forall lowercase_weights
    (MODEL_REGISTRY
       (run_calls [CallAdd class_Foo (VStr "ImageNet"); CallAdd class_Bar (VInt 3);
                   CallClear; CallAdd class_Bar (VStr "IN21K")] empty_state)).
Proof.
  apply (reachable_registry_lowercase
           [CallAdd class_Foo (VStr "ImageNet"); CallAdd class_Bar (VInt 3);
            CallClear; CallAdd class_Bar (VStr "IN21K")] empty_state).
  constructor.
Defined.

(** X12.  The [__all__] list of a module only grows: after any sequence of
    calls it is the list it was followed by the names of the classes of that
    module passed to [add_model_to_registry], in call order.  Neither a call
    that raises nor [clear_registry] removes a name, and registering a class
    again repeats its name. *)
Theorem all_list_accumulates (calls : list registry_call) (st : py_state) (m : string) :
  module_all (run_calls calls st) !! m
  = match all_additions m calls with
    | [] => module_all st !! m
    | added => Some (default [] (module_all st !! m) ++ added)
    end.
Proof.
  revert st. induction calls as [|call calls IH]; intros st; [done|].
  rewrite run_calls_cons, IH.
  destruct call as [model_cls weights|]; cbn [run_call]; [|done].
  rewrite all_additions_add.
  assert (module_all (snd (add_model_to_registry model_cls weights st))
          = <[cls_module model_cls :=
                default [] (module_all st !! cls_module model_cls) ++ [cls_name model_cls]]>
              (module_all st)) as ->.
  { rewrite add_model_to_registry_unfold. cbv zeta. by destruct (valid_weights weights). }
  case_decide as Hm.
  - subst m. rewrite lookup_insert_eq. cbn.
    destruct (all_additions (cls_module model_cls) calls) as [|a added]; cbn.
    + done.
    + by rewrite <- app_assoc.
  - by rewrite lookup_insert_ne.
Qed.

(** ** Shapes produced by the block builders *)

Section BuilderShapes.

Context (inputs : tensor) (filters : Z).
Context (depthwise_kernel_size expansion_kernel_size pointwise_kernel_size strides : Z).
Context (expansion_ratio se_ratio : Q) (activation : string).
Context (se_channels se_make_divisible_number : option Z).
Context (se_activation se_gate_activation pw_activation : option string).
Context (bn_epsilon : Q) (padding : option string) (name : string).

(** X13.  Whenever a builder of [kimm/_src/blocks] returns, its output has
    [filters] channels, with or without the skip connection, and it contains
    a squeeze-and-excitation block exactly when [se_ratio > 0] (or when its
    input already contained one). *)
Theorem builders_output_shape :
  (∀ has_skip y,
     apply_depthwise_separation_block inputs filters depthwise_kernel_size
       pointwise_kernel_size strides se_ratio (Some activation) se_activation
       se_gate_activation se_make_divisible_number pw_activation has_skip bn_epsilon
       padding name
     = Return y →
     channels y = filters
     ∧ has_se_block y = Qltb 0 se_ratio || has_se_block inputs)
  ∧ (∃ y,
       apply_inverted_residual_block inputs filters depthwise_kernel_size
         expansion_kernel_size pointwise_kernel_size strides expansion_ratio se_ratio
         activation se_channels se_activation se_gate_activation
         se_make_divisible_number bn_epsilon padding name
       = Return y
       ∧ channels y = filters
       ∧ has_se_block y = Qltb 0 se_ratio || has_se_block inputs).
Proof.
  split.
  - intros has_skip y. unfold apply_depthwise_separation_block. cbv zeta.
    destruct (has_skip && _); [done|]. intros [= <-].
    destruct has_skip, (Qltb 0 se_ratio); cbn; split; try reflexivity;
      by destruct (has_se_block inputs).
  - unfold apply_inverted_residual_block. cbv zeta. eexists. split; [reflexivity|].
    destruct ((strides =? 1) && (channels inputs =? filters)), (Qltb 0 se_ratio); cbn;
      split; try reflexivity; by destruct (has_se_block inputs).
Qed.

(** X14.  The two builders of the earlier module decide the skip connection
    themselves: the input is added exactly when the stride is 1 and the
    channel counts agree, and the output has [output_channels] channels
    either way. *)
Theorem legacy_builders_contract :
  (adds_input inputs
     (Legacy.apply_depthwise_separation_block inputs filters depthwise_kernel_size
        pointwise_kernel_size strides se_ratio activation name)
   ↔ strides = 1 ∧ channels inputs = filters)
  ∧ channels
      (Legacy.apply_depthwise_separation_block inputs filters depthwise_kernel_size
         pointwise_kernel_size strides se_ratio activation name)
    = filters
  ∧ (adds_input inputs
       (Legacy.apply_inverted_residual_block inputs filters depthwise_kernel_size
          expansion_kernel_size pointwise_kernel_size strides expansion_ratio se_ratio
          activation name)
     ↔ strides = 1 ∧ channels inputs = filters)
  ∧ channels
      (Legacy.apply_inverted_residual_block inputs filters depthwise_kernel_size
         expansion_kernel_size pointwise_kernel_size strides expansion_ratio se_ratio
         activation name)
    = filters.
Proof.
  unfold Legacy.apply_depthwise_separation_block, Legacy.apply_inverted_residual_block.
  cbv zeta.
  destruct (strides =? 1) eqn:Hs; cbn [andb];
    [destruct (channels inputs =? filters) eqn:Hc|];
    rewrite ?Z.eqb_eq, ?Z.eqb_neq in *;
    (split_and!; [| reflexivity | | reflexivity]);
    (split; [intros [body Hbody]|intros [? ?]]); try done; eexists; reflexivity.
Qed.

End BuilderShapes.

(** ** The compiler: taps, repeats and names *)

(** A construction that returns ran the block loops of a built-in table to
    their end. *)
Lemma MobileNetV3_init_trace (width depth : Q) (fix_stem_and_head_channels : bool)
    (config : string) (minimal : bool) (bn_epsilon : Q) (padding : option string)
    (props : base_props) (x : tensor) (m : model) :
  MobileNetV3_init width depth fix_stem_and_head_channels config minimal bn_epsilon
    padding props x
  = Return m →
  ∃ table,
    (config, table) ∈ builtin_configs
    ∧ trace m
      = table_records width depth (fst (fst (minimal_settings minimal)))
          (snd (fst (minimal_settings minimal))) (snd (minimal_settings minimal))
          (length table) table
    ∧ keys (features m)
      = "STEM_S2"
        :: map (λ j, tap_key j (stride_after j (trace m))) (seq 0 (length table)).
Proof.
  intros (table & Hsel & st & Hrun & Htrace & Hfeatures)%MobileNetV3_init_inv.
  destruct (build_blocks_returns width depth fix_stem_and_head_channels table
              (fst (fst (minimal_settings minimal))) (snd (fst (minimal_settings minimal)))
              (snd (minimal_settings minimal)) bn_epsilon padding x)
    as (st' & Hrun' & Htr & _ & Hkeys).
  rewrite Hrun in Hrun'. injection Hrun' as <-.
  exists table. rewrite Htrace, Hfeatures. done.
Qed.

(** X15.  The taps of a compiled table never overwrite one another: the keys
    recorded by the stem and the stages are pairwise distinct, and there is
    exactly one per stage besides the stem's. *)
Theorem feature_taps_distinct (width depth : Q) (fix_stem_and_head_channels : bool)
    (_config : list (list BlockSpec)) (force_activation : option string)
    (force_kernel_size : option Z) (no_se : bool) (bn_epsilon : Q)
    (padding : option string) (x : tensor) :
  ∃ st,
    build_blocks width depth fix_stem_and_head_channels _config force_activation
      force_kernel_size no_se bn_epsilon padding x
    = Return st
    ∧ NoDup (keys (st_features st))
    ∧ length (st_features st) = S (length _config).
Proof.
  destruct (build_blocks_returns width depth fix_stem_and_head_channels _config
              force_activation force_kernel_size no_se bn_epsilon padding x)
    as (st & Hrun & _ & _ & Hkeys).
  exists st. split; [exact Hrun|]. split.
  - rewrite Hkeys. apply NoDup_cons. split.
    + rewrite list_elem_of_In, in_map_iff. intros (j & Hj & _).
      by apply tap_key_not_stem in Hj.
    + change (NoDup ((λ j, tap_key j (stride_after j (st_trace st))) <$> seq 0 (length _config))).
      apply NoDup_fmap_2_strong; [|apply NoDup_seq].
      intros j j' _ _ Heq. by apply tap_key_stage_inj in Heq.
  - apply (f_equal length) in Hkeys. unfold keys in Hkeys.
    rewrite length_map in Hkeys. rewrite Hkeys. cbn. by rewrite length_map, length_seq.
Qed.

(** X16.  The depth multiplier never touches the first row of a stage, and a
    multiplier equal to 1 changes nothing: in both cases the row is run
    [r] times ([range(r)]: not at all when [r] is not positive). *)
Theorem unscaled_rows_keep_repeats (width depth : Q) (fix_stem_and_head_channels : bool)
    (_config : list (list BlockSpec)) (force_activation : option string)
    (force_kernel_size : option Z) (no_se : bool) (bn_epsilon : Q)
    (padding : option string) (x : tensor)
    (i j : nat) (cfg : list BlockSpec) (b : BlockSpec) :
  _config !! i = Some cfg → cfg !! j = Some b →
  ∃ st,
    build_blocks width depth fix_stem_and_head_channels _config force_activation
      force_kernel_size no_se bn_epsilon padding x
    = Return st
    ∧ (j = 0%nat → block_count (st_trace st) i j = Z.to_nat (b_r b))
    ∧ ((depth == 1)%Q → block_count (st_trace st) i j = Z.to_nat (b_r b)).
Proof.
  intros Hcfg Hb.
  destruct (build_blocks_returns width depth fix_stem_and_head_channels _config
              force_activation force_kernel_size no_se bn_epsilon padding x)
    as (st & Hrun & Htr & _).
  exists st. split; [exact Hrun|]. rewrite Htr.
  rewrite (block_count_table_records _ _ _ _ _ _ _ _ _ cfg b Hcfg Hb).
  unfold effective_r, depth_scaled. split.
  - intros ->. reflexivity.
  - intros Hdepth. destruct (negb _); [|done]. f_equal.
    transitivity (Qceiling (inject_Z (b_r b))); [|apply Qceiling_Z].
    apply Qceiling_comp. rewrite Hdepth. apply Qmult_1_r.
Qed.

Lemma unscaled_rows_keep_repeats_witness :
  ∃ st,
    build_blocks 1 1 false DEFAULT_SMALL_CONFIG None None false (1 # 100000) None (Input 3)
    = Return st
    ∧ (1%nat = 0%nat → block_count (st_trace st) 2 1 = Z.to_nat 2)
    ∧ ((1 == 1)%Q → block_count (st_trace st) 2 1 = Z.to_nat 2).
Proof.
  apply (unscaled_rows_keep_repeats 1 1 false DEFAULT_SMALL_CONFIG None None false
           (1 # 100000) None (Input 3) 2 1
           [ row "ir" 1 5 2 4 40 (1 # 4) "hard_swish";
             row "ir" 2 5 1 6 40 (1 # 4) "hard_swish" ]
           (row "ir" 2 5 1 6 40 (1 # 4) "hard_swish"));
    reflexivity.
Defined.

(** Block names are injective in the stage and in the sum of the row's index
    and the repetition. *)
Lemma block_name_eq (stage block layer stage' block' layer' : nat) :
  block_name stage block layer = block_name stage' block' layer'
  ↔ stage = stage' ∧ (block + layer = block' + layer')%nat.
Proof.
  unfold block_name. split; [|by intros [-> ->]].
  intros Heq. apply (inj (String.app "blocks_")) in Heq.
  assert (pretty stage = pretty stage') as Hstage.
  { eapply split_at_underscore; [apply pretty_nat_no_underscore..|exact Heq]. }
  rewrite Hstage in Heq. apply (inj (String.app _)) in Heq.
  apply (inj (String.app "_")) in Heq.
  split; [by apply (inj pretty)|by apply (inj pretty)].
Qed.

(** The names of the iterations of the three built-in tables at depth 1. *)
Lemma builtin_names_distinct (width : Q) (force_activation : option string)
    (force_kernel_size : option Z) (no_se : bool) (table : list (list BlockSpec)) :
  table ∈ [DEFAULT_SMALL_CONFIG; DEFAULT_LARGE_CONFIG; DEFAULT_LCNET_CONFIG] →
  NoDup (map lr_name
           (table_records width 1 force_activation force_kernel_size no_se (length table)
              table)).
Proof.
  intros Hin.
  repeat (apply elem_of_cons in Hin as [->|Hin];
          [match goal with |- NoDup ?l =>
             let l' := eval vm_compute in l in
             assert (l = l') as -> by (vm_compute; reflexivity)
           end;
           compute_done|]).
  by apply elem_of_nil in Hin.
Qed.

(** X17.  An iteration is named ["blocks_{stage}_{block + layer}"], so two
    iterations get the same name exactly when they are in the same stage and
    the sums of row index and repetition agree: a repeated row shares names
    with the rows that follow it in its stage.  For the three built-in tables
    at depth 1 all names are distinct; on the large table at depth 2 the
    block loops give the name ["blocks_3_2"] twice. *)
Theorem block_names_collide_on_index_sums (width depth : Q)
    (fix_stem_and_head_channels : bool) (_config : list (list BlockSpec))
    (force_activation : option string) (force_kernel_size : option Z) (no_se : bool)
    (bn_epsilon : Q) (padding : option string) (x : tensor) :
  (∃ st,
     build_blocks width depth fix_stem_and_head_channels _config force_activation
       force_kernel_size no_se bn_epsilon padding x
     = Return st
     ∧ ∀ r1 r2, r1 ∈ st_trace st → r2 ∈ st_trace st →
         (lr_name r1 = lr_name r2
          ↔ lr_stage r1 = lr_stage r2
            ∧ (lr_block r1 + lr_layer r1 = lr_block r2 + lr_layer r2)%nat))
  ∧ (∀ config minimal props,
       NoDup (map lr_name
                (trace_of (MobileNetV3_init width 1 fix_stem_and_head_channels config
                             minimal bn_epsilon padding props x))))
  ∧ map (λ r, (lr_block r, lr_layer r))
      (filter (λ r, lr_name r = "blocks_3_2")
         (state_trace_of (build_blocks 1 2 false DEFAULT_LARGE_CONFIG None None false
                            (1 # 100000) None (Input 3))))
    = [(1, 1); (2, 0)]%nat.
Proof.
  split_and!.
  - destruct (build_blocks_returns width depth fix_stem_and_head_channels _config
                force_activation force_kernel_size no_se bn_epsilon padding x)
      as (st & Hrun & Htr & _).
    exists st. split; [exact Hrun|]. rewrite Htr. intros r1 r2 Hr1 Hr2.
    apply elem_of_table_records in Hr1 as (i1 & cfg1 & j1 & b1 & l1 & _ & _ & _ & ->).
    apply elem_of_table_records in Hr2 as (i2 & cfg2 & j2 & b2 & l2 & _ & _ & _ & ->).
    cbn [record_of lr_name lr_stage lr_block lr_layer]. apply block_name_eq.
  - intros config minimal props.
    destruct (MobileNetV3_init width 1 fix_stem_and_head_channels config minimal
                bn_epsilon padding props x) as [m|e] eqn:Hinit; [|constructor].
    apply MobileNetV3_init_trace in Hinit as (table & Hsel & Htr & _).
    cbn [trace_of]. rewrite Htr. apply builtin_names_distinct.
    unfold builtin_configs in Hsel.
    repeat (apply elem_of_cons in Hsel as [[= _ ->]|Hsel];
            [repeat first [apply list_elem_of_here|apply list_elem_of_further]|]).
    by apply elem_of_nil in Hsel.
  - vm_compute. reflexivity.
Qed.


(** ** The names of the layers of the graph *)

Lemma count_name_cons (name a : string) (all_names : list string) :
  count_name name (a :: all_names)
  = ((if decide (a = name) then 1 else 0) + count_name name all_names)%nat.
Proof. unfold count_name. rewrite filter_cons. by case_decide. Qed.

Lemma count_name_not_in (name : string) (all_names : list string) :
  count_name name all_names = 0%nat ↔ name ∉ all_names.
Proof.
  induction all_names as [|a all_names IH].
  { split; [intros _; apply not_elem_of_nil|done]. }
  rewrite count_name_cons, not_elem_of_cons. case_decide as Ha.
  - split; [lia|]. intros [Hne _]. by destruct Hne.
  - rewrite <- IH. split; [intros ?; split; [done|lia]|intros [_ ?]; lia].
Qed.

(** Every name is used once exactly when no name is repeated. *)
Lemma NoDup_count_name (all_names : list string) :
  NoDup all_names ↔ ∀ name, name ∈ all_names → count_name name all_names = 1%nat.
Proof.
  induction all_names as [|a all_names IH].
  { split; [by intros _ name ?%elem_of_nil|constructor]. }
  rewrite NoDup_cons, IH. split.
  - intros [Ha Hall] name Hname. rewrite count_name_cons.
    apply elem_of_cons in Hname as [->|Hname].
    + rewrite decide_True by done. apply count_name_not_in in Ha. lia.
    + rewrite decide_False by (intros ->; done). by apply Hall.
  - intros Hall.
    assert (a ∉ all_names) as Ha.
    { apply count_name_not_in. specialize (Hall a (list_elem_of_here _ _)).
      rewrite count_name_cons, decide_True in Hall by done. lia. }
    split; [exact Ha|]. intros name Hname.
    specialize (Hall name (list_elem_of_further _ _ _ Hname)).
    rewrite count_name_cons, decide_False in Hall by (intros ->; done). exact Hall.
Qed.

Lemma first_repeated_None (all_names : list string) :
  first_repeated all_names = None ↔ NoDup all_names.
Proof.
  unfold first_repeated. rewrite head_None, NoDup_count_name. split.
  - intros Hnone name Hname.
    destruct (decide (count_name name all_names = 1%nat)) as [|Hne]; [done|].
    assert (name ∈ filter (λ name, count_name name all_names ≠ 1%nat) all_names) as Hin
      by (by apply list_elem_of_filter).
    rewrite Hnone in Hin. by apply elem_of_nil in Hin.
  - intros Hall. apply filter_none. intros name Hname Hne. by apply Hne, Hall.
Qed.

(** The closing call returns exactly when the created layers have pairwise
    distinct names, and raises [ValueError] otherwise. *)
Lemma functional_model_init_spec (preprocessed outputs : tensor) (created : list string) :
  layer_names outputs = layer_names preprocessed ++ created →
  (NoDup created → functional_model_init preprocessed outputs = Return tt)
  ∧ (¬ NoDup created →
     ∃ msg, functional_model_init preprocessed outputs = Raise (ValueError msg)).
Proof.
  intros Hnames. unfold functional_model_init. cbv zeta.
  rewrite Hnames, drop_app_length.
  destruct (first_repeated created) as [name|] eqn:Hfirst.
  - split; [|eauto]. intros Hnodup%first_repeated_None. congruence.
  - split; [done|]. intros Hdup. by apply first_repeated_None in Hfirst.
Qed.

Section GraphNames.

Context (bn_epsilon : Q) (padding : option string).

Lemma graph_of_step dsa_known x0 st st' r :
  graph_of dsa_known x0 st →
  st_trace st' = st_trace st ++ [r] →
  layer_names (st_x st') = layer_names (st_x st) ++ record_layer_names dsa_known r →
  graph_of dsa_known x0 st'.
Proof.
  unfold graph_of. intros -> -> ->.
  rewrite flat_map_app. cbn [flat_map]. rewrite app_nil_r, <- !app_assoc. done.
Qed.

Lemma layer_step_layers stage block block_type c k e se act layer st s st' s' :
  layer_step bn_epsilon padding stage block block_type c k e se act layer (st, s)
  = Return (st', s') →
  ∃ r,
    st_trace st' = st_trace st ++ [r]
    ∧ layer_names (st_x st') = layer_names (st_x st) ++ record_layer_names true r.
Proof.
  unfold layer_step, record_layer_names. cbv zeta.
  destruct (String.eqb block_type "ds") eqn:Hds; cbn [orb].
  { unfold apply_depthwise_separation_block. cbv zeta.
    match goal with |- context [if ?b then Raise _ else _] => destruct b end;
      cbn [mbind outcome_bind]; [done|].
    intros [= <- <-]. eexists. split; [reflexivity|].
    cbn [st_x lr_type lr_se lr_name]. rewrite Hds. cbn [orb].
    unfold apply_conv2d_block, apply_se_block.
    repeat match goal with |- context [if ?b then _ else _] => destruct b end;
      cbn [layer_names cv_name se_name app]; rewrite <- ?app_assoc; reflexivity. }
  destruct (String.eqb block_type "dsa") eqn:Hdsa; cbn [orb].
  { unfold apply_depthwise_separation_block. cbv zeta. cbn [andb].
    cbn [mbind outcome_bind].
    intros [= <- <-]. eexists. split; [reflexivity|].
    cbn [st_x lr_type lr_se lr_name]. rewrite Hds, Hdsa. cbn [orb andb].
    unfold apply_conv2d_block, apply_se_block.
    repeat match goal with |- context [if ?b then _ else _] => destruct b end;
      cbn [layer_names cv_name se_name app]; rewrite <- ?app_assoc; reflexivity. }
  destruct (String.eqb block_type "ir") eqn:Hir.
  { unfold apply_inverted_residual_block. cbv zeta. cbn [mbind outcome_bind].
    intros [= <- <-]. eexists. split; [reflexivity|].
    cbn [st_x lr_type lr_se lr_name]. rewrite Hds, Hdsa, Hir. cbn [orb andb].
    unfold apply_conv2d_block, apply_se_block.
    repeat match goal with |- context [if ?b then _ else _] => destruct b end;
      cbn [layer_names cv_name se_name app]; rewrite <- ?app_assoc; reflexivity. }
  destruct (String.eqb block_type "cn") eqn:Hcn.
  { cbn [mbind outcome_bind]. intros [= <- <-]. eexists. split; [reflexivity|].
    cbn [st_x lr_type lr_se lr_name]. rewrite Hds, Hdsa, Hir, Hcn. cbn [orb andb].
    reflexivity. }
  cbn [mbind outcome_bind]. intros [= <- <-]. eexists. split; [reflexivity|].
  cbn [st_x lr_type lr_se lr_name]. rewrite Hds, Hdsa, Hir, Hcn. cbn [orb andb].
  by rewrite app_nil_r.
Qed.

(** A loop keeps what each of its iterations keeps. *)
Lemma for_each_invariant {A S} (P : S → Prop) (body : A → S → outcome S)
    (l : list A) (st st' : S) :
  (∀ a s s', P s → body a s = Return s' → P s') →
  P st → for_each body l st = Return st' → P st'.
Proof.
  intros Hbody. revert st. induction l as [|a l IH]; intros st HP; cbn [for_each].
  { by intros [= <-]. }
  destruct (body a st) as [s|e] eqn:Hstep; cbn [mbind outcome_bind]; [|done].
  apply IH. by eapply Hbody.
Qed.

Lemma block_step_graph width depth force_activation force_kernel_size no_se len_config
    stage (indexed : nat * BlockSpec) x0 st st' :
  graph_of true x0 st →
  block_step width depth force_activation force_kernel_size no_se bn_epsilon padding
    len_config stage indexed st
  = Return st' →
  graph_of true x0 st'.
Proof.
  intros Hgraph. destruct indexed as [block b]. unfold block_step. cbv zeta.
  match goal with |- context [for_each ?body ?l ?s0] =>
    destruct (for_each body l s0) as [[st1 s1]|e] eqn:Hloop end;
    cbn [mbind outcome_bind]; [|done].
  intros [= <-]. cbn [fst].
  change (graph_of true x0 (fst (st1, s1))).
  eapply (for_each_invariant (λ carried, graph_of true x0 (fst carried)));
    [| |exact Hloop]; [|exact Hgraph].
  intros layer [s2 z2] [s3 z3] Hs2 Hstep. cbn [fst] in *.
  apply layer_step_layers in Hstep as (r & Htr & Hnames).
  by eapply graph_of_step.
Qed.

Lemma stage_step_graph width depth force_activation force_kernel_size no_se len_config
    (indexed : nat * list BlockSpec) x0 st st' :
  graph_of true x0 st →
  stage_step width depth force_activation force_kernel_size no_se bn_epsilon padding
    len_config indexed st
  = Return st' →
  graph_of true x0 st'.
Proof.
  intros Hgraph. destruct indexed as [stage cfg]. unfold stage_step.
  match goal with |- context [for_each ?body ?l ?s0] =>
    destruct (for_each body l s0) as [st1|e] eqn:Hloop end;
    cbn [mbind outcome_bind]; [|done].
  intros [= <-]. unfold graph_of. cbn [st_x st_trace].
  eapply (for_each_invariant (graph_of true x0)); [|exact Hgraph|exact Hloop].
  intros indexed s2 s3. apply block_step_graph.
Qed.

(** The layers after the block loops. *)
Lemma build_blocks_graph width depth fix_stem_and_head_channels _config force_activation
    force_kernel_size no_se x st :
  build_blocks width depth fix_stem_and_head_channels _config force_activation
    force_kernel_size no_se bn_epsilon padding x
  = Return st →
  graph_of true x st.
Proof.
  unfold build_blocks. cbv zeta. intros Hloop.
  eapply (for_each_invariant (graph_of true x)); [| |exact Hloop].
  - intros indexed s2 s3. apply stage_step_graph.
  - unfold graph_of. reflexivity.
Qed.

End GraphNames.

(** The [if self._pooling == "avg" ... elif self._pooling == "max"] chain. *)
Lemma pooling_dispatch {A} (pooling : option string) (a b c : A) :
  match pooling with Some "avg" => a | Some "max" => b | _ => c end
  = if decide (pooling = Some "avg") then a
    else if decide (pooling = Some "max") then b else c.
Proof.
  destruct (decide (pooling = Some "avg")) as [->|Havg]; [reflexivity|].
  destruct (decide (pooling = Some "max")) as [->|Hmax]; [reflexivity|].
  repeat case_match; subst; congruence.
Qed.

(** The layers of the head of the current module. *)
Lemma head_layers (props : base_props) (x : tensor) (conv_head_channels : Z)
    (head_activation : string) :
  layer_names
    (if include_top props then
       build_top x (classes props) (classifier_activation props) (dropout_rate props)
         conv_head_channels head_activation
     else
       match pooling props with
       | Some "avg" => Layer (GlobalAveragePooling2D "avg_pool" false) x
       | Some "max" => Layer (GlobalMaxPooling2D "max_pool") x
       | _ => x
       end)
  = layer_names x ++ head_layer_names props.
Proof.
  unfold head_layer_names, build_top. rewrite pooling_dispatch.
  destruct (include_top props).
  - cbn [layer_names keras_layer_name]. rewrite <- !app_assoc. reflexivity.
  - repeat case_decide; cbn [layer_names keras_layer_name]; by rewrite ?app_nil_r.
Qed.

(** How a construction on a built-in name ends: it returns, with the log and
    the taps of the block loops, exactly when no two of its layers have the
    same name, and raises [ValueError] otherwise. *)
Lemma MobileNetV3_init_outcome (width depth : Q) (fix_stem_and_head_channels : bool)
    (config : string) (minimal : bool) (bn_epsilon : Q) (padding : option string)
    (props : base_props) (x : tensor) (table : list (list BlockSpec)) :
  (config, table) ∈ builtin_configs →
  (NoDup (created_layer_names true
            (table_records width depth (fst (fst (minimal_settings minimal)))
               (snd (fst (minimal_settings minimal))) (snd (minimal_settings minimal))
               (length table) table)
            props) →
   ∃ m,
     MobileNetV3_init width depth fix_stem_and_head_channels config minimal bn_epsilon
       padding props x
     = Return m
     ∧ trace m
       = table_records width depth (fst (fst (minimal_settings minimal)))
           (snd (fst (minimal_settings minimal))) (snd (minimal_settings minimal))
           (length table) table
     ∧ keys (features m)
       = "STEM_S2"
         :: map (λ j, tap_key j (stride_after j (trace m))) (seq 0 (length table)))
  ∧ (¬ NoDup (created_layer_names true
                (table_records width depth (fst (fst (minimal_settings minimal)))
                   (snd (fst (minimal_settings minimal))) (snd (minimal_settings minimal))
                   (length table) table)
                props) →
     ∃ msg,
       MobileNetV3_init width depth fix_stem_and_head_channels config minimal bn_epsilon
         padding props x
       = Raise (ValueError msg)).
Proof.
  intros Hin. unfold MobileNetV3_init.
  assert (∃ h, select_config config = Return (table, h)) as [h ->].
  { unfold builtin_configs in Hin.
    repeat (apply elem_of_cons in Hin as [[= -> ->]|Hin]; [eexists; reflexivity|]).
    by apply elem_of_nil in Hin. }
  cbn [mbind outcome_bind]. cbv zeta.
  destruct (build_blocks_returns width depth fix_stem_and_head_channels table
              (fst (fst (minimal_settings minimal))) (snd (fst (minimal_settings minimal)))
              (snd (minimal_settings minimal)) bn_epsilon padding x)
    as (st & Hrun & Htr & _ & Hkeys).
  pose proof (build_blocks_graph _ _ _ _ _ _ _ _ _ _ _ Hrun) as Hgraph.
  rewrite Hrun. cbn [mbind outcome_bind]. rewrite <- Htr.
  match goal with |- context [functional_model_init x ?y] =>
    destruct (functional_model_init_spec x y (created_layer_names true (st_trace st) props))
      as [Hunique Hrepeated]
  end.
  { rewrite head_layers, Hgraph. unfold created_layer_names.
    by rewrite <- app_assoc. }
  split.
  - intros Hnodup. rewrite (Hunique Hnodup). cbn [mbind outcome_bind].
    eexists. split; [reflexivity|]. cbn [trace features]. done.
  - intros Hdup. destruct (Hrepeated Hdup) as [msg ->]. cbn [mbind outcome_bind]. eauto.
Qed.

(** ** When the names of the layers are distinct *)

Lemma string_app_assoc (a b c : string) : (a +:+ b) +:+ c = a +:+ (b +:+ c).
Proof. induction a as [|x a IH]; [done|]. rewrite !append_cons. by rewrite IH. Qed.

Lemma string_app_empty_r (a : string) : a +:+ "" = a.
Proof. induction a as [|x a IH]; [done|]. rewrite append_cons. by rewrite IH. Qed.

Lemma flat_map_bind {A B} (f : A → list B) (l : list A) : flat_map f l = l ≫= f.
Proof. induction l as [|a l IH]; [done|]. cbn. by rewrite IH. Qed.

(** Two indexed groups with a common element are the same group. *)
Lemma NoDup_flat_map {A B} (f : A → list B) (l : list A) :
  NoDup l → (∀ a, a ∈ l → NoDup (f a)) →
  (∀ a1 a2 y, a1 ∈ l → a2 ∈ l → y ∈ f a1 → y ∈ f a2 → a1 = a2) →
  NoDup (flat_map f l).
Proof. intros Hl Hf Hcross. rewrite flat_map_bind. by apply NoDup_bind. Qed.

Lemma NoDup_flat_map_groups {A B} (f : A → list B) (l : list A) (a1 a2 : A) (y : B) :
  NoDup (flat_map f l) → a1 ∈ l → a2 ∈ l → y ∈ f a1 → y ∈ f a2 → a1 = a2.
Proof.
  induction l as [|a l IH]; cbn [flat_map]; [by intros _ ?%elem_of_nil|].
  intros (Hfa & Hdisjoint & Hrest)%NoDup_app Ha1 Ha2 Hy1 Hy2.
  assert (∀ a', a' ∈ l → y ∈ f a' → y ∈ flat_map f l) as Hin.
  { intros a' Ha' Hy. apply list_elem_of_In, in_flat_map. exists a'.
    split; by apply list_elem_of_In. }
  apply elem_of_cons in Ha1 as [->|Ha1]; apply elem_of_cons in Ha2 as [->|Ha2].
  - done.
  - destruct (Hdisjoint y Hy1). by apply (Hin a2).
  - destruct (Hdisjoint y Hy2). by apply (Hin a1).
  - by apply IH.
Qed.

Lemma NoDup_enumerate_from {A} (k : nat) (l : list A) : NoDup (enumerate_from k l).
Proof.
  revert k. induction l as [|a l IH]; intros k; cbn [enumerate_from]; constructor.
  - intros (j & Hj & _)%elem_of_enumerate_from. lia.
  - apply IH.
Qed.

(** The layers of an iteration are named after it, each with an ending of
    its own. *)
Lemma record_layer_names_suffixes (dsa_known : bool) (r : layer_record) :
  ∃ suffixes,
    NoDup suffixes ∧ (∀ suffix, suffix ∈ suffixes → suffix ∈ layer_suffixes)
    ∧ record_layer_names dsa_known r = (λ suffix, lr_name r +:+ suffix) <$> suffixes.
Proof.
  unfold record_layer_names, layer_suffixes. cbv zeta.
  destruct (String.eqb (lr_type r) "ds" || dsa_known && String.eqb (lr_type r) "dsa");
    [|destruct (String.eqb (lr_type r) "ir"); [|destruct (String.eqb (lr_type r) "cn")]];
    try destruct (Qltb 0 (lr_se r)).
  - exists ["_conv_dw"; "_se"; "_conv_pw"]. split_and!; [compute_done|set_solver|done].
  - exists ["_conv_dw"; "_conv_pw"]. split_and!; [compute_done|set_solver|done].
  - exists ["_conv_pw"; "_conv_dw"; "_se"; "_conv_pwl"].
    split_and!; [compute_done|set_solver|done].
  - exists ["_conv_pw"; "_conv_dw"; "_conv_pwl"].
    split_and!; [compute_done|set_solver|done].
  - exists [""]. split_and!; [compute_done|set_solver|].
    cbn. by rewrite string_app_empty_r.
  - exists [""]. split_and!; [compute_done|set_solver|].
    cbn. by rewrite string_app_empty_r.
  - exists []. split_and!; [constructor|set_solver|done].
  - exists []. split_and!; [constructor|set_solver|done].
Qed.

Lemma record_layer_names_NoDup (dsa_known : bool) (r : layer_record) :
  NoDup (record_layer_names dsa_known r).
Proof.
  destruct (record_layer_names_suffixes dsa_known r) as (suffixes & Hnodup & _ & ->).
  apply NoDup_fmap_2; [|done]. apply String.app_inj.
Qed.

(** A numeral followed by an ending splits in one way only. *)
Lemma numeral_suffix_inj (u v suffix suffix' : string) :
  "_"%char ∉ PyString.chars u → "_"%char ∉ PyString.chars v →
  suffix ∈ layer_suffixes → suffix' ∈ layer_suffixes →
  u +:+ suffix = v +:+ suffix' → u = v ∧ suffix = suffix'.
Proof.
  intros Hu Hv Hs Hs' Heq.
  assert (∀ t, t ∈ layer_suffixes → t = "" ∨ ∃ t', t = String "_" t') as Hshape.
  { intros t Ht. unfold layer_suffixes in Ht.
    repeat (apply elem_of_cons in Ht as [->|Ht]; [eauto|]). by apply elem_of_nil in Ht. }
  destruct (Hshape _ Hs) as [->|[t ->]], (Hshape _ Hs') as [->|[t' ->]].
  - rewrite !string_app_empty_r in Heq. done.
  - rewrite string_app_empty_r in Heq. subst u. destruct Hu.
    rewrite chars_append. cbn. apply elem_of_app. right. left.
  - rewrite string_app_empty_r in Heq. subst v. destruct Hv.
    rewrite chars_append. cbn. apply elem_of_app. right. left.
  - assert (u = v) as -> by (by eapply split_at_underscore).
    by apply String.app_inj in Heq.
Qed.

(** The name of a layer tells the stage, the sum of row index and repetition,
    and the ending. *)
Lemma block_layer_name_inj (stage block layer stage' block' layer' : nat)
    (suffix suffix' : string) :
  suffix ∈ layer_suffixes → suffix' ∈ layer_suffixes →
  block_name stage block layer +:+ suffix = block_name stage' block' layer' +:+ suffix' →
  stage = stage' ∧ (block + layer = block' + layer')%nat ∧ suffix = suffix'.
Proof.
  intros Hs Hs'. unfold block_name. rewrite !string_app_assoc.
  intros Heq%(inj (String.app "blocks_")).
  assert (pretty stage = pretty stage') as Hstage.
  { eapply split_at_underscore; [apply pretty_nat_no_underscore..|exact Heq]. }
  rewrite Hstage in Heq. apply (inj (String.app _)) in Heq.
  apply (inj (String.app "_")) in Heq.
  apply numeral_suffix_inj in Heq as [Hsum ->];
    [|apply pretty_nat_no_underscore..|done|done].
  split_and!; [by apply (inj pretty)|by apply (inj pretty)|done].
Qed.

Section UniqueNames.

Context (width depth : Q).
Context (force_activation : option string) (force_kernel_size : option Z) (no_se : bool).
Context (table : list (list BlockSpec)).

Local Abbreviation record_of' :=
  (record_of width force_activation force_kernel_size no_se).
Local Abbreviation block_records' :=
  (block_records width depth force_activation force_kernel_size no_se (length table)).
Local Abbreviation stage_records' :=
  (stage_records width depth force_activation force_kernel_size no_se (length table)).
Local Abbreviation table_records' :=
  (table_records width depth force_activation force_kernel_size no_se (length table)).

(** The log of a table holds every iteration once. *)
Lemma table_records_NoDup (rows : list (list BlockSpec)) : NoDup (table_records' rows).
Proof.
  unfold table_records. apply NoDup_flat_map.
  - apply NoDup_enumerate_from.
  - intros [i cfg] _. unfold stage_records. cbn [fst snd]. apply NoDup_flat_map.
    + apply NoDup_enumerate_from.
    + intros [j b] _. unfold block_records. cbn [fst snd].
      apply (NoDup_fmap_2_strong (record_of' i j b)); [|apply NoDup_seq].
      intros layer layer' _ _ Heq. by apply (f_equal lr_layer) in Heq.
    + intros [j b] [j' b'] r Hjb%elem_of_enumerate Hjb'%elem_of_enumerate.
      unfold block_records. cbn [fst snd].
      intros (l & -> & _)%list_elem_of_fmap (l' & Heq & _)%list_elem_of_fmap.
      apply (f_equal lr_block) in Heq. cbn in Heq. subst j'.
      rewrite Hjb in Hjb'. by injection Hjb' as ->.
  - intros [i cfg] [i' cfg'] r Hicfg%elem_of_enumerate Hicfg'%elem_of_enumerate.
    intros (j & b & l & _ & _ & ->)%elem_of_stage_records
           (j' & b' & l' & _ & _ & Heq)%elem_of_stage_records.
    apply (f_equal lr_stage) in Heq. cbn in Heq. subst i'.
    rewrite Hicfg in Hicfg'. by injection Hicfg' as ->.
Qed.

(** When no row that is followed by another is run twice, the layers of the
    block loops have pairwise distinct names. *)
Lemma block_layer_names_NoDup (dsa_known : bool) :
  followed_rows_run_once depth table →
  NoDup (flat_map (record_layer_names dsa_known) (table_records' table)).
Proof.
  intros Honce. apply NoDup_flat_map.
  - apply table_records_NoDup.
  - intros r _. apply record_layer_names_NoDup.
  - intros r1 r2 y Hr1 Hr2 Hy1 Hy2.
    apply elem_of_table_records in Hr1 as (i1 & cfg1 & j1 & b1 & l1 & Hcfg1 & Hb1 & Hl1 & ->).
    apply elem_of_table_records in Hr2 as (i2 & cfg2 & j2 & b2 & l2 & Hcfg2 & Hb2 & Hl2 & ->).
    destruct (record_layer_names_suffixes dsa_known (record_of' i1 j1 b1 l1))
      as (suffixes1 & _ & Hs1 & Heq1).
    destruct (record_layer_names_suffixes dsa_known (record_of' i2 j2 b2 l2))
      as (suffixes2 & _ & Hs2 & Heq2).
    rewrite Heq1 in Hy1. rewrite Heq2 in Hy2.
    apply list_elem_of_fmap in Hy1 as (suffix1 & -> & Hsuffix1).
    apply list_elem_of_fmap in Hy2 as (suffix2 & Hname & Hsuffix2).
    cbn [record_of lr_name] in Hname.
    apply block_layer_name_inj in Hname as (<- & Hsum & _); [|by auto..].
    rewrite Hcfg1 in Hcfg2. injection Hcfg2 as <-.
    pose proof (Honce cfg1 j1 b1 (list_elem_of_lookup_2 _ _ _ Hcfg1) Hb1) as Honce1.
    pose proof (Honce cfg1 j2 b2 (list_elem_of_lookup_2 _ _ _ Hcfg1) Hb2) as Honce2.
    pose proof (lookup_lt_Some _ _ _ Hb1) as Hlt1.
    pose proof (lookup_lt_Some _ _ _ Hb2) as Hlt2.
    assert (j1 = j2 ∧ l1 = l2) as [<- <-].
    { destruct (decide (S j1 < length cfg1)%nat) as [Hf1|Hf1];
        destruct (decide (S j2 < length cfg1)%nat) as [Hf2|Hf2];
        try specialize (Honce1 Hf1); try specialize (Honce2 Hf2); lia. }
    rewrite Hb1 in Hb2. by injection Hb2 as <-.
Qed.

(** The stem and the head never share a name with a block. *)
Lemma created_layer_names_NoDup (dsa_known : bool) (props : base_props) :
  NoDup (flat_map (record_layer_names dsa_known) (table_records' table)) ↔
  NoDup (created_layer_names dsa_known (table_records' table) props).
Proof.
  unfold created_layer_names.
  assert (∀ y, y ∈ flat_map (record_layer_names dsa_known) (table_records' table) →
               ∃ rest, y = String "b" rest) as Hblock.
  { intros y (r & Hr & Hy)%list_elem_of_In%in_flat_map.
    apply list_elem_of_In, elem_of_table_records in Hr
      as (i & cfg & j & b & l & _ & _ & _ & ->).
    destruct (record_layer_names_suffixes dsa_known (record_of' i j b l))
      as (suffixes & _ & _ & Heq).
    rewrite Heq in Hy. apply list_elem_of_In, list_elem_of_fmap in Hy as (suffix & -> & _).
    eexists. cbn [record_of lr_name]. unfold block_name.
    rewrite !append_cons. reflexivity. }
  assert (NoDup (head_layer_names props)
          ∧ ∀ y, y ∈ "conv_stem" :: head_layer_names props → ∀ rest, y ≠ String "b" rest)
    as [Hhead Hother].
  { unfold head_layer_names. destruct (include_top props); [|repeat case_decide].
    all: split; [compute_done|].
    all: intros y Hy rest; repeat (apply elem_of_cons in Hy as [->|Hy]; [discriminate|]).
    all: by apply elem_of_nil in Hy. }
  rewrite NoDup_cons, NoDup_app. split.
  - intros Hblocks. split_and!; [| done | | done].
    + intros [Hin|Hin]%elem_of_app.
      * destruct (Hblock _ Hin) as [rest Heq]. discriminate.
      * assert (NoDup ("conv_stem" :: head_layer_names props)) as Hnd; [|by inversion Hnd].
        unfold head_layer_names. destruct (include_top props); repeat case_decide;
          compute_done.
    + intros y Hy Hy'. destruct (Hblock _ Hy) as [rest ->].
      by apply (Hother _ (list_elem_of_further _ _ _ Hy') rest).
  - by intros (_ & Hblocks & _).
Qed.

End UniqueNames.

(** ** The built-in tables *)

Lemma Qceiling_le_1 (q : Q) : (q <= 1)%Q → Qceiling q ≤ 1.
Proof. intros Hq. apply Qceiling_resp_le in Hq. exact Hq. Qed.

Lemma Qceiling_gt (q : Q) (z : Z) : (inject_Z z < q)%Q → z < Qceiling q.
Proof.
  intros Hq. rewrite Zlt_Qlt. eapply Qlt_le_trans; [exact Hq|apply Qle_ceiling].
Qed.

(** In the small and the LCNet table a row that is followed by another is
    the first of its stage and asks for one repetition; in the large table
    this holds but for row 1 of stage 3, which is run [ceil(depth)] times. *)
Lemma builtin_followed_rows_run_once (depth : Q) (config : string)
    (table : list (list BlockSpec)) :
  (config, table) ∈ builtin_configs →
  (config = "large" → (depth <= 1)%Q) →
  followed_rows_run_once depth table.
Proof.
  intros Hin Hlarge cfg j b Hcfg Hb Hfollowed.
  assert (j = 0%nat ∧ b_r b = 1
          ∨ config = "large" ∧ depth_scaled j (length table) = true ∧ b_r b = 1)
    as [[-> Hr]|(Hconfig & Hscaled & Hr)].
  { unfold builtin_configs in Hin.
    repeat (apply elem_of_cons in Hin as [[= -> ->]|Hin];
            [repeat (apply elem_of_cons in Hcfg as [->|Hcfg];
                     [repeat (destruct j as [|j]; cbn in Hb, Hfollowed;
                              [injection Hb as <-; try lia; auto|]);
                      try lia; try done|]);
             by apply elem_of_nil in Hcfg|]).
    by apply elem_of_nil in Hin. }
  - unfold effective_r. change (depth_scaled 0 (length table)) with false.
    cbv iota. lia.
  - unfold effective_r. rewrite Hscaled, Hr. apply Qceiling_le_1.
    rewrite Qmult_1_l. by apply Hlarge.
Qed.

(** On a built-in name, at a depth of at most 1 for the large table, no two
    layers have the same name. *)
Lemma builtin_layer_names_NoDup (width depth : Q) (force_activation : option string)
    (force_kernel_size : option Z) (no_se dsa_known : bool) (props : base_props)
    (config : string) (table : list (list BlockSpec)) :
  (config, table) ∈ builtin_configs →
  (config = "large" → (depth <= 1)%Q) →
  NoDup (created_layer_names dsa_known
           (table_records width depth force_activation force_kernel_size no_se
              (length table) table)
           props).
Proof.
  intros Hin Hlarge. apply created_layer_names_NoDup, block_layer_names_NoDup.
  by eapply builtin_followed_rows_run_once.
Qed.

Lemma inverted_residual_layer_name (dsa_known : bool) (r : layer_record) :
  lr_type r = "ir" → lr_name r +:+ "_conv_pw" ∈ record_layer_names dsa_known r.
Proof.
  intros Htype. unfold record_layer_names. cbv zeta. rewrite Htype.
  change (String.eqb "ir" "ds") with false. change (String.eqb "ir" "dsa") with false.
  change (String.eqb "ir" "ir") with true. rewrite andb_false_r. cbn [orb].
  apply list_elem_of_here.
Qed.

(** With a depth above 1 the large table repeats row 1 of stage 3, whose
    second repetition is named as the first of row 2: two layers
    ["blocks_3_2_conv_pw"]. *)
Lemma large_layer_names_repeat (width depth : Q) (force_activation : option string)
    (force_kernel_size : option Z) (no_se dsa_known : bool) (props : base_props) :
  (1 < depth)%Q →
  ¬ NoDup (created_layer_names dsa_known
             (table_records width depth force_activation force_kernel_size no_se
                (length DEFAULT_LARGE_CONFIG) DEFAULT_LARGE_CONFIG)
             props).
Proof.
  intros Hdepth Hnodup%created_layer_names_NoDup.
  set (b1 := row "ir" 1 3 1 (5 # 2) 80 0 "hard_swish").
  set (b2 := row "ir" 2 3 1 (23 # 10) 80 0 "hard_swish").
  set (r1 := record_of width force_activation force_kernel_size no_se 3 1 b1 1).
  set (r2 := record_of width force_activation force_kernel_size no_se 3 2 b2 0).
  assert (r1 = r2) as Heq; [|by apply (f_equal lr_block) in Heq].
  apply (NoDup_flat_map_groups _ _ r1 r2 "blocks_3_2_conv_pw" Hnodup).
  - apply elem_of_table_records. eexists 3%nat, _, 1%nat, b1, 1%nat.
    split_and!; [reflexivity|reflexivity| |reflexivity].
    unfold effective_r. change (depth_scaled 1 (length DEFAULT_LARGE_CONFIG)) with true.
    cbv iota. assert (1 < Qceiling (inject_Z (b_r b1) * depth)); [|lia].
    apply Qceiling_gt. cbn [b_r b1 row]. by rewrite Qmult_1_l.
  - apply elem_of_table_records. eexists 3%nat, _, 2%nat, b2, 0%nat.
    split_and!; [reflexivity|reflexivity| |reflexivity].
    unfold effective_r. change (depth_scaled 2 (length DEFAULT_LARGE_CONFIG)) with true.
    cbv iota. assert (0 < Qceiling (inject_Z (b_r b2) * depth)); [|lia].
    apply Qceiling_gt. cbn [b_r b2 row].
    apply Qmult_lt_0_compat; [done|]. by eapply Qlt_trans; [|exact Hdepth].
  - replace "blocks_3_2_conv_pw" with (lr_name r1 +:+ "_conv_pw")
      by (vm_compute; reflexivity).
    by apply inverted_residual_layer_name.
  - replace "blocks_3_2_conv_pw" with (lr_name r2 +:+ "_conv_pw")
      by (vm_compute; reflexivity).
    by apply inverted_residual_layer_name.
Qed.

(** ** The earlier module: loops and errors *)

Section LegacyLoops.

Context (width depth : Q).
Context (force_activation : option string) (force_kernel_size : option Z) (no_se : bool).
Context (len_config : nat).

Local Abbreviation legacy_stage_records :=
  (stage_records width depth force_activation force_kernel_size no_se len_config).










End LegacyLoops.











(** ** The compiler: tap keys by the rows' strides *)

Section RowStrides.

Context (width depth : Q).
Context (force_activation : option string) (force_kernel_size : option Z) (no_se : bool).
Context (len_config : nat).

Local Abbreviation record_of' :=
  (record_of width force_activation force_kernel_size no_se).
Local Abbreviation block_records' :=
  (block_records width depth force_activation force_kernel_size no_se len_config).
Local Abbreviation stage_records' :=
  (stage_records width depth force_activation force_kernel_size no_se len_config).

(** A row whose stride matters is run at least once. *)
Local Abbreviation row_runs j b :=
  (b_s b = 1 ∨ 1 ≤ effective_r depth len_config j b).

Lemma product_app (l1 l2 : list Z) :
  foldr Z.mul 1 (l1 ++ l2) = foldr Z.mul 1 l1 * foldr Z.mul 1 l2.
Proof. induction l1 as [|z l1 IH]; cbn; [by destruct (foldr Z.mul 1 l2)|rewrite IH; lia]. Qed.

Lemma strides_product_later (stage block : nat) (b : BlockSpec) (n a : nat) :
  (0 < a)%nat → strides_product (map (record_of' stage block b) (seq a n)) = 1.
Proof.
  revert a. induction n as [|n IH]; intros a Ha; [done|].
  cbn [seq map]. change (strides_product (?r :: ?l)) with (lr_s r * strides_product l).
  rewrite IH by lia. cbn [record_of lr_s]. destruct a; [lia|]. reflexivity.
Qed.

Lemma strides_product_block (stage block : nat) (b : BlockSpec) :
  row_runs block b →
  strides_product (block_records' stage (block, b)) = b_s b.
Proof.
  intros Hruns. unfold block_records. cbn [fst snd].
  destruct (Z.to_nat (effective_r depth len_config block b)) as [|n] eqn:Hn.
  - destruct Hruns as [->|Hr]; [done|lia].
  - cbn [seq map]. change (strides_product (?r :: ?l)) with (lr_s r * strides_product l).
    rewrite strides_product_later by lia. cbn [record_of lr_s Nat.eqb]. lia.
Qed.

Lemma strides_product_rows (stage : nat) (cfg : list BlockSpec) (j : nat) :
  (∀ k b, cfg !! k = Some b → row_runs (j + k)%nat b) →
  strides_product (flat_map (block_records' stage) (enumerate_from j cfg))
  = foldr Z.mul 1 (b_s <$> cfg).
Proof.
  revert j. induction cfg as [|b cfg IH]; intros j Hruns; [done|].
  cbn [enumerate_from flat_map fmap list_fmap foldr].
  rewrite strides_product_app, strides_product_block, IH.
  - reflexivity.
  - intros k b' Hb'. replace (S j + k)%nat with (j + S k)%nat by lia.
    by apply Hruns.
  - replace j with (j + 0)%nat by lia. by apply Hruns.
Qed.

Lemma strides_product_stages (table : list (list BlockSpec)) (i t : nat) :
  (∀ cfg j b, cfg ∈ table → cfg !! j = Some b → row_runs j b) →
  strides_product
    (filter (λ r, (lr_stage r ≤ t)%nat) (flat_map stage_records' (enumerate_from i table)))
  = foldr Z.mul 1 (b_s <$> concat (take (S t - i) table)).
Proof.
  revert i. induction table as [|cfg table IH]; intros i Hruns.
  { by rewrite take_nil. }
  cbn [enumerate_from flat_map].
  rewrite filter_app, strides_product_app, IH
    by (intros cfg' j b Hcfg'; apply Hruns; by right).
  pose proof (stage_records_stage width depth force_activation force_kernel_size no_se
                len_config i cfg) as Hstage.
  destruct (decide (i ≤ t)%nat) as [Hle|Hgt].
  - rewrite filter_all.
    2:{ intros r Hr. rewrite Forall_forall in Hstage. rewrite (Hstage r Hr). done. }
    replace (S t - i)%nat with (S (S t - S i)) by lia.
    cbn [take concat]. rewrite fmap_app, product_app. f_equal.
    unfold stage_records, enumerate. cbn [fst snd].
    apply strides_product_rows. intros k b Hb. apply (Hruns cfg); [by left|done].
  - rewrite filter_none.
    2:{ intros r Hr. rewrite Forall_forall in Hstage. rewrite (Hstage r Hr). lia. }
    replace (S t - i)%nat with 0%nat by lia.
    replace (S t - S i)%nat with 0%nat by lia. done.
Qed.

Lemma stride_after_table_records (table : list (list BlockSpec)) (t : nat) :
  (∀ cfg j b, cfg ∈ table → cfg !! j = Some b → row_runs j b) →
  stride_after t
    (table_records width depth force_activation force_kernel_size no_se len_config table)
  = table_stride_after t table.
Proof.
  intros Hruns. unfold stride_after, table_stride_after, table_records, enumerate.
  rewrite strides_product_stages by done. by rewrite Nat.sub_0_r.
Qed.

(** With a positive multiplier every row that asks for a repetition gets
    one. *)
Lemma effective_r_positive (j : nat) (b : BlockSpec) :
  (0 < depth)%Q → 1 ≤ b_r b → 1 ≤ effective_r depth len_config j b.
Proof.
  intros Hdepth Hr. unfold effective_r. destruct (depth_scaled j len_config); [|done].
  assert (0 < inject_Z (Qceiling (inject_Z (b_r b) * depth)))%Q as Hpos.
  { eapply Qlt_le_trans; [|apply Qle_ceiling].
    apply Qmult_lt_0_compat; [|done]. change 0%Q with (inject_Z 0).
    rewrite <- Zlt_Qlt. lia. }
  change 0%Q with (inject_Z 0) in Hpos. rewrite <- Zlt_Qlt in Hpos. lia.
Qed.

End RowStrides.

(** X20.  With a positive depth multiplier and a table whose rows all ask for
    at least one repetition, the tap keys are decided by the rows' strides
    alone: the key of stage [j] carries 2 times the product of the strides of
    all rows of the stages up to [j].  Neither the width, the depth, the
    repeats, the overrides of minimal mode nor [bn_epsilon] and [padding]
    change a key. *)
Theorem tap_keys_by_row_strides (width depth : Q) (fix_stem_and_head_channels : bool)
    (_config : list (list BlockSpec)) (force_activation : option string)
    (force_kernel_size : option Z) (no_se : bool) (bn_epsilon : Q)
    (padding : option string) (x : tensor) :
  (0 < depth)%Q → positive_repeats _config →
  ∃ st,
    build_blocks width depth fix_stem_and_head_channels _config force_activation
      force_kernel_size no_se bn_epsilon padding x
    = Return st
    ∧ keys (st_features st)
      = "STEM_S2"
        :: map (λ j, "BLOCK" +:+ pretty j +:+ "_S" +:+ pretty (table_stride_after j _config))
             (seq 0 (length _config)).
Proof.
  intros Hdepth Hrepeats.
  destruct (build_blocks_returns width depth fix_stem_and_head_channels _config
              force_activation force_kernel_size no_se bn_epsilon padding x)
    as (st & Hrun & Htr & _ & Hkeys).
  exists st. split; [exact Hrun|]. rewrite Hkeys. f_equal.
  apply map_ext. intros j. unfold tap_key. do 4 f_equal. rewrite Htr.
  apply stride_after_table_records. intros cfg k b Hcfg Hb. right.
  apply effective_r_positive; [done|].
  unfold positive_repeats in Hrepeats. rewrite Forall_forall in Hrepeats.
  specialize (Hrepeats cfg Hcfg). rewrite Forall_forall in Hrepeats.
  apply Hrepeats. by eapply list_elem_of_lookup_2.
Qed.

Lemma tap_keys_by_row_strides_witness :
  ∃ st,
    build_blocks (1 # 2) (3 # 2) false strides_by_repetition (Some "relu") (Some 3) true
      (1 # 1000) (Some "same") (Input 3)
    = Return st
    ∧ keys (st_features st)
      = "STEM_S2"
        :: map (λ j, "BLOCK" +:+ pretty j +:+ "_S"
                       +:+ pretty (table_stride_after j strides_by_repetition))
             (seq 0 (length strides_by_repetition)).
Proof.
  apply (tap_keys_by_row_strides (1 # 2) (3 # 2) false strides_by_repetition (Some "relu")
           (Some 3) true (1 # 1000) (Some "same") (Input 3)).
  - reflexivity.
  - unfold positive_repeats, strides_by_repetition. repeat constructor; discriminate.
Defined.

(** ** The built-in tables and the model classes *)

Lemma strided_rows_lead_run (depth : Q) (len_config : nat) (table : list (list BlockSpec))
    (cfg : list BlockSpec) (j : nat) (b : BlockSpec) :
  strided_rows_lead table = true → cfg ∈ table → cfg !! j = Some b →
  b_s b = 1 ∨ 1 ≤ effective_r depth len_config j b.
Proof.
  unfold strided_rows_lead. rewrite forallb_forall. intros Hall Hcfg Hb.
  specialize (Hall cfg (proj1 (list_elem_of_In _ _) Hcfg)).
  rewrite forallb_forall in Hall.
  specialize (Hall (j, b) (proj1 (list_elem_of_In _ _) (proj2 (elem_of_enumerate _ _ _) Hb))).
  cbn [fst snd] in Hall. destruct j as [|j]; cbn [Nat.eqb] in Hall.
  - right. unfold effective_r. change (depth_scaled 0 len_config) with false.
    cbv iota. lia.
  - left. lia.
Qed.

(** The construction on a built-in name: with distinct layer names it
    returns, with the tap keys the strides of the table give, whatever the
    depth multiplier; with a repeated name it raises [ValueError]. *)
Lemma MobileNetV3_init_keys (width depth : Q) (fix_stem_and_head_channels : bool)
    (config : string) (minimal : bool) (bn_epsilon : Q) (padding : option string)
    (props : base_props) (x : tensor) (expected : list string) :
  (config, expected) ∈ builtin_keys →
  ∃ table,
    (config, table) ∈ builtin_configs
    ∧ (NoDup (created_layer_names true
                (table_records width depth (fst (fst (minimal_settings minimal)))
                   (snd (fst (minimal_settings minimal))) (snd (minimal_settings minimal))
                   (length table) table)
                props) →
       ∃ m,
         MobileNetV3_init width depth fix_stem_and_head_channels config minimal bn_epsilon
           padding props x
         = Return m
         ∧ keys (features m) = expected)
    ∧ (¬ NoDup (created_layer_names true
                  (table_records width depth (fst (fst (minimal_settings minimal)))
                     (snd (fst (minimal_settings minimal)))
                     (snd (minimal_settings minimal)) (length table) table)
                  props) →
       ∃ msg,
         MobileNetV3_init width depth fix_stem_and_head_channels config minimal bn_epsilon
           padding props x
         = Raise (ValueError msg)).
Proof.
  intros Hin.
  assert (∃ table,
            (config, table) ∈ builtin_configs
            ∧ strided_rows_lead table = true
            ∧ "STEM_S2"
              :: map (λ j, tap_key j (table_stride_after j table)) (seq 0 (length table))
              = expected) as (table & Htable & Hlead & <-).
  { unfold builtin_keys in Hin. unfold builtin_configs.
    apply elem_of_cons in Hin as [[= -> ->]|Hin];
      [exists DEFAULT_SMALL_CONFIG; split_and!;
         [apply list_elem_of_here|vm_compute; reflexivity..]|].
    apply elem_of_cons in Hin as [[= -> ->]|Hin];
      [exists DEFAULT_LARGE_CONFIG; split_and!;
         [apply list_elem_of_further, list_elem_of_here|vm_compute; reflexivity..]|].
    apply elem_of_cons in Hin as [[= -> ->]|Hin];
      [exists DEFAULT_LCNET_CONFIG; split_and!;
         [do 2 apply list_elem_of_further; apply list_elem_of_here
         |vm_compute; reflexivity..]|].
    by apply elem_of_nil in Hin. }
  exists table. split; [exact Htable|].
  destruct (MobileNetV3_init_outcome width depth fix_stem_and_head_channels config minimal
              bn_epsilon padding props x table Htable) as [Hunique Hrepeated].
  split; [|exact Hrepeated].
  intros Hnodup. destruct (Hunique Hnodup) as (m & Hm & Htr & Hkeys).
  exists m. split; [exact Hm|]. rewrite Hkeys. f_equal. apply map_ext. intros j.
  f_equal. rewrite Htr. apply stride_after_table_records.
  intros cfg k b Hcfg Hb. by apply (strided_rows_lead_run _ _ table cfg).
Qed.

(** On a built-in name, at a depth of at most 1 for the large table, the
    construction returns with the tap keys of the name. *)
Lemma MobileNetV3_init_builtin_keys (width depth : Q) (fix_stem_and_head_channels : bool)
    (config : string) (minimal : bool) (bn_epsilon : Q) (padding : option string)
    (props : base_props) (x : tensor) (expected : list string) :
  (config, expected) ∈ builtin_keys →
  (config = "large" → (depth <= 1)%Q) →
  ∃ m,
    MobileNetV3_init width depth fix_stem_and_head_channels config minimal bn_epsilon
      padding props x
    = Return m
    ∧ keys (features m) = expected.
Proof.
  intros Hin Hlarge.
  destruct (MobileNetV3_init_keys width depth fix_stem_and_head_channels config minimal
              bn_epsilon padding props x expected Hin) as (table & Htable & Hunique & _).
  apply Hunique. by apply (builtin_layer_names_NoDup _ _ _ _ _ _ _ config).
Qed.

(** With a depth above 1 the construction of the large table raises. *)
Lemma MobileNetV3_init_large_raises (width depth : Q) (fix_stem_and_head_channels : bool)
    (minimal : bool) (bn_epsilon : Q) (padding : option string) (props : base_props)
    (x : tensor) :
  (1 < depth)%Q →
  ∃ msg,
    MobileNetV3_init width depth fix_stem_and_head_channels "large" minimal bn_epsilon
      padding props x
    = Raise (ValueError msg).
Proof.
  intros Hdepth.
  destruct (MobileNetV3_init_outcome width depth fix_stem_and_head_channels "large"
              minimal bn_epsilon padding props x DEFAULT_LARGE_CONFIG) as [_ Hrepeated].
  { unfold builtin_configs. apply list_elem_of_further, list_elem_of_here. }
  apply Hrepeated. by apply large_layer_names_repeat.
Qed.

(** X21.  On a built-in name the construction returns and records the same
    tap keys whatever its other arguments are (the width, the mode, the head
    options, [bn_epsilon], [padding], and the depth multiplier, zero or
    negative included), with one exception: the large table with a depth
    multiplier above 1 gives two layers the same name, and the construction
    ends in [ValueError]. *)
Theorem builtin_tap_keys_fixed (width depth : Q) (fix_stem_and_head_channels : bool)
    (config : string) (minimal : bool) (bn_epsilon : Q) (padding : option string)
    (props : base_props) (x : tensor) (expected : list string) :
  (config, expected) ∈ builtin_keys →
  if bool_decide (config = "large") && negb (Qle_bool depth 1) then
    ∃ msg,
      MobileNetV3_init width depth fix_stem_and_head_channels config minimal bn_epsilon
        padding props x
      = Raise (ValueError msg)
  else
    ∃ m,
      MobileNetV3_init width depth fix_stem_and_head_channels config minimal bn_epsilon
        padding props x
      = Return m
      ∧ keys (features m) = expected.
Proof.
  intros Hin. case_bool_decide as Hconfig; cbn [andb].
  - destruct (Qle_bool depth 1) eqn:Hdepth; cbn [negb].
    + apply MobileNetV3_init_builtin_keys; [done|]. intros _. by apply Qle_bool_iff.
    + subst config. apply MobileNetV3_init_large_raises. apply Qnot_le_lt.
      intros Hle%Qle_bool_iff. congruence.
  - by apply MobileNetV3_init_builtin_keys.
Qed.

Lemma builtin_tap_keys_fixed_witness :
  ∃ m,
    MobileNetV3_init (3 # 4) (5 # 2) true "lcnet" true (1 # 1000) (Some "same") headless
      (Input 3)
    = Return m
    ∧ keys (features m)
      = ["STEM_S2"; "BLOCK0_S2"; "BLOCK1_S4"; "BLOCK2_S8"; "BLOCK3_S16"; "BLOCK4_S16";
         "BLOCK5_S32"].
Proof.
  apply (builtin_tap_keys_fixed (3 # 4) (5 # 2) true "lcnet" true (1 # 1000) (Some "same")
           headless (Input 3)).
  unfold builtin_keys. do 2 apply list_elem_of_further. apply list_elem_of_here.
Defined.

(** [MobileNetV3Variant.__init__] on a subclass, in one equation: the class
    decides the architecture, and [bn_epsilon] and [padding] too where it has
    these attributes. *)
Lemma MobileNetV3Variant_init_unfold (cls : class_attrs) (weights : option string)
    (kwargs : init_kwargs) (props : base_props) (x : tensor) :
  MobileNetV3Variant_init (Some cls) weights kwargs props x
  = Constructed
      (if (length (attr_available_weights cls) =? 0)%nat then
         [ attr_name cls +:+ " doesn't have pretrained weights for '"
           +:+ match weights with Some w => w | None => "None" end +:+ "'." ]
       else [])
      (if (length (attr_available_weights cls) =? 0)%nat then None else weights)
      (MobileNetV3_init (attr_width cls) (attr_depth cls)
         (attr_fix_stem_and_head_channels cls) (attr_config cls)
         (default false (attr_minimal cls))
         (default (1 # 100000)%Q
            (match attr_bn_epsilon cls with
             | Some bn_epsilon => Some bn_epsilon
             | None => kw_bn_epsilon kwargs
             end))
         (match attr_padding cls with
          | Some padding => Some padding
          | None => kw_padding kwargs
          end)
         props x).
Proof.
  unfold MobileNetV3Variant_init, MobileNetV3_call. cbv zeta.
  destruct (attr_minimal cls), (attr_bn_epsilon cls), (attr_padding cls),
    (length (attr_available_weights cls) =? 0)%nat; reflexivity.
Qed.

(** X22.  Every subclass of [MobileNetV3Variant] can be constructed with any
    arguments, and the taps of the network it builds are exactly the
    [available_feature_keys] its class body declares (architecture arguments
    passed by the caller are discarded by [fix_config]).  The construction
    warns about missing weights, and passes [weights=None] on, exactly for
    the class the module registers without a weight tag; for the classes
    registered with ["imagenet"] it passes [weights] on unchanged. *)
Theorem variant_classes_declare_their_taps (default_origin : string) (cls : class_attrs)
    (weights : option string) (kwargs : init_kwargs) (props : base_props) (x : tensor) :
  cls ∈ variant_subclasses default_origin →
  ∃ warned weights' m,
    construct cls weights kwargs props x = Constructed warned weights' (Return m)
    ∧ keys (features m) = attr_available_feature_keys cls
    ∧ ((warned = [] ∧ weights' = weights
        ∧ (as_model_class cls, VStr "imagenet") ∈ module_registrations default_origin)
       ∨ (length warned = 1%nat ∧ weights' = None
          ∧ (as_model_class cls, VNone) ∈ module_registrations default_origin)).
Proof.
  intros Hin.
  assert (attr_base cls = FromMobileNetV3Variant
          ∧ (attr_depth cls <= 1)%Q
          ∧ (attr_config cls, attr_available_feature_keys cls) ∈ builtin_keys
          ∧ ((length (attr_available_weights cls) =? 0)%nat = false
             ∧ (as_model_class cls, VStr "imagenet") ∈ module_registrations default_origin
             ∨ (length (attr_available_weights cls) =? 0)%nat = true
               ∧ (as_model_class cls, VNone) ∈ module_registrations default_origin))
    as (Hbase & Hdepth & Hkeys & Hweights).
  { unfold variant_subclasses in Hin.
    repeat (apply elem_of_cons in Hin as [->|Hin];
            [split; [reflexivity|]; split; [discriminate|]; split;
             [unfold builtin_keys;
              repeat first [apply list_elem_of_here|apply list_elem_of_further]
             |first [left; split; [reflexivity|] | right; split; [reflexivity|]];
              unfold module_registrations;
              repeat first [apply list_elem_of_here|apply list_elem_of_further]]|]).
    by apply elem_of_nil in Hin. }
  unfold construct. rewrite Hbase, MobileNetV3Variant_init_unfold.
  destruct (MobileNetV3_init_builtin_keys (attr_width cls) (attr_depth cls)
              (attr_fix_stem_and_head_channels cls) (attr_config cls)
              (default false (attr_minimal cls))
              (default (1 # 100000)%Q
                 (match attr_bn_epsilon cls with
                  | Some bn_epsilon => Some bn_epsilon
                  | None => kw_bn_epsilon kwargs
                  end))
              (match attr_padding cls with
               | Some padding => Some padding
               | None => kw_padding kwargs
               end)
              props x (attr_available_feature_keys cls) Hkeys (λ _, Hdepth))
    as (m & -> & Hm).
  destruct Hweights as [[-> Hreg]|[-> Hreg]].
  - exists [], weights, m. split_and!; [reflexivity|exact Hm|]. left. done.
  - eexists [_], None, m. split_and!; [reflexivity|exact Hm|]. right. done.
Qed.

Lemma variant_classes_declare_their_taps_witness :
  ∃ warned weights' m,
    construct LCNet035 (Some "imagenet")
      {| kw_width := Some 2%Q; kw_depth := Some 0%Q;
         kw_fix_stem_and_head_channels := Some true; kw_config := Some "small";
         kw_minimal := Some true; kw_bn_epsilon := None; kw_padding := Some "same" |}
      headless (Input 3)
    = Constructed warned weights' (Return m)
    ∧ keys (features m) = attr_available_feature_keys LCNet035
    ∧ ((warned = [] ∧ weights' = Some "imagenet"
        ∧ (as_model_class LCNet035, VStr "imagenet")
          ∈ module_registrations "origin")
       ∨ (length warned = 1%nat ∧ weights' = None
          ∧ (as_model_class LCNet035, VNone) ∈ module_registrations "origin")).
Proof.
  apply (variant_classes_declare_their_taps "origin" LCNet035 (Some "imagenet")
           {| kw_width := Some 2%Q; kw_depth := Some 0%Q;
              kw_fix_stem_and_head_channels := Some true; kw_config := Some "small";
              kw_minimal := Some true; kw_bn_epsilon := None; kw_padding := Some "same" |}
           headless (Input 3)).
  unfold variant_subclasses. do 6 apply list_elem_of_further. apply list_elem_of_here.
Defined.

(** X23.  [LCNet150] derives from [MobileNetV3], not from
    [MobileNetV3Variant], so its class attributes ([width = 1.5],
    [config = "lcnet"]) are not read: constructed without architecture
    arguments it builds the large table at width 1, the very network of
    [MobileNetV3W100Large] on the same preprocessed input, with the 7 stage
    taps its class body declares.  Built with the configuration its
    attributes name it has 6 stage taps, which differ from the declared
    ones. *)
Theorem LCNet150_builds_the_large_table (default_origin : string)
    (weights : option string) (props : base_props) (x : tensor) :
  construct LCNet150 weights no_kwargs props x
  = Constructed [] weights
      (MobileNetV3_init 1 1 false "large" false (1 # 100000) None props x)
  ∧ construct (MobileNetV3W100Large default_origin) weights no_kwargs props x
    = construct LCNet150 weights no_kwargs props x
  ∧ (∃ m,
       MobileNetV3_init 1 1 false "large" false (1 # 100000) None props x = Return m
       ∧ keys (features m) = attr_available_feature_keys LCNet150)
  ∧ ∀ kwargs,
      kw_config kwargs = Some (attr_config LCNet150) →
      ∃ m,
        construct LCNet150 weights kwargs props x
        = Constructed [] weights (Return m)
        ∧ length (keys (features m)) = 7%nat
        ∧ length (attr_available_feature_keys LCNet150) = 8%nat.
Proof.
  split_and!.
  - reflexivity.
  - unfold construct. cbn [attr_base MobileNetV3W100Large LCNet150].
    rewrite MobileNetV3Variant_init_unfold. unfold MobileNetV3_call.
    cbn -[MobileNetV3_init]. reflexivity.
  - apply MobileNetV3_init_builtin_keys; [|discriminate]. unfold builtin_keys.
    apply list_elem_of_further, list_elem_of_here.
  - intros kwargs Hconfig. unfold construct, MobileNetV3_call.
    cbn [attr_base LCNet150 attr_config] in *. rewrite Hconfig.
    change (default "large" (Some "lcnet")) with "lcnet".
    destruct (MobileNetV3_init_builtin_keys (default 1%Q (kw_width kwargs))
                (default 1%Q (kw_depth kwargs))
                (default false (kw_fix_stem_and_head_channels kwargs)) "lcnet"
                (default false (kw_minimal kwargs))
                (default (1 # 100000)%Q (kw_bn_epsilon kwargs)) (kw_padding kwargs)
                props x (declared_keys 6 [2; 4; 8; 16; 16; 32])) as (m & -> & Hm).
    { unfold builtin_keys. do 2 apply list_elem_of_further. apply list_elem_of_here. }
    { discriminate. }
    exists m. rewrite Hm. split_and!; reflexivity.
Qed.

(** ** Registering a batch of classes *)

Lemma run_add_fresh (model_cls : model_class) (weights : pyvalue) (st : py_state) :
  valid_weights weights = true →
  cls_name model_cls ∉ info_name <$> MODEL_REGISTRY st →
  MODEL_REGISTRY (run_call (CallAdd model_cls weights) st)
  = MODEL_REGISTRY st ++ [registered_entry model_cls weights]
  ∧ warnings (run_call (CallAdd model_cls weights) st) = warnings st.
Proof.
  intros Hvalid Hfresh. cbn [run_call]. rewrite add_model_to_registry_unfold. cbv zeta.
  rewrite Hvalid. cbn [snd MODEL_REGISTRY warnings]. split; [reflexivity|].
  rewrite warn_duplicates_spec, filter_none; [by rewrite app_nil_r|].
  intros info Hinfo Hname. apply Hfresh. apply list_elem_of_fmap. eauto.
Qed.

(** X24.  A batch of registrations whose class names are pairwise distinct
    and not yet registered, each with [weights] a string or [None], issues
    no warning and appends one entry per class, in call order, to the
    registry it found.  The eleven registrations at the end of
    [mobilenet_v3.py] are such a batch. *)
Theorem batch_registration (adds : list (model_class * pyvalue)) (st : py_state) :
  Forall (λ add, valid_weights (snd add) = true) adds →
  NoDup (map (λ add, cls_name (fst add)) adds) →
  (∀ add, add ∈ adds → cls_name (fst add) ∉ info_name <$> MODEL_REGISTRY st) →
  MODEL_REGISTRY (run_calls (registrations adds) st)
  = MODEL_REGISTRY st ++ map (λ add, registered_entry (fst add) (snd add)) adds
  ∧ warnings (run_calls (registrations adds) st) = warnings st.
Proof.
  revert st. induction adds as [|[model_cls weights] adds IH]; intros st Hvalid Hnames Hfresh.
  { cbn. by rewrite app_nil_r. }
  apply Forall_cons in Hvalid as [Hvalid Hvalids].
  cbn [map fst snd] in Hnames, Hvalid. apply NoDup_cons in Hnames as [Hname Hnames].
  cbn [registrations map fst snd]. rewrite run_calls_cons.
  destruct (run_add_fresh model_cls weights st Hvalid) as [Hreg Hws].
  { apply (Hfresh (model_cls, weights)). left. }
  destruct (IH (run_call (CallAdd model_cls weights) st) Hvalids Hnames) as [Hreg' Hws'].
  { intros add Hadd. rewrite Hreg, fmap_app, elem_of_app. intros [Hold|Hnew].
    - apply (Hfresh add); [by right|done].
    - cbn in Hnew. apply list_elem_of_singleton in Hnew. apply Hname.
      rewrite <- Hnew. apply list_elem_of_In, in_map_iff. exists add.
      split; [done|by apply list_elem_of_In]. }
  fold (registrations adds). rewrite Hreg', Hws', Hreg, Hws, <- app_assoc. done.
Qed.

Lemma batch_registration_witness :
  MODEL_REGISTRY (run_calls (registrations (module_registrations "origin")) empty_state)
  = MODEL_REGISTRY empty_state
    ++ map (λ add, registered_entry (fst add) (snd add)) (module_registrations "origin")
  ∧ warnings (run_calls (registrations (module_registrations "origin")) empty_state)
    = warnings empty_state.
Proof.
  apply (batch_registration (module_registrations "origin") empty_state).
  - unfold module_registrations. repeat constructor.
  - vm_compute. repeat (constructor; [compute_done|]). constructor.
  - intros add _. cbn. apply not_elem_of_nil.
Defined.
